(** * ALSCalendarParser: extraction, change detection and notification

    A shallow embedding of [main.go] (the Lambda handler that fetches the
    school calendar, extracts its events, diffs them against the DynamoDB
    snapshot and mails a report), together with the properties the
    specification states about it.

    Go values are modelled as follows.
    - [string] is a byte sequence: Rocq's [string] (a list of 8-bit [ascii]);
      the functions that look at runes decode UTF-8 as [unicode/utf8] does,
      invalid bytes included.
    - [time.Time] is an instant, a number of nanoseconds since the Unix epoch,
      read in UTC (the zone [time.Parse] gives a date without zone, and the
      zone of the Lambda runtime).
    - the DynamoDB table is a finite map from the partition key [eventKey] to
      the other attributes of the item; a request to it may fail, as an
      oracle in the state decides; a scan is answered with the first page
      of the table only, which the service cuts where it decides, and the
      rows of that page may fail to decode; the Go maps [existingMap] and
      [currentMap] are a finite map and a finite set.
    - the functions of Go's standard library the code calls ([sha256.Sum256],
      [time.Parse], [Time.Format], [Time.AddDate], [regexp], [strings], ...)
      are written out after their documentation and checked on known values;
      [html.Parse] and the transports (HTTP, SMTP) are inputs of the model.

    The definitions come first, in the order of the source; the properties
    follow. *)

From Stdlib Require Import ZArith Ascii String List Lia Bool.
From stdpp Require Import base option list gmap strings sorting.

Local Open Scope Z_scope.

(** ** Bytes and hexadecimal text *)

Definition byteOf (c : ascii) : Z := Z.of_N (N_of_ascii c).
Definition charOf (b : Z) : ascii := ascii_of_N (Z.to_N b).

Definition bytesOf (s : string) : list Z := byteOf <$> list_ascii_of_string s.

(** One lower-case hexadecimal digit, as [fmt]'s [%x] prints it. *)
Definition hexDigit (d : Z) : ascii :=
  if d <? 10 then charOf (48 + d) else charOf (87 + d).

Definition isHexDigit (c : ascii) : bool :=
  let b := byteOf c in
  ((48 <=? b) && (b <=? 57)) || ((97 <=? b) && (b <=? 102)).

(** [fmt.Sprintf("%x", b)] for a byte array: two digits per byte. *)
Fixpoint hexOfBytes (bs : list Z) : string :=
  match bs with
  | [] => EmptyString
  | b :: bs' =>
      String (hexDigit ((b / 16) mod 16)) (String (hexDigit (b mod 16)) (hexOfBytes bs'))
  end.

(** ** crypto/sha256 *)

Module Sha256.

Definition add32 (x y : Z) : Z := (x + y) mod 2 ^ 32.

(** [bits.RotateLeft32(x, -n)] on a 32-bit word. *)
Definition rotr (n x : Z) : Z :=
  Z.lor (Z.shiftr x n) (Z.shiftl x (32 - n) mod 2 ^ 32).

Definition xor3 (a b c : Z) : Z := Z.lxor (Z.lxor a b) c.

Definition bigSigma0 x := xor3 (rotr 2 x) (rotr 13 x) (rotr 22 x).
Definition bigSigma1 x := xor3 (rotr 6 x) (rotr 11 x) (rotr 25 x).
Definition smallSigma0 x := xor3 (rotr 7 x) (rotr 18 x) (Z.shiftr x 3).
Definition smallSigma1 x := xor3 (rotr 17 x) (rotr 19 x) (Z.shiftr x 10).

Definition choose (e f g : Z) : Z :=
  Z.lxor (Z.land e f) (Z.land (Z.lxor e 4294967295) g).
Definition majority (a b c : Z) : Z :=
  xor3 (Z.land a b) (Z.land a c) (Z.land b c).

(** The first 64 primes. *)
Definition primes : list Z :=
  [ 2; 3; 5; 7; 11; 13; 17; 19; 23; 29; 31; 37; 41; 43; 47; 53; 59; 61; 67; 71;
    73; 79; 83; 89; 97; 101; 103; 107; 109; 113; 127; 131; 137; 139; 149; 151;
    157; 163; 167; 173; 179; 181; 191; 193; 197; 199; 211; 223; 227; 229; 233;
    239; 241; 251; 257; 263; 269; 271; 277; 281; 283; 293; 307; 311 ].

(** The largest [r] below [2 ^ bits] with [r ^ 3 <= n], found bit by bit. *)
Fixpoint cubeRoot (bits : nat) (n r : Z) : Z :=
  match bits with
  | O => r
  | S bits' =>
      let r' := r + 2 ^ Z.of_nat bits' in
      cubeRoot bits' n (if r' ^ 3 <=? n then r' else r)
  end.

(** The round constants: the first 32 bits of the fractional parts of the
    cube roots of the first 64 primes. *)
Definition _K : list Z :=
  Eval vm_compute in (fun p => cubeRoot 40 (p * 2 ^ 96) 0 mod 2 ^ 32) <$> primes.

(** The eight chaining words [h0 .. h7] of a digest. *)
Record digest := Digest {
  h0 : Z; h1 : Z; h2 : Z; h3 : Z; h4 : Z; h5 : Z; h6 : Z; h7 : Z
}.

(** The initial value: the first 32 bits of the fractional parts of the
    square roots of the first eight primes. *)
Definition fractionOfRoot (p : Z) : Z := Z.sqrt (p * 2 ^ 64) mod 2 ^ 32.

Definition init : digest :=
  Eval vm_compute in
    Digest (fractionOfRoot 2) (fractionOfRoot 3) (fractionOfRoot 5) (fractionOfRoot 7)
           (fractionOfRoot 11) (fractionOfRoot 13) (fractionOfRoot 17) (fractionOfRoot 19).

(** Big-endian 32-bit words of a block. *)
Fixpoint wordsOf (bs : list Z) : list Z :=
  match bs with
  | a :: b :: c :: d :: rest =>
      (a * 16777216 + b * 65536 + c * 256 + d) :: wordsOf rest
  | _ => []
  end.

(** The message schedule, newest word first: [w] holds [w[i-1], w[i-2], ...]
    and [n] more words are appended. *)
Fixpoint expand (n : nat) (w : list Z) : list Z :=
  match n with
  | O => w
  | S n' =>
      let t1 := smallSigma1 (nth 1 w 0) in
      let t2 := smallSigma0 (nth 14 w 0) in
      expand n' (add32 (add32 (add32 t1 (nth 6 w 0)) t2) (nth 15 w 0) :: w)
  end.

Definition schedule (block : list Z) : list Z :=
  rev (expand 48 (rev (wordsOf block))).

(** One round on the working variables [a .. h]. *)
Definition round (v : digest) (kw : Z * Z) : digest :=
  let '(Digest a b c d e f g h) := v in
  let t1 := add32 (add32 (add32 (add32 h (bigSigma1 e)) (choose e f g)) (fst kw)) (snd kw) in
  let t2 := add32 (bigSigma0 a) (majority a b c) in
  Digest (add32 t1 t2) a b c (add32 d t1) e f g.

Definition block (d : digest) (p : list Z) : digest :=
  let v := fold_left round (combine _K (schedule p)) d in
  Digest (add32 (h0 d) (h0 v)) (add32 (h1 d) (h1 v)) (add32 (h2 d) (h2 v))
         (add32 (h3 d) (h3 v)) (add32 (h4 d) (h4 v)) (add32 (h5 d) (h5 v))
         (add32 (h6 d) (h6 v)) (add32 (h7 d) (h7 v)).

(** Big-endian bytes of an [n]-byte unsigned number. *)
Fixpoint bigEndian (n : nat) (x : Z) : list Z :=
  match n with
  | O => []
  | S n' => (x / 256 ^ Z.of_nat n') mod 256 :: bigEndian n' x
  end.

(** Padding: the byte 0x80, zeros up to 56 modulo 64, then the length of the
    message in bits as a 64-bit big-endian number. *)
Definition pad (msg : list Z) : list Z :=
  let len := Z.of_nat (length msg) in
  msg ++ [128] ++ repeat 0 (Z.to_nat ((55 - len) mod 64))
      ++ bigEndian 8 ((8 * len) mod 2 ^ 64).

(** The blocks of the padded message are consumed 64 bytes at a time;
    [fuel] bounds the number of blocks. *)
Fixpoint blocks (fuel : nat) (d : digest) (p : list Z) : digest :=
  match fuel with
  | O => d
  | S fuel' =>
      match p with
      | [] => d
      | _ => blocks fuel' (block d (take 64 p)) (drop 64 p)
      end
  end.

Definition checkSum (d : digest) : list Z :=
  bigEndian 4 (h0 d) ++ bigEndian 4 (h1 d) ++ bigEndian 4 (h2 d) ++ bigEndian 4 (h3 d)
  ++ bigEndian 4 (h4 d) ++ bigEndian 4 (h5 d) ++ bigEndian 4 (h6 d) ++ bigEndian 4 (h7 d).

(** [sha256.Sum256]: the 32 bytes of the digest. *)
Definition Sum256 (data : list Z) : list Z :=
  let p := pad data in
  checkSum (blocks (S (length p)) init p).

End Sha256.

(** [generateChecksum]: SHA-256 of the description, in hexadecimal. *)
Definition generateChecksum (description : string) : string :=
  let hash := Sha256.Sum256 (bytesOf description) in
  hexOfBytes hash.

(** ** package time *)

Module GoTime.

(** An instant: nanoseconds since 1970-01-01T00:00:00Z. *)
Definition Time := Z.

Definition nanosPerSecond : Z := 1000000000.
Definition nanosPerDay : Z := 86400 * nanosPerSecond.

(** [t.After(u)] and [t.Before(u)] compare instants, strictly. *)
Definition After (t u : Time) : bool := u <? t.
Definition Before (t u : Time) : bool := t <? u.

(** Days since the epoch of the date [y]-[m]-[d] of the proleptic Gregorian
    calendar. As in [time.Date], the day is not required to lie within the
    month: it is counted on from the first of the month. *)
Definition daysFromCivil (y m d : Z) : Z :=
  let y' := if m <=? 2 then y - 1 else y in
  let era := y' / 400 in
  let yoe := y' - era * 400 in
  let mp := if 2 <? m then m - 3 else m + 9 in
  let doy := (153 * mp + 2) / 5 + d - 1 in
  let doe := yoe * 365 + yoe / 4 - yoe / 100 + doy in
  era * 146097 + doe - 719468.

(** Year, month and day of a number of days since the epoch. *)
Definition civilFromDays (z : Z) : Z * Z * Z :=
  let z' := z + 719468 in
  let era := z' / 146097 in
  let doe := z' - era * 146097 in
  let yoe := (doe - doe / 1460 + doe / 36524 - doe / 146096) / 365 in
  let doy := doe - (365 * yoe + yoe / 4 - yoe / 100) in
  let mp := (5 * doy + 2) / 153 in
  let d := doy - (153 * mp + 2) / 5 + 1 in
  let m := if mp <? 10 then mp + 3 else mp - 9 in
  (if m <=? 2 then yoe + era * 400 + 1 else yoe + era * 400, m, d).

Definition daysOf (t : Time) : Z := t / nanosPerDay.
Definition clockOf (t : Time) : Z := t mod nanosPerDay.

(** [time.Date(y, m, d, 0, 0, 0, 0, time.UTC)] plus a time of day. *)
Definition Date (y m d clock : Z) : Time :=
  daysFromCivil y m d * nanosPerDay + clock.

Definition Year (t : Time) : Z := fst (fst (civilFromDays (daysOf t))).
Definition Month (t : Time) : Z := snd (fst (civilFromDays (daysOf t))).
Definition Day (t : Time) : Z := snd (civilFromDays (daysOf t)).

(** [t.AddDate(years, months, days)]: the calendar date is moved and
    normalised as [Date] does, the time of day is kept. *)
Definition AddDate (years months days : Z) (t : Time) : Time :=
  let m := Month t - 1 + months in
  Date (Year t + years + m / 12) (m mod 12 + 1) (Day t + days) (clockOf t).

(** [t.Weekday()], Sunday = 0; the epoch was a Thursday. *)
Definition Weekday (t : Time) : Z := (daysOf t + 4) mod 7.
Definition Friday : Z := 5.

Definition isLeap (y : Z) : bool :=
  (y mod 4 =? 0) && (negb (y mod 100 =? 0) || (y mod 400 =? 0)).

Definition daysIn (m y : Z) : Z :=
  if m =? 2 then (if isLeap y then 29 else 28)
  else if (m =? 4) || (m =? 6) || (m =? 9) || (m =? 11) then 30 else 31.

(** *** Parsing with the layout 20060102 *)

Definition isDigit (s : list ascii) (i : nat) : bool :=
  match s !! i with
  | Some c => (48 <=? byteOf c) && (byteOf c <=? 57)
  | None => false
  end.

Definition digitVal (c : ascii) : Z := byteOf c - 48.

(** [atoi] on a text that starts with a digit: every byte must be one. *)
Fixpoint atoi (acc : Z) (s : list ascii) : option Z :=
  match s with
  | [] => Some acc
  | c :: s' =>
      if (48 <=? byteOf c) && (byteOf c <=? 57)
      then atoi (acc * 10 + digitVal c) s'
      else None
  end.

(** [getnum(s, fixed = true)]: exactly two digits, and the rest. *)
Definition getnum (s : list ascii) : option (Z * list ascii) :=
  if isDigit s 0 && isDigit s 1 then
    match s with
    | a :: b :: rest => Some (digitVal a * 10 + digitVal b, rest)
    | _ => None
    end
  else None.

(** [time.Parse("20060102", value)]: a four-digit year, a two-digit month in
    1..12, a two-digit day, nothing after it, and the day must exist in the
    month. The result is midnight UTC of that date. *)
Definition Parse (value : string) : option Time :=
  let v := list_ascii_of_string value in
  if (length v <? 4)%nat || negb (isDigit v 0) then None else
  match atoi 0 (take 4 v) with
  | None => None
  | Some year =>
      match getnum (drop 4 v) with
      | None => None
      | Some (month, v1) =>
          if (month <=? 0) || (12 <? month) then None else
          match getnum v1 with
          | None => None
          | Some (day, v2) =>
              match v2 with
              | _ :: _ => None
              | [] =>
                  if (day <? 1) || (daysIn month year <? day) then None
                  else Some (Date year month day 0)
              end
          end
      end
  end.

(** *** Formatting with the layout 20060102 *)

Fixpoint decimalRev (fuel : nat) (u : Z) : list ascii :=
  match fuel with
  | O => []
  | S fuel' =>
      if u <? 10 then [charOf (48 + u)]
      else charOf (48 + u mod 10) :: decimalRev fuel' (u / 10)
  end.

(** [appendInt(b, x, width)]: a minus sign for a negative number, then its
    decimal digits, padded with zeros to [width] digits. *)
Definition appendInt (x : Z) (width : nat) : list ascii :=
  let u := Z.abs x in
  let ds := rev (decimalRev (S (Z.to_nat (Z.log2 u))) u) in
  (if x <? 0 then ["-"%char] else [])
    ++ repeat "0"%char (width - length ds) ++ ds.

Definition Format (t : Time) : string :=
  string_of_list_ascii
    (appendInt (Year t) 4 ++ appendInt (Month t) 2 ++ appendInt (Day t) 2).

End GoTime.

(** ** unicode/utf8 and the character classes *)

Module Utf8.

Definition RuneError : Z := 65533.

(** A continuation byte, 10xxxxxx. *)
Definition isCont (c : ascii) : bool := (128 <=? byteOf c) && (byteOf c <=? 191).

(** For a lead byte of a multi-byte sequence: the length of the sequence and
    the range accepted for its second byte (the table [first] with
    [acceptRanges]). ASCII bytes and bytes that start no sequence give
    [None]. *)
Definition first (b : Z) : option (nat * (Z * Z)) :=
  if b <? 194 then None
  else if b <=? 223 then Some (2%nat, (128, 191))
  else if b =? 224 then Some (3%nat, (160, 191))
  else if b <=? 236 then Some (3%nat, (128, 191))
  else if b =? 237 then Some (3%nat, (128, 159))
  else if b <=? 239 then Some (3%nat, (128, 191))
  else if b =? 240 then Some (4%nat, (144, 191))
  else if b <=? 243 then Some (4%nat, (128, 191))
  else if b =? 244 then Some (4%nat, (128, 143))
  else None.

(** [utf8.DecodeRuneInString]: the first rune of [s] and its width in
    bytes; an invalid or truncated sequence is [RuneError] of width 1. *)
Definition DecodeRune (s : list ascii) : Z * nat :=
  match s with
  | [] => (RuneError, 0%nat)
  | c0 :: rest =>
      let s0 := byteOf c0 in
      if s0 <? 128 then (s0, 1%nat) else
      match first s0 with
      | None => (RuneError, 1%nat)
      | Some (sz, (lo, hi)) =>
          if (length s <? sz)%nat then (RuneError, 1%nat) else
          match rest with
          | [] => (RuneError, 1%nat)
          | c1 :: rest1 =>
              let s1 := byteOf c1 in
              if (s1 <? lo) || (hi <? s1) then (RuneError, 1%nat) else
              if (sz <=? 2)%nat
              then (Z.lor (Z.shiftl (Z.land s0 31) 6) (Z.land s1 63), 2%nat) else
              match rest1 with
              | [] => (RuneError, 1%nat)
              | c2 :: rest2 =>
                  let s2 := byteOf c2 in
                  if negb (isCont c2) then (RuneError, 1%nat) else
                  if (sz <=? 3)%nat
                  then (Z.lor (Z.lor (Z.shiftl (Z.land s0 15) 12)
                                     (Z.shiftl (Z.land s1 63) 6))
                              (Z.land s2 63), 3%nat) else
                  match rest2 with
                  | [] => (RuneError, 1%nat)
                  | c3 :: _ =>
                      let s3 := byteOf c3 in
                      if negb (isCont c3) then (RuneError, 1%nat) else
                      (Z.lor (Z.lor (Z.lor (Z.shiftl (Z.land s0 7) 18)
                                           (Z.shiftl (Z.land s1 63) 12))
                                    (Z.shiftl (Z.land s2 63) 6))
                             (Z.land s3 63), 4%nat)
                  end
              end
          end
      end
  end.

(** The runes of a string in order, each with the bytes it was decoded
    from. [fuel] bounds the number of runes. *)
Fixpoint runes (fuel : nat) (s : list ascii) : list (Z * list ascii) :=
  match fuel with
  | O => []
  | S fuel' =>
      match s with
      | [] => []
      | _ =>
          let '(r, w) := DecodeRune s in
          (r, take w s) :: runes fuel' (drop w s)
      end
  end.

Definition runesOf (s : list ascii) : list (Z * list ascii) := runes (length s) s.

(** The Unicode category Zs (space separators). *)
Definition isZs (r : Z) : bool :=
  (r =? 32) || (r =? 160) || (r =? 5760) || ((8192 <=? r) && (r <=? 8202))
  || (r =? 8239) || (r =? 8287) || (r =? 12288).

(** The class [[\s\p{Zs}]] of the regular expression: [\s] is
    tab, newline, form feed, carriage return and space. *)
Definition reSpace (r : Z) : bool :=
  (r =? 9) || (r =? 10) || (r =? 12) || (r =? 13) || (r =? 32) || isZs r.

(** [unicode.IsSpace]: the property White_Space. *)
Definition IsSpace (r : Z) : bool :=
  ((9 <=? r) && (r <=? 13)) || (r =? 32) || (r =? 133) || (r =? 160)
  || (r =? 5760) || ((8192 <=? r) && (r <=? 8202)) || (r =? 8232) || (r =? 8233)
  || (r =? 8239) || (r =? 8287) || (r =? 12288).

End Utf8.

(** ** package strings and the regular expression of [cleanText] *)

Module Strings.

Definition space : ascii := " "%char.

(** [re.ReplaceAllString(s, " ")] for [re = [\s\p{Zs}]+]: every maximal run
    of runes of the class becomes one space, everything else is copied
    byte for byte. [inRun] says that the previous rune was of the class. *)
Fixpoint collapse (inRun : bool) (rs : list (Z * list ascii)) : list ascii :=
  match rs with
  | [] => []
  | (r, raw) :: rs' =>
      if Utf8.reSpace r
      then (if inRun then [] else [space]) ++ collapse true rs'
      else raw ++ collapse false rs'
  end.

Definition ReplaceAllSpace (s : list ascii) : list ascii :=
  collapse false (Utf8.runesOf s).

(** [strings.TrimSpace]: leading and trailing white space removed, as defined
    by Unicode. The runes at the end are read off the runes of the text from
    its front; the library decodes them from the back, which finds the same
    runes: a rune never starts with a continuation byte, so the start of the
    last rune is the last byte that is none. *)
Fixpoint dropSpace (rs : list (Z * list ascii)) : list (Z * list ascii) :=
  match rs with
  | [] => []
  | t :: rs' => if Utf8.IsSpace (fst t) then dropSpace rs' else rs
  end.

Definition TrimSpace (s : list ascii) : list ascii :=
  concat (snd <$> rev (dropSpace (rev (dropSpace (Utf8.runesOf s))))).

Fixpoint hasPrefix (p s : list ascii) : bool :=
  match p, s with
  | [], _ => true
  | a :: p', b :: s' => bool_decide (a = b) && hasPrefix p' s'
  | _ :: _, [] => false
  end.

(** [strings.ReplaceAll(s, old, new)] for a non-empty [old]: the
    occurrences of [old] are found from left to right and do not overlap.
    [skip] counts the bytes of a found occurrence still to be passed. *)
Fixpoint replaceFrom (old new : list ascii) (skip : nat) (s : list ascii) : list ascii :=
  match s with
  | [] => []
  | c :: s' =>
      match skip with
      | S k => replaceFrom old new k s'
      | O =>
          if hasPrefix old s
          then new ++ replaceFrom old new (length old - 1) s'
          else c :: replaceFrom old new 0 s'
      end
  end.

Definition ReplaceAll (s old new : list ascii) : list ascii :=
  replaceFrom old new 0 s.

(** [strings.Split(s, sep)] for a separator of one byte. *)
Fixpoint Split (s : list ascii) (sep : ascii) : list (list ascii) :=
  match s with
  | [] => [[]]
  | c :: s' =>
      if bool_decide (c = sep) then [] :: Split s' sep
      else match Split s' sep with
           | p :: ps => (c :: p) :: ps
           | [] => [[c]]
           end
  end.

End Strings.

(** The en dash U+2013 in UTF-8, between spaces, and its replacement. *)
Definition spacedEnDash : list ascii :=
  [" "; ascii_of_nat 226; ascii_of_nat 128; ascii_of_nat 147; " "]%char.
Definition spacedHyphen : list ascii := [" "; "-"; " "]%char.

(** [cleanText] removes extra whitespace and formats the text properly. *)
Definition cleanBytes (s : list ascii) : list ascii :=
  let s := Strings.ReplaceAllSpace s in
  let s := Strings.TrimSpace s in
  Strings.ReplaceAll s spacedEnDash spacedHyphen.

Definition cleanText (s : string) : string :=
  string_of_list_ascii (cleanBytes (list_ascii_of_string s)).

(** ** The data model of [main.go] *)

Abbreviation Time := GoTime.Time.

(** [Event] represents a calendar event with a date and description. *)
Record Event := mkEvent {
  EventDate : Time;
  EventDescription : string
}.

(** [DynamoDBEvent] represents an event as stored in DynamoDB. *)
Record DynamoDBEvent := mkDynamoDBEvent {
  EventKey : string;
  dbEventDate : Time;
  EventDesc : string;
  EventChecksum : string
}.

(** [ChangeReport] represents the changes detected in the calendar. *)
Record ChangeReport := mkChangeReport {
  DeletedCount : nat;
  DeletedEvents : list Event;
  AddedCount : nat;
  AddedEvents : list Event;
  UpcomingEvents : list Event
}.

(** The errors a run can end with, one per [fmt.Errorf] of the handler, and
    the run-time panic of a slice out of range. *)
Inductive error :=
| ErrLoadConfig
| ErrMakingRequest
| ErrReadingBody
| ErrParsingHTML
| ErrGettingExisting
| ErrStoringNew
| ErrDeleting
| ErrMarshalingReport
| ErrSendingEmail
| PanicSliceBounds.

(** ** Keys *)

(** [s[:n]] panics when [s] has fewer than [n] bytes. *)
Definition sliceTo (s : string) (n : nat) : option string :=
  if (String.length s <? n)%nat then None else Some (substring 0 n s).

(** [generateEventKey] creates a unique key for an event based on its date
    and description; [None] stands for the panic of an out-of-range slice. *)
Definition generateEventKey (date : Time) (checksum : string) : option string :=
  match sliceTo checksum 8 with
  | Some prefix => Some (GoTime.Format date +:+ "_" +:+ prefix)
  | None => None
  end.

(** ** golang.org/x/net/html: the parsed document *)

Inductive NodeType :=
| ErrorNode | TextNode | DocumentNode | ElementNode | CommentNode | DoctypeNode.

Record Attribute := mkAttribute {
  Namespace : string;
  Key : string;
  Val : string
}.

(** A node with its children in document order (the chain [FirstChild],
    [NextSibling]). *)
#[warnings="-register-all"]
Inductive Node :=
| mkNode (type : NodeType) (data : string) (attr : list Attribute) (children : list Node).

Definition nodeType (n : Node) : NodeType := let '(mkNode t _ _ _) := n in t.
Definition nodeData (n : Node) : string := let '(mkNode _ d _ _) := n in d.
Definition nodeAttr (n : Node) : list Attribute := let '(mkNode _ _ a _) := n in a.
Definition nodeChildren (n : Node) : list Node := let '(mkNode _ _ _ c) := n in c.

(** [getTextContent] extracts all text content from a node and its children. *)
Fixpoint getTextContent (n : Node) : string :=
  match n with
  | mkNode TextNode data _ _ => data
  | mkNode _ _ _ children =>
      (fix siblings (cs : list Node) : string :=
         match cs with
         | [] => ""
         | c :: cs' => getTextContent c +:+ siblings cs'
         end) children
  end.

(** ** Extraction *)

(** The three variables the loop over [n.Attr] assigns. *)
Record attrScan := mkAttrScan {
  hasEventsClass : bool;
  ariaLabel : string;
  description : string
}.

Definition scanAttr (n : Node) (acc : attrScan) (a : Attribute) : attrScan :=
  let acc :=
    if bool_decide (Key a = "class") && bool_decide (Val a = "events")
    then mkAttrScan true (ariaLabel acc) (cleanText (getTextContent n))
    else acc in
  if bool_decide (Key a = "aria-labelledby")
  then mkAttrScan (hasEventsClass acc) (Val a) (description acc)
  else acc.

Definition scanAttrs (n : Node) : attrScan :=
  fold_left (scanAttr n) (nodeAttr n) (mkAttrScan false "" "").

(** The body of [traverse] for one node: the event it appends, if any. *)
Definition nodeEvent (n : Node) : option Event :=
  match nodeType n with
  | ElementNode =>
      let sc := scanAttrs n in
      if hasEventsClass sc && negb (bool_decide (ariaLabel sc = "")) then
        let parts := Strings.Split (list_ascii_of_string (ariaLabel sc)) "-" in
        if (1 <? length parts)%nat then
          let dateStr := List.last parts [] in
          if (length dateStr =? 8)%nat then
            match GoTime.Parse (string_of_list_ascii dateStr) with
            | Some date => Some (mkEvent date (description sc))
            | None => None
            end
          else None
        else None
      else None
  | _ => None
  end.

(** [traverse]: the node itself, then its children from first to last. *)
Fixpoint traverse (n : Node) : list Event :=
  option_list (nodeEvent n) ++
  (fix siblings (cs : list Node) : list Event :=
     match cs with
     | [] => []
     | c :: cs' => traverse c ++ siblings cs'
     end) (nodeChildren n).

(** [extractEvents] finds all tags with class="events" and extracts their
    dates and descriptions. [html.Parse] is the library's: [parse] gives the
    document of a body, or [None] when the library reports an error. *)
Definition extractEvents (parse : string -> option Node) (body : string)
  : error + list Event :=
  match parse body with
  | None => inl ErrParsingHTML
  | Some doc => inr (traverse doc)
  end.

(** All nodes of a document, in document order. *)
Fixpoint preorder (n : Node) : list Node :=
  n :: (fix siblings (cs : list Node) : list Node :=
          match cs with
          | [] => []
          | c :: cs' => preorder c ++ siblings cs'
          end) (nodeChildren n).

(** ** The snapshot store *)

(** The attributes of an item of the table [ALSEvents] besides its partition
    key [eventKey], and whether [attributevalue] can decode the item into a
    [DynamoDBEvent] (it cannot if an attribute has another type than the
    field, or if [eventDate] is not a time): the other fields of an item
    that cannot be decoded are never read. *)
Record Item := mkItem {
  itemDate : Time;
  itemDesc : string;
  itemChecksum : string;
  itemDecodes : bool
}.

(** A request to DynamoDB, and its record in the trace of a run: the request
    and whether it succeeded. *)
Inductive Request :=
| Scan
| PutItem (e : DynamoDBEvent)
| DeleteItem (key : string).

(** The state of the service as a run sees it: the table, the outcomes of
    the coming requests ([true]: the request fails; the service answers once
    the list is used up), the requests made so far, oldest first, and how
    the service cuts the first page of a scan: [onFirstPage t k] says
    whether, of the table [t], the row with the key [k] is on the first
    page (a page ends where the rows read exceed 1 MB). *)
Record Dynamo := mkDynamo {
  table : gmap string Item;
  failures : list bool;
  trace : list (Request * bool);
  onFirstPage : gmap string Item -> string -> bool
}.

(** Code that talks to the store: it ends with an error or a value, and in
    either case leaves a state behind. *)
Definition Run (A : Type) : Type := Dynamo -> (error + A) * Dynamo.

Definition ret {A} (a : A) : Run A := fun st => (inr a, st).
Definition throw {A} (e : error) : Run A := fun st => (inl e, st).
Definition bind {A B} (m : Run A) (k : A -> Run B) : Run B :=
  fun st =>
    match m st with
    | (inl e, st') => (inl e, st')
    | (inr a, st') => k a st'
    end.

Notation "x <- m ;; k" := (bind m (fun x => k))
  (at level 100, m at next level, right associativity).

(** The error [processEvents] wraps the failure of a request in. *)
Definition errorOf (rq : Request) : error :=
  match rq with
  | Scan => ErrGettingExisting
  | PutItem _ => ErrStoringNew
  | DeleteItem _ => ErrDeleting
  end.

(** The effect of a successful request on the table. *)
Definition applyRequest (rq : Request) (t : gmap string Item) : gmap string Item :=
  match rq with
  | Scan => t
  | PutItem e =>
      <[EventKey e := mkItem (dbEventDate e) (EventDesc e) (EventChecksum e) true]> t
  | DeleteItem key => delete key t
  end.

(** One request: it fails when the service says so, and otherwise has its
    effect on the table and is answered from it; it is recorded either
    way. *)
Definition request {A} (rq : Request) (answer : gmap string Item -> A) : Run A :=
  fun st =>
    match failures st with
    | true :: rest =>
        (inl (errorOf rq),
         mkDynamo (table st) rest (trace st ++ [(rq, false)]) (onFirstPage st))
    | _ =>
        (inr (answer (table st)),
         mkDynamo (applyRequest rq (table st)) (tail (failures st))
                  (trace st ++ [(rq, true)]) (onFirstPage st))
    end.

(** The rows of a table, or of a part of it, as [DynamoDBEvent]s: the key
    with the other attributes. *)
Definition rowsOf (t : gmap string Item) : list DynamoDBEvent :=
  (fun kv => mkDynamoDBEvent (fst kv) (itemDate (snd kv)) (itemDesc (snd kv))
                             (itemChecksum (snd kv))) <$> map_to_list t.

(** [result.Items] of a successful [Scan]: the items of the first page. The
    code makes one request and does not look at [LastEvaluatedKey]. *)
Definition firstPage (policy : gmap string Item -> string -> bool)
    (t : gmap string Item) : gmap string Item :=
  filter (fun kv => policy t (fst kv) = true) t.

Definition firstPageOf (st : Dynamo) : gmap string Item :=
  firstPage (onFirstPage st) (table st).

(** [attributevalue.UnmarshalListOfMaps] succeeds on the items. *)
Definition decodable (items : gmap string Item) : bool :=
  forallb (fun kv => itemDecodes (snd kv)) (map_to_list items).

(** [getAllEvents] retrieves all events from DynamoDB: the scan, then the
    decoding of its items. [processEvents] wraps either error in the same
    way. *)
Definition getAllEvents : Run (list DynamoDBEvent) :=
  fun st =>
    (items <- request Scan (firstPage (onFirstPage st)) ;;
     if decodable items then ret (rowsOf items) else throw ErrGettingExisting) st.

(** [putEvent] stores a single event in DynamoDB. ([attributevalue.MarshalMap]
    has no failing path on a [DynamoDBEvent]: strings and a time.) *)
Definition putEvent (event : DynamoDBEvent) : Run unit :=
  request (PutItem event) (fun _ => tt).

(** [deleteEvent] removes a single event from DynamoDB. *)
Definition deleteEvent (eventKey : string) : Run unit :=
  request (DeleteItem eventKey) (fun _ => tt).

(** ** The differ *)

(** [sort.Slice] with [less i j] = the date of [i] is before the date of
    [j]. The library does not promise an order among equal dates; a merge
    sort stands for it. *)
Definition notAfter (a b : Event) : Prop := EventDate a <= EventDate b.

#[global] Instance notAfter_dec : RelDecision notAfter.
Proof. intros a b. unfold notAfter. apply _. Defined.

Definition sortByDate (events : list Event) : list Event :=
  merge_sort notAfter events.

(** The variables the loop over the current events assigns. *)
Record current := mkCurrent {
  currentMap : gset string;
  added : list Event;
  upcoming : list Event
}.

(** The key of an event; the slice inside [generateEventKey] may panic. *)
Definition keyOf (event : Event) : option string :=
  generateEventKey (EventDate event) (generateChecksum (EventDescription event)).

(** The loop "Process current events". *)
Fixpoint processCurrent
    (existingMap : gmap string DynamoDBEvent) (now cutoff : Time)
    (events : list Event) (acc : current) : Run current :=
  match events with
  | [] => ret acc
  | event :: events' =>
      let checksum := generateChecksum (EventDescription event) in
      match generateEventKey (EventDate event) checksum with
      | None => throw PanicSliceBounds
      | Some eventKey =>
          let seen := {[eventKey]} ∪ currentMap acc in
          added' <-
            match existingMap !! eventKey with
            | None =>
                let dbEvent :=
                  mkDynamoDBEvent eventKey (EventDate event)
                                  (EventDescription event) checksum in
                _ <- putEvent dbEvent ;;
                ret (added acc ++ [event])
            | Some _ => ret (added acc)
            end ;;
          let upcoming' :=
            if GoTime.After (EventDate event) now && GoTime.Before (EventDate event) cutoff
            then upcoming acc ++ [event] else upcoming acc in
          processCurrent existingMap now cutoff events'
                         (mkCurrent seen added' upcoming')
      end
  end.

(** The loop "Find deleted events". *)
Fixpoint processDeleted (seen : gset string) (existingEvents : list DynamoDBEvent)
    (deleted : list Event) : Run (list Event) :=
  match existingEvents with
  | [] => ret deleted
  | existingEvent :: rest =>
      if bool_decide (EventKey existingEvent ∈ seen)
      then processDeleted seen rest deleted
      else
        _ <- deleteEvent (EventKey existingEvent) ;;
        processDeleted seen rest
          (deleted ++ [mkEvent (dbEventDate existingEvent) (EventDesc existingEvent)])
  end.

(** [processEvents] compares current events with stored events and tracks
    changes. [now] is what [time.Now()] gives after the scan. *)
Definition processEvents (now : Time) (events : list Event)
  : Run ChangeReport :=
  existingEvents <- getAllEvents ;;
  let existingMap :=
    fold_left (fun m e => <[EventKey e := e]> m) existingEvents ∅ in
  let cutoff := GoTime.AddDate 0 0 60 now in
  cur <- processCurrent existingMap now cutoff events (mkCurrent ∅ [] []) ;;
  deleted <- processDeleted (currentMap cur) existingEvents [] ;;
  ret (mkChangeReport (length deleted) deleted
                      (length (added cur)) (added cur)
                      (sortByDate (upcoming cur))).

(** ** The handler *)

(** What comes of a call of [sendEmail]: the server accepts the message,
    [smtp.SendMail] returns an error, or the credentials cannot be read and
    [log.Fatal] ends the process. *)
Inductive MailAnswer := MailAccepted | MailRefused | MailNoCredentials.

(** What a run meets outside the store: whether the SDK configuration
    loads, the answer to the HTTP request ([None]: the request failed;
    [Some None]: the body could not be read), the parser of the HTML
    library, the two readings of the clock (in [processEvents] and in the
    handler) and what comes of sending a mail. *)
Record Env := mkEnv {
  configFails : bool;
  httpAnswer : option (option string);
  htmlParse : string -> option Node;
  clockOfDiff : Time;
  clockOfHandler : Time;
  mailAnswer : MailAnswer
}.

(** The Lambda function response; the body is the report or the error whose
    text it carries. *)
Record Response := mkResponse {
  StatusCode : Z;
  Body : error + ChangeReport
}.

Definition createErrorResponse (err : error) : Response := mkResponse 500 (inl err).

(** [json.Marshal(report)]: [Time.MarshalJSON] refuses a year outside
    0..9999. *)
Definition marshalsEvent (e : Event) : bool :=
  (0 <=? GoTime.Year (EventDate e)) && (GoTime.Year (EventDate e) <? 10000).

Definition marshals (report : ChangeReport) : bool :=
  forallb marshalsEvent
          (DeletedEvents report ++ AddedEvents report ++ UpcomingEvents report).

(** What a run leaves behind: the response (none if the process was
    ended), the store, and the reports for which [sendEmail] was called,
    each with what came of it. *)
Record Outcome := mkOutcome {
  response : option Response;
  dynamo : Dynamo;
  mails : list (ChangeReport * MailAnswer)
}.

Definition failWith (err : error) (st : Dynamo) : Outcome :=
  mkOutcome (Some (createErrorResponse err)) st [].

(** [HandleRequest] is the Lambda handler function. [createBody] has no
    failing path; the mail is identified with the report it renders. A panic
    would end the invocation; it is carried like an error here. *)
Definition HandleRequest (env : Env) (st : Dynamo) : Outcome :=
  if configFails env then failWith ErrLoadConfig st else
  match httpAnswer env with
  | None => failWith ErrMakingRequest st
  | Some None => failWith ErrReadingBody st
  | Some (Some body) =>
      match extractEvents (htmlParse env) body with
      | inl err => failWith err st
      | inr events =>
          match processEvents (clockOfDiff env) events st with
          | (inl err, st') => failWith err st'
          | (inr report, st') =>
              if negb (marshals report) then failWith ErrMarshalingReport st' else
              if (0 <? AddedCount report)%nat
                 || (GoTime.Weekday (clockOfHandler env) =? GoTime.Friday)
              then
                match mailAnswer env with
                | MailAccepted =>
                    mkOutcome (Some (mkResponse 200 (inr report))) st'
                              [(report, MailAccepted)]
                | MailRefused =>
                    mkOutcome (Some (createErrorResponse ErrSendingEmail)) st'
                              [(report, MailRefused)]
                | MailNoCredentials => mkOutcome None st' [(report, MailNoCredentials)]
                end
              else mkOutcome (Some (mkResponse 200 (inr report))) st' []
          end
      end
  end.

(** ** Vocabulary of the properties *)

(** The key of an event, which always exists. *)
Definition theKey (e : Event) : string :=
  GoTime.Format (EventDate e) +:+ "_" +:+
  substring 0 8 (generateChecksum (EventDescription e)).

(** The window of the upcoming events, as the loop tests it. *)
Definition inWindow (now cutoff : Time) (e : Event) : bool :=
  GoTime.After (EventDate e) now && GoTime.Before (EventDate e) cutoff.

(** The effect of a trace of requests on the table: a request that failed
    has none. *)
Definition replay (tr : list (Request * bool)) (t : gmap string Item) : gmap string Item :=
  fold_left (fun (t : gmap string Item) (x : Request * bool) =>
               if snd x then applyRequest (fst x) t else t) tr t.

(** Whether each of the next [n] requests succeeds, as the service has
    decided it in [failures]. *)
Fixpoint outcomes (n : nat) (failures : list bool) : list bool :=
  match n with
  | O => []
  | S n' =>
      match failures with
      | [] => true :: outcomes n' []
      | f :: rest => negb f :: outcomes n' rest
      end
  end.

(** What every piece of the differ but the decoding of the scan guarantees
    about the requests it makes: they are appended to the trace, each with
    the outcome the service decided; every successful one has had its effect
    and no other change was made to the table; a value is returned only if
    all of them succeeded; and an error is that of a failed request, which
    is the last one made. *)
Definition traced {A} (m : Run A) : Prop :=
  forall st, exists made,
    trace (snd (m st)) = trace st ++ made /\
    snd <$> made = outcomes (length made) (failures st) /\
    failures (snd (m st)) = drop (length made) (failures st) /\
    table (snd (m st)) = replay made (table st) /\
    match fst (m st) with
    | inr _ => Forall (fun x => snd x = true) made
    | inl err =>
        exists before rq,
          made = before ++ [(rq, false)] /\
          Forall (fun x => snd x = true) before /\ err = errorOf rq
    end.

(** The same of a whole run that starts in [st], with the third way in which
    it can end: the scan succeeded, its items could not be decoded, and
    nothing else was requested. *)
Definition tracedRun {A} (st : Dynamo) (out : (error + A) * Dynamo) : Prop :=
  exists made,
    trace (snd out) = trace st ++ made /\
    snd <$> made = outcomes (length made) (failures st) /\
    failures (snd out) = drop (length made) (failures st) /\
    table (snd out) = replay made (table st) /\
    match fst out with
    | inr _ => Forall (fun x => snd x = true) made /\ decodable (firstPageOf st) = true
    | inl err =>
        (exists before rq,
           made = before ++ [(rq, false)] /\
           Forall (fun x => snd x = true) before /\ err = errorOf rq) \/
        (made = [(Scan, true)] /\ decodable (firstPageOf st) = false /\
         err = ErrGettingExisting)
    end.

(** An event whose key is not in the snapshot, and the event a row of the
    snapshot stands for. *)
Definition isNew (existingMap : gmap string DynamoDBEvent) (e : Event) : bool :=
  bool_decide (existingMap !! theKey e = None).

Definition eventOfRow (r : DynamoDBEvent) : Event :=
  mkEvent (dbEventDate r) (EventDesc r).

(** A snapshot and an extraction used to run the differ on: the table holds
    one event of 2025-03-10, the page shows that event with a changed
    time, and another event twice. *)
Definition day20250310 : Time := GoTime.Date 2025 3 10 0.
Definition day20250405 : Time := GoTime.Date 2025 4 5 0.

Definition sampleTable : gmap string Item :=
  {[ "20250310_0644d0d5"%string :=
       mkItem day20250310 "Elternabend 18:00 Uhr"
              "0644d0d594a9628f22200ffbead04dca0b8f80f506166b39dd69ecf41aac38c1" true ]}.

Definition sampleEvents : list Event :=
  [ mkEvent day20250310 "Elternabend 19:00 Uhr";
    mkEvent day20250405 "Schulfest";
    mkEvent day20250405 "Schulfest" ].

(** The scan of a run that starts in [st] returns the whole table: the table
    fits the first page. *)
Definition fullScan (st : Dynamo) : Prop := firstPageOf st = table st.

(** The service when the table fits the first page of a scan. *)
Definition onePage : gmap string Item -> string -> bool := fun _ _ => true.

Definition sampleStore (failures : list bool) : Dynamo :=
  mkDynamo sampleTable failures [] onePage.

(** A run-start time on 2025-03-01, a Saturday. *)
Definition sampleNow : Time := GoTime.Date 2025 3 1 (8 * 3600 * GoTime.nanosPerSecond).

(** Four events at the ends of the window of a run. *)
Definition boundaryEvents (now : Time) : list Event :=
  [ mkEvent now "at now";
    mkEvent (now + GoTime.nanosPerSecond) "one second after now";
    mkEvent (GoTime.AddDate 0 0 60 now - GoTime.nanosPerSecond) "one second before the cutoff";
    mkEvent (GoTime.AddDate 0 0 60 now) "at the cutoff" ].

(** ** The rule of the extractor, in the words of the specification *)

(** The value of the attribute [key] of a node; should the attribute be
    repeated, the last occurrence counts. *)
Fixpoint lookupLast (key : string) (attrs : list Attribute) : option string :=
  match attrs with
  | [] => None
  | a :: rest =>
      match lookupLast key rest with
      | Some v => Some v
      | None => if bool_decide (Key a = key) then Some (Val a) else None
      end
  end.

(** [seg] is the last dash-delimited segment of [v], and [v] has a dash. *)
Definition lastSegment (v : string) (seg : list ascii) : Prop :=
  exists prefix, list_ascii_of_string v = prefix ++ "-"%char :: seg /\ "-"%char ∉ seg.

(** An identifier that ends in a date: it has a dash, and its last segment
    has eight characters and parses as a date in the layout YYYYMMDD. *)
Definition endsInDate (v : string) : Prop :=
  exists seg, lastSegment v seg /\ length seg = 8%nat /\
              is_Some (GoTime.Parse (string_of_list_ascii seg)).

Definition hasEventsMarker (n : Node) : Prop :=
  exists a, a ∈ nodeAttr n /\ Key a = "class"%string /\ Val a = "events"%string.

(** A node qualifies as an event container. *)
Definition isEventContainer (n : Node) : Prop :=
  nodeType n = ElementNode /\ hasEventsMarker n /\
  exists v, lookupLast "aria-labelledby" (nodeAttr n) = Some v /\ endsInDate v.

(** The same rule for a node that carries the attribute at most once, as the
    elements of an HTML document do. *)
Definition carriesDateLabel (n : Node) : Prop :=
  exists a, a ∈ nodeAttr n /\ Key a = "aria-labelledby"%string /\ endsInDate (Val a).

Definition labelledOnce (n : Node) : Prop :=
  forall a b, a ∈ nodeAttr n -> b ∈ nodeAttr n ->
              Key a = "aria-labelledby"%string -> Key b = "aria-labelledby"%string ->
              Val a = Val b.

(** A page with one event container that has no text, one with text, and a
    node that only looks like one. *)
Definition attrOf (key val : string) : Attribute := mkAttribute "" key val.

Definition emptyContainer : Node :=
  mkNode ElementNode "div"
         [attrOf "class" "events"; attrOf "aria-labelledby" "day-20250310"] [].

Definition samplePage : Node :=
  mkNode DocumentNode "" []
    [ mkNode ElementNode "html" []
        [ mkNode ElementNode "body" []
            [ emptyContainer;
              mkNode ElementNode "ul"
                [attrOf "aria-labelledby" "day-20250405"; attrOf "class" "events"]
                [ mkNode ElementNode "li" [] [mkNode TextNode "  Schulfest " [] []];
                  mkNode ElementNode "li" [] [mkNode TextNode "
    10:00 – 14:00  Uhr" [] []] ];
              mkNode ElementNode "div"
                [attrOf "class" "events"; attrOf "aria-labelledby" "footer-20251332"]
                [mkNode TextNode "Impressum" [] []] ] ] ].

(** Induction over a document: a property of the children gives the
    property of the node. *)
Fixpoint Node_forall_ind (P : Node -> Prop)
    (step : forall ty data attrs cs, Forall P cs -> P (mkNode ty data attrs cs))
    (n : Node) : P n :=
  match n with
  | mkNode ty data attrs cs =>
      step ty data attrs cs
           ((fix all (l : list Node) : Forall P l :=
               match l with
               | [] => List.Forall_nil P
               | c :: l' => List.Forall_cons P c l' (Node_forall_ind P step c) (all l')
               end) cs)
  end.

(** A run of the handler on a page without events, at the time [today]. *)
Definition emptyPage : Node := mkNode DocumentNode "" [] [].

Definition quietEnv (today : Time) : Env :=
  mkEnv false (Some (Some "<html></html>"%string)) (fun _ => Some emptyPage)
        today today MailAccepted.

(** A Friday in the week after [sampleNow]. *)
Definition sampleFriday : Time := GoTime.Date 2025 3 7 (8 * 3600 * GoTime.nanosPerSecond).

(** ** Vocabulary of the normaliser: texts as lists of runes *)

Abbreviation token := (Z * list ascii)%type.

(** The bytes of a list of runes. *)
Definition flat (L : list token) : list ascii := concat (snd <$> L).

(** The continuation bytes a text starts with. *)
Fixpoint conts (s : list ascii) : list ascii :=
  match s with
  | c :: s' => if Utf8.isCont c then c :: conts s' else []
  | [] => []
  end.

(** A list of runes that is the list of the runes of its bytes: each rune
    is what [DecodeRune] finds before the bytes of the runes after it. *)
Fixpoint okToks (L : list token) : Prop :=
  match L with
  | [] => True
  | t :: L' =>
      snd t <> [] /\
      Utf8.DecodeRune (snd t ++ flat L') = (fst t, length (snd t)) /\
      okToks L'
  end.

Definition SP : token := (32, [Strings.space]).

(** [Strings.collapse], rune by rune. *)
Fixpoint collapseT (inRun : bool) (L : list token) : list token :=
  match L with
  | [] => []
  | t :: L' =>
      if Utf8.reSpace (fst t)
      then (if inRun then [] else [SP]) ++ collapseT true L'
      else t :: collapseT false L'
  end.

(** No white space but single spaces: what [collapseT] leaves. [inRun] says
    that the rune before was a space. *)
Fixpoint collapsed (inRun : bool) (L : list token) : Prop :=
  match L with
  | [] => True
  | t :: L' =>
      if Utf8.reSpace (fst t)
      then inRun = false /\ t = SP /\ collapsed true L'
      else collapsed false L'
  end.

Definition trimT (L : list token) : list token :=
  rev (Strings.dropSpace (rev (Strings.dropSpace L))).

(** No white space at either end. *)
Definition trimmed (L : list token) : Prop :=
  Strings.dropSpace L = L /\ Strings.dropSpace (rev L) = rev L.

Definition ENDASH : token := (8211, [ascii_of_nat 226; ascii_of_nat 128; ascii_of_nat 147]).
Definition HYPHEN : token := (45, ["-"%char]).

(** What the replacement does to a rune: nothing, or an en dash becomes a
    hyphen. *)
Definition dashed (t t' : token) : Prop := t = t' \/ (t = ENDASH /\ t' = HYPHEN).

Definition RA (s : list ascii) : list ascii := Strings.ReplaceAll s spacedEnDash spacedHyphen.

(** [p] occurs in [s]. *)
Definition occurs (p s : list ascii) : Prop := exists a b, s = a ++ p ++ b.

(** ** The requests of a run, foreseen from the scanned rows and the
    extraction *)

(** The row [processEvents] stores for an event that is new. *)
Definition rowOfEvent (e : Event) : DynamoDBEvent :=
  mkDynamoDBEvent (theKey e) (EventDate e) (EventDescription e)
                  (generateChecksum (EventDescription e)).

(** The events to add and the rows to delete, for the items [t] that the
    scan returned. *)
Definition newEvents (t : gmap string Item) (events : list Event) : list Event :=
  List.filter (fun e => bool_decide (theKey e ∉ dom t)) events.

Definition staleRows (t : gmap string Item) (events : list Event) : list DynamoDBEvent :=
  List.filter (fun r => negb (bool_decide
                 (EventKey r ∈ (list_to_set (theKey <$> events) : gset string))))
              (rowsOf t).

(** The requests a run makes if none fails: the scan, a put for each new
    event, a delete for each stale row. *)
Definition plannedRequests (t : gmap string Item) (events : list Event) : list Request :=
  Scan :: ((fun e => PutItem (rowOfEvent e)) <$> newEvents t events)
       ++ ((fun r => DeleteItem (EventKey r)) <$> staleRows t events).

(** The computation [m], started in [st], makes the requests [p] in this
    order, all of them if it returns a value, and the first of them, some or
    all, if it returns an error. *)
Definition follows {A} (st : Dynamo) (p : list Request) (m : Run A) : Prop :=
  exists made,
    trace (snd (m st)) = trace st ++ made /\
    match fst (m st) with
    | inr _ => fst <$> made = p
    | inl _ => exists rest, p = (fst <$> made) ++ rest
    end.

(** The item stored for an event. *)
Definition itemOf (e : Event) : Item :=
  mkItem (EventDate e) (EventDescription e) (generateChecksum (EventDescription e)) true.

(** The events of an extraction that have the key [k]. *)
Definition eventsOfKey (k : string) (events : list Event) : list Event :=
  List.filter (fun e => bool_decide (theKey e = k)) events.

(** The key a request names; the scan names none. *)
Definition requestKey (rq : Request) : option string :=
  match rq with
  | Scan => None
  | PutItem row => Some (EventKey row)
  | DeleteItem key => Some key
  end.

(** Two descriptions whose SHA-256 checksums begin with the same eight
    hexadecimal digits, 732d8569, and a snapshot that holds the first. *)
Definition room3597 : Event := mkEvent day20250310 "Elternabend Raum 3597".
Definition room113390 : Event := mkEvent day20250310 "Elternabend Raum 113390".

Definition collidingStore : Dynamo :=
  mkDynamo {[ theKey room3597 := itemOf room3597 ]} [] [] onePage.

(** ** The differ of the earlier version

    [src/main.go] holds the version of the program before the mail was
    added: its report has no list of upcoming events and its
    [processEvents] reads no clock. The store functions are the same. *)
Module Earlier.

Record ChangeReport := mkChangeReport {
  DeletedCount : nat;
  DeletedEvents : list Event;
  AddedCount : nat;
  AddedEvents : list Event
}.

(** The loop "Process current events": [currentMap] and
    [report.AddedEvents]. *)
Fixpoint processCurrent
    (existingMap : gmap string DynamoDBEvent)
    (events : list Event) (currentMap : gset string) (added : list Event)
  : Run (gset string * list Event) :=
  match events with
  | [] => ret (currentMap, added)
  | event :: events' =>
      let checksum := generateChecksum (EventDescription event) in
      match generateEventKey (EventDate event) checksum with
      | None => throw PanicSliceBounds
      | Some eventKey =>
          let seen := {[eventKey]} ∪ currentMap in
          added' <-
            match existingMap !! eventKey with
            | None =>
                let dbEvent :=
                  mkDynamoDBEvent eventKey (EventDate event)
                                  (EventDescription event) checksum in
                _ <- putEvent dbEvent ;;
                ret (added ++ [event])
            | Some _ => ret added
            end ;;
          processCurrent existingMap events' seen added'
      end
  end.

Definition processEvents (events : list Event) : Run ChangeReport :=
  existingEvents <- getAllEvents ;;
  let existingMap :=
    fold_left (fun m e => <[EventKey e := e]> m) existingEvents ∅ in
  cur <- processCurrent existingMap events ∅ [] ;;
  deleted <- processDeleted (fst cur) existingEvents [] ;;
  ret (mkChangeReport (length deleted) deleted
                      (length (snd cur)) (snd cur)).

End Earlier.

(** What the report of the later version has in common with that of the
    earlier one. *)
Definition withoutUpcoming (report : ChangeReport) : Earlier.ChangeReport :=
  Earlier.mkChangeReport (DeletedCount report) (DeletedEvents report)
                         (AddedCount report) (AddedEvents report).

Definition mapResult {A B} (f : A -> B) (out : (error + A) * Dynamo) : (error + B) * Dynamo :=
  (match fst out with inl err => inl err | inr a => inr (f a) end, snd out).

(** ** The body of the mail *)

(** The double quote, which the templates contain. *)
Definition dq : string := String (ascii_of_nat 34) EmptyString.

(** The two templates of [main.go]; each is cut at its double quotes. *)
Definition emailTemplate : string :=
  String.concat dq
    [ "<!DOCTYPE html>
<html>
<head>
    <meta charset=";
      "UTF-8";
      ">
    <meta name=";
      "viewport";
      " content=";
      "width=device-width, initial-scale=1.0";
      ">
    <title>ALS Kalender Update</title>
</head>
<body style=";
      "font-family: Arial, sans-serif; margin: 20px; padding: 20px; background-color: #f9f9f9;";
      ">
    <h1 style=";
      "text-align: center; color: #333;";
      ">ALS Kalender Update</h1>
    <table align=";
      "center";
      " width=";
      "100%";
      " style=";
      "max-width: 600px; background-color: #ffffff; padding: 20px; border-radius: 5px; box-shadow: 0 0 10px rgba(0,0,0,0.1);";
      ">
        <tr>
            <td>
                {list_placeholder}
            </td>
        </tr>
    </table>
</body>
</html>" ].

Definition listTemplate : string :=
  String.concat dq
    [ "
<h2 style=";
      "text-align: center; color: #333;";
      ">{title_list}</h2>

<ul style=";
      "color: #666;";
      ">
    {list_items}
</ul>
" ].

(** [t.Format("02.01.2006")]. *)
Definition FormatDotted (t : Time) : string :=
  string_of_list_ascii
    (GoTime.appendInt (GoTime.Day t) 2 ++ ["."%char] ++
     GoTime.appendInt (GoTime.Month t) 2 ++ ["."%char] ++
     GoTime.appendInt (GoTime.Year t) 4).

(** [strings.ReplaceAll] on strings. *)
Definition ReplaceAllS (s old new : string) : string :=
  string_of_list_ascii
    (Strings.ReplaceAll (list_ascii_of_string s) (list_ascii_of_string old)
                        (list_ascii_of_string new)).

(** [fmt.Sprintf("<li><b>%s</b><br />%s<br /><br /></li>", ...)] for an
    event. *)
Definition listItem (event : Event) : string :=
  "<li><b>" +:+ FormatDotted (EventDate event) +:+ "</b><br />" +:+
  EventDescription event +:+ "<br /><br /></li>".

Definition createBody (report : ChangeReport) : string :=
  let changedEventsList :=
    fold_left (fun acc event => acc +:+ listItem event) (AddedEvents report) ""%string in
  let changedEventsSection :=
    if (0 <? AddedCount report)%nat
    then ReplaceAllS (ReplaceAllS listTemplate "{title_list}" "Geänderte Kalendereinträge")
                     "{list_items}" changedEventsList
    else ""%string in
  let upcomingEventsList :=
    fold_left (fun acc event => acc +:+ listItem event) (UpcomingEvents report) ""%string in
  let upcomingEventsSection :=
    ReplaceAllS (ReplaceAllS listTemplate "{title_list}" "Einträge für die nächste 60 Tage")
                "{list_items}" upcomingEventsList in
  let combinedLists :=
    if bool_decide (changedEventsList <> ""%string)
    then changedEventsSection +:+ upcomingEventsSection
    else upcomingEventsSection in
  ReplaceAllS emailTemplate "{list_placeholder}" combinedLists.

(** [strings.Index]: where [old] first occurs in [s]. *)
Fixpoint indexOf (old s : list ascii) : option nat :=
  if Strings.hasPrefix old s then Some O
  else match s with
       | [] => None
       | _ :: s' => S <$> indexOf old s'
       end.

(** The text of [tpl] before and after the first occurrence of [ph]. *)
Definition cut (ph tpl : string) : string * string :=
  let bytes := list_ascii_of_string tpl in
  match indexOf (list_ascii_of_string ph) bytes with
  | Some n =>
      (string_of_list_ascii (take n bytes),
       string_of_list_ascii (drop (n + String.length ph) bytes))
  | None => (tpl, ""%string)
  end.

(** [ph] occurs in [tpl], and not again after its first occurrence. *)
Definition occursOnce (ph tpl : string) : bool :=
  let bytes := list_ascii_of_string tpl in
  match indexOf (list_ascii_of_string ph) bytes with
  | Some n =>
      bool_decide (indexOf (list_ascii_of_string ph) (drop (n + String.length ph) bytes)
                   = None)
  | None => false
  end.

(** The parts of the mail: the template around its placeholder, and a list
    with its title. *)
Definition bodyHead : string := fst (cut "{list_placeholder}" emailTemplate).
Definition bodyTail : string := snd (cut "{list_placeholder}" emailTemplate).

Definition section (title items : string) : string :=
  let (head, rest) := cut "{title_list}" listTemplate in
  let (middle, tail) := cut "{list_items}" rest in
  head +:+ title +:+ middle +:+ items +:+ tail.

Definition itemsOf (events : list Event) : string :=
  String.concat "" (listItem <$> events).

Definition changedTitle : string := "Geänderte Kalendereinträge".
Definition upcomingTitle : string := "Einträge für die nächste 60 Tage".


(** ** Dates and digits: what the calendar lemmas are checked on *)

(** Whether [P] holds for the [n] integers from [z] on. *)
Fixpoint allFrom (P : Z -> bool) (z : Z) (n : nat) : bool :=
  match n with
  | O => true
  | S n' => P z && allFrom P (z + 1) n'
  end.

(** A date of the years 0..399 is found again in its number of days. *)
Definition dateFoundAgain (y m d : Z) : bool :=
  (GoTime.daysIn m y <? d)
  || (let '(y', m', d') := GoTime.civilFromDays (GoTime.daysFromCivil y m d) in
      (y' =? y) && (m' =? m) && (d' =? d)).

Definition isDigitChar (c : ascii) : bool := (48 <=? byteOf c) && (byteOf c <=? 57).

(** The date a text of eight digits spells in the layout 20060102. *)
Definition yearOf (a b c d : ascii) : Z :=
  ((GoTime.digitVal a * 10 + GoTime.digitVal b) * 10 + GoTime.digitVal c) * 10
  + GoTime.digitVal d.
Definition twoDigits (a b : ascii) : Z := GoTime.digitVal a * 10 + GoTime.digitVal b.

Definition fourDigitsOf (n : Z) : list ascii :=
  [charOf (48 + n / 1000); charOf (48 + n / 100 mod 10);
   charOf (48 + n / 10 mod 10); charOf (48 + n mod 10)].
Definition twoDigitsOf (n : Z) : list ascii :=
  [charOf (48 + n / 10); charOf (48 + n mod 10)].

Definition sameText (a b : list ascii) : bool := bool_decide (a = b).

(** Every row of the table has a date that [json.Marshal] accepts. *)
Definition rowsMarshal (t : gmap string Item) : Prop :=
  forall k it, t !! k = Some it -> marshalsEvent (mkEvent (itemDate it) (itemDesc it)) = true.

(** A run in which the mail server refuses the mail. *)
Definition refusingEnv (today : Time) : Env :=
  mkEnv false (Some (Some "<html></html>"%string)) (fun _ => Some samplePage)
        today today MailRefused.

(** Text nodes are leaves, as in every document of the parser. *)
Definition textLeaves (n : Node) : Prop :=
  forall c, c ∈ preorder n -> nodeType c = TextNode -> nodeChildren c = [].

Definition isText (n : Node) : bool :=
  match nodeType n with TextNode => true | _ => false end.

(** ** A snapshot beyond the first page of a scan

    Two rows that the page no longer shows; of a scan of this table the
    service returns the first of them only. *)
Definition staleEarly : Event := mkEvent day20250310 "Elternabend 18:00 Uhr".
Definition staleLate : Event := mkEvent day20250405 "Sommerfest".

Definition pagedStore : Dynamo :=
  mkDynamo {[ theKey staleEarly := itemOf staleEarly; theKey staleLate := itemOf staleLate ]}
           [] [] (fun _ k => bool_decide (k = theKey staleEarly)).

(** A snapshot with a row that cannot be decoded: its [eventDate] is not a
    time. *)
Definition unreadableStore : Dynamo :=
  mkDynamo {[ "20250310_0644d0d5"%string :=
                mkItem 0 "Elternabend 18:00 Uhr"
                  "0644d0d594a9628f22200ffbead04dca0b8f80f506166b39dd69ecf41aac38c1"
                  false ]}
           [] [] onePage.

(** * Checks of the library models against known values *)

Example sha256_empty :
  generateChecksum "" = "e3b0c44298fc1c149afbf4c8996fb92427ae41e4649b934ca495991b7852b855"%string.
Proof. vm_compute. reflexivity. Qed.

Example sha256_abc :
  generateChecksum "abc" = "ba7816bf8f01cfea414140de5dae2223b00361a396177a9cb410ff61f20015ad"%string.
Proof. vm_compute. reflexivity. Qed.

Example sha256_two_blocks :
  generateChecksum "abcdbcdecdefdefgefghfghighijhijkijkljklmklmnlmnomnopnopq"
  = "248d6a61d20638b8e5c026930c3e6039a33ce45964ff2167f6ecedd419db06c1"%string.
Proof. vm_compute. reflexivity. Qed.

Example parse_20250310 :
  GoTime.Parse "20250310" = Some (1741564800 * GoTime.nanosPerSecond).
Proof. vm_compute. reflexivity. Qed.

Example parse_rejects :
  GoTime.Parse "20250230" = None /\ GoTime.Parse "2025031" = None /\
  GoTime.Parse "20251301" = None /\ GoTime.Parse "2025-3-1" = None /\
  GoTime.Parse "20240229" <> None /\ GoTime.Parse "+0250310" = None.
Proof. vm_compute. repeat split; congruence. Qed.

Example format_20250310 :
  GoTime.Format (1741564800 * GoTime.nanosPerSecond + 5) = "20250310"%string /\
  GoTime.Format (GoTime.Date 7 1 2 0) = "00070102"%string /\
  GoTime.Format (GoTime.Date 12345 12 31 0) = "123451231"%string /\
  GoTime.Format (GoTime.Date (-1) 3 1 0) = "-00010301"%string.
Proof. vm_compute. repeat split. Qed.

Example weekday_20250310 :
  GoTime.Weekday (1741564800 * GoTime.nanosPerSecond) = 1 /\
  GoTime.Weekday (GoTime.Date 2025 3 14 0) = GoTime.Friday /\
  GoTime.AddDate 0 0 60 (GoTime.Date 2025 3 10 7) = GoTime.Date 2025 5 9 7 /\
  GoTime.AddDate 0 11 0 (GoTime.Date 2025 3 10 7) = GoTime.Date 2026 2 10 7.
Proof. vm_compute. repeat split. Qed.

Example enDash_literal :
  list_ascii_of_string " – " = spacedEnDash /\
  Utf8.DecodeRune (list_ascii_of_string "–") = (8211, 3%nat).
Proof. vm_compute. split; reflexivity. Qed.

Example cleanText_examples :
  cleanText "  Elternabend
	 18:00   Uhr  " = "Elternabend 18:00 Uhr"%string /\
  cleanText "9:00 – 12:00" = "9:00 - 12:00"%string /\
  cleanText "" = ""%string /\
  cleanText "   " = ""%string.
Proof. vm_compute. repeat split; reflexivity. Qed.

(** * The calendar *)

Section Calendar.

Local Ltac divs := Z.div_mod_to_equations; lia.

Lemma civil_bounds (doe : Z) :
  0 <= doe < 146097 ->
  let yoe := (doe - doe / 1460 + doe / 36524 - doe / 146096) / 365 in
  let doy := doe - (365 * yoe + yoe / 4 - yoe / 100) in
  let mp := (5 * doy + 2) / 153 in
  0 <= yoe < 400 /\ 0 <= doy < 366 /\ 0 <= mp < 12.
Proof. intros H yoe doy mp. subst mp doy yoe. repeat split; divs. Qed.

(** The month of a date is one of the twelve. *)
Lemma civilFromDays_month (z : Z) :
  1 <= snd (fst (GoTime.civilFromDays z)) <= 12.
Proof.
  unfold GoTime.civilFromDays. cbn [fst snd].
  set (doe := z + 719468 - (z + 719468) / 146097 * 146097).
  assert (Hdoe : 0 <= doe < 146097) by (subst doe; divs).
  destruct (civil_bounds doe Hdoe) as (_ & _ & Hmp).
  destruct (Z.ltb_spec ((5 * (doe - (365 * ((doe - doe / 1460 + doe / 36524 - doe / 146096) / 365)
    + (doe - doe / 1460 + doe / 36524 - doe / 146096) / 365 / 4
    - (doe - doe / 1460 + doe / 36524 - doe / 146096) / 365 / 100)) + 2) / 153) 10); lia.
Qed.

(** Reading a day number as a date and counting the days of that date
    gives the day number back. *)
Lemma daysFromCivil_civilFromDays (z : Z) :
  let '(y, m, d) := GoTime.civilFromDays z in GoTime.daysFromCivil y m d = z.
Proof.
  unfold GoTime.civilFromDays.
  set (era := (z + 719468) / 146097).
  set (doe := z + 719468 - era * 146097).
  assert (Hdoe : 0 <= doe < 146097) by (subst doe era; divs).
  destruct (civil_bounds doe Hdoe) as (Hyoe & Hdoy & Hmp).
  set (yoe := (doe - doe / 1460 + doe / 36524 - doe / 146096) / 365) in *.
  set (doy := doe - (365 * yoe + yoe / 4 - yoe / 100)) in *.
  set (mp := (5 * doy + 2) / 153) in *.
  unfold GoTime.daysFromCivil.
  assert (Hera : (yoe + era * 400) / 400 = era) by divs.
  destruct (Z.ltb_spec mp 10) as [Hlt | Hge].
  - destruct (Z.leb_spec (mp + 3) 2) as [? | _]; [lia |].
    destruct (Z.ltb_spec 2 (mp + 3)) as [_ | ?]; [| lia].
    rewrite Hera. replace (mp + 3 - 3) with mp by lia.
    replace (yoe + era * 400 - era * 400) with yoe by lia. subst doe doy. lia.
  - destruct (Z.leb_spec (mp - 9) 2) as [_ | ?]; [| lia].
    destruct (Z.ltb_spec 2 (mp - 9)) as [? | _]; [lia |].
    replace (yoe + era * 400 + 1 - 1) with (yoe + era * 400) by lia.
    rewrite Hera. replace (mp - 9 + 9) with mp by lia.
    replace (yoe + era * 400 - era * 400) with yoe by lia. subst doe doy. lia.
Qed.

(** In [time.Date] the day counts on linearly. *)
Lemma daysFromCivil_day (y m d k : Z) :
  GoTime.daysFromCivil y m (d + k) = GoTime.daysFromCivil y m d + k.
Proof. unfold GoTime.daysFromCivil. lia. Qed.

(** Moving an instant by [n] days moves it by [n] times 24 hours. *)
Lemma AddDate_days (n : Z) (t : Time) :
  GoTime.AddDate 0 0 n t = t + n * GoTime.nanosPerDay.
Proof.
  unfold GoTime.AddDate, GoTime.Date, GoTime.Year, GoTime.Month, GoTime.Day.
  pose proof (civilFromDays_month (GoTime.daysOf t)) as Hm.
  pose proof (daysFromCivil_civilFromDays (GoTime.daysOf t)) as Hrt.
  destruct (GoTime.civilFromDays (GoTime.daysOf t)) as [[y m] d].
  cbn [fst snd] in *.
  replace ((m - 1 + 0) / 12) with 0 by divs.
  replace ((m - 1 + 0) mod 12 + 1) with m by divs.
  rewrite daysFromCivil_day, Z.add_0_r, Z.add_0_r, Hrt.
  unfold GoTime.daysOf, GoTime.clockOf, GoTime.nanosPerDay, GoTime.nanosPerSecond.
  divs.
Qed.

End Calendar.

(** * Checksums and keys *)

Lemma hexOfBytes_length (bs : list Z) :
  String.length (hexOfBytes bs) = (2 * length bs)%nat.
Proof. induction bs as [| b bs IH]; cbn; [reflexivity | rewrite IH; lia]. Qed.

Lemma hexDigit_isHex (d : Z) : 0 <= d < 16 -> isHexDigit (hexDigit d) = true.
Proof.
  intros H.
  assert (Hd : In d [0; 1; 2; 3; 4; 5; 6; 7; 8; 9; 10; 11; 12; 13; 14; 15])
    by (cbn; lia).
  cbn in Hd.
  repeat (destruct Hd as [<- | Hd]; [reflexivity |]). destruct Hd.
Qed.

Lemma hexOfBytes_hex (bs : list Z) :
  Forall (fun c => isHexDigit c = true) (list_ascii_of_string (hexOfBytes bs)).
Proof.
  induction bs as [| b bs IH]; cbn; [constructor |].
  repeat constructor; try assumption; apply hexDigit_isHex;
    apply Z.mod_pos_bound; lia.
Qed.

Lemma bigEndian_length (n : nat) (x : Z) : length (Sha256.bigEndian n x) = n.
Proof. induction n as [| n IH]; cbn; [reflexivity | now rewrite IH]. Qed.

Lemma Sum256_length (data : list Z) : length (Sha256.Sum256 data) = 32%nat.
Proof.
  unfold Sha256.Sum256, Sha256.checkSum.
  rewrite !length_app, !bigEndian_length. reflexivity.
Qed.

Lemma generateChecksum_length (description : string) :
  String.length (generateChecksum description) = 64%nat.
Proof.
  unfold generateChecksum. rewrite hexOfBytes_length, Sum256_length. reflexivity.
Qed.

Lemma generateEventKey_checksum (date : Time) (description : string) :
  generateEventKey date (generateChecksum description)
  = Some (GoTime.Format date +:+ "_" +:+ substring 0 8 (generateChecksum description)).
Proof.
  unfold generateEventKey, sliceTo.
  rewrite generateChecksum_length. reflexivity.
Qed.

Lemma string_app_inv_head (a b c : string) : a +:+ b = a +:+ c -> b = c.
Proof. induction a as [| x a IH]; cbn; intros H; [assumption | injection H; auto]. Qed.

(** C2: the key of an event is its date in the layout YYYYMMDD, an
    underscore, and the first eight hexadecimal characters of the SHA-256
    hash of its description; it depends on the date and the description
    only, and two events of the same date whose eight-character prefixes
    differ have different keys. *)
Theorem key_is_date_and_hash_prefix (e : Event) :
  keyOf e = Some (GoTime.Format (EventDate e) +:+ "_" +:+
                  substring 0 8 (hexOfBytes (Sha256.Sum256 (bytesOf (EventDescription e)))))
  /\ (forall e' : Event,
        EventDate e' = EventDate e -> EventDescription e' = EventDescription e ->
        keyOf e' = keyOf e)
  /\ (forall e' : Event,
        EventDate e' = EventDate e ->
        substring 0 8 (generateChecksum (EventDescription e'))
          <> substring 0 8 (generateChecksum (EventDescription e)) ->
        keyOf e' <> keyOf e).
Proof.
  split; [apply generateEventKey_checksum |].
  split.
  - intros e' Hd Hs. unfold keyOf. now rewrite Hd, Hs.
  - intros e' Hd Hp. unfold keyOf. rewrite !generateEventKey_checksum, Hd.
    intros H. injection H as H.
    apply string_app_inv_head in H. apply (string_app_inv_head "_") in H.
    contradiction.
Qed.

Example key_of_elternabend :
  keyOf (mkEvent (GoTime.Date 2025 3 10 0) "Elternabend 18:00 Uhr")
  = Some "20250310_0644d0d5"%string.
Proof. vm_compute. reflexivity. Qed.

(** * The differ *)

Lemma keyOf_theKey (e : Event) : keyOf e = Some (theKey e).
Proof. apply generateEventKey_checksum. Qed.

Lemma replay_app (a b : list (Request * bool)) (t : gmap string Item) :
  replay (a ++ b) t = replay b (replay a t).
Proof. apply fold_left_app. Qed.

Lemma outcomes_app (a b : nat) (fs : list bool) :
  outcomes (a + b) fs = outcomes a fs ++ outcomes b (drop a fs).
Proof.
  revert fs. induction a as [| a IH]; intros fs; [now rewrite drop_0 |].
  destruct fs as [| f fs]; cbn; rewrite IH; [now rewrite drop_nil | reflexivity].
Qed.

Lemma traced_ret {A} (a : A) : traced (ret a).
Proof.
  intros st. exists []. cbn. rewrite app_nil_r, drop_0. repeat split. constructor.
Qed.

Lemma traced_bind {A B} (m : Run A) (k : A -> Run B) :
  traced m -> (forall a, traced (k a)) -> traced (x <- m ;; k x).
Proof.
  intros Hm Hk st. unfold bind.
  destruct (Hm st) as (made & Htr & Hout & Hfl & Htb & Hres).
  destruct (m st) as [[err | a] st1]; cbn in *.
  - exists made. auto 6.
  - destruct (Hk a st1) as (made' & Htr' & Hout' & Hfl' & Htb' & Hres').
    exists (made ++ made').
    rewrite Htr', Htr, Htb', Htb, replay_app, app_assoc, Hfl', Hfl, drop_drop.
    rewrite fmap_app, length_app, outcomes_app, <- Hfl, Hout, Hout'.
    repeat split.
    destruct (fst (k a st1)) as [err |].
    + destruct Hres' as (before & rq & -> & Hb & ->).
      exists (made ++ before), rq. rewrite app_assoc. repeat split.
      apply Forall_app; auto.
    + apply Forall_app; auto.
Qed.

Lemma traced_request {A} (rq : Request) (answer : gmap string Item -> A) :
  traced (request rq answer).
Proof.
  intros st. unfold request.
  destruct (failures st) as [| [] rest]; cbn.
  - exists [(rq, true)]. repeat split. repeat constructor.
  - exists [(rq, false)]. repeat split. exists [], rq. repeat split. constructor.
  - exists [(rq, true)]. repeat split. repeat constructor.
Qed.


Lemma traced_processCurrent existingMap now cutoff events acc :
  traced (processCurrent existingMap now cutoff events acc).
Proof.
  revert acc. induction events as [| e events IH]; intros acc; cbn [processCurrent].
  - apply traced_ret.
  - rewrite generateEventKey_checksum.
    apply traced_bind; [| intros; apply IH].
    destruct (existingMap !! _).
    + apply traced_ret.
    + apply traced_bind; [apply traced_request | intros; apply traced_ret].
Qed.

Lemma traced_processDeleted seen existing deleted :
  traced (processDeleted seen existing deleted).
Proof.
  revert deleted. induction existing as [| e existing IH]; intros deleted;
    cbn [processDeleted].
  - apply traced_ret.
  - case_bool_decide; [apply IH |].
    apply traced_bind; [apply traced_request | intros; apply IH].
Qed.

Lemma traced_differ now events (existingEvents : list DynamoDBEvent) :
  traced (cur <- processCurrent
                   (fold_left (fun m e => <[EventKey e := e]> m) existingEvents ∅)
                   now (GoTime.AddDate 0 0 60 now) events (mkCurrent ∅ [] []) ;;
          deleted <- processDeleted (currentMap cur) existingEvents [] ;;
          ret (mkChangeReport (length deleted) deleted
                              (length (added cur)) (added cur)
                              (sortByDate (upcoming cur)))).
Proof.
  apply traced_bind; [apply traced_processCurrent | intros cur].
  apply traced_bind; [apply traced_processDeleted | intros; apply traced_ret].
Qed.

Lemma bind_unfold {A B} (m : Run A) (k : A -> Run B) (st : Dynamo) :
  (x <- m ;; k x) st
  = match m st with
    | (inl e, st') => (inl e, st')
    | (inr a, st') => k a st'
    end.
Proof. reflexivity. Qed.

(** The three ways in which [getAllEvents] ends. *)
Lemma getAllEvents_cases (st : Dynamo) :
  getAllEvents st
  = match failures st with
    | true :: rest =>
        (inl ErrGettingExisting,
         mkDynamo (table st) rest (trace st ++ [(Scan, false)]) (onFirstPage st))
    | _ =>
        (if decodable (firstPageOf st) then inr (rowsOf (firstPageOf st))
         else inl ErrGettingExisting,
         mkDynamo (table st) (tail (failures st)) (trace st ++ [(Scan, true)])
                  (onFirstPage st))
    end.
Proof.
  unfold getAllEvents, bind, request. fold (firstPageOf st).
  destruct (failures st) as [| [] rest]; cbn [applyRequest];
    try reflexivity; now destruct (decodable (firstPageOf st)).
Qed.

Lemma traced_processEvents now events st : tracedRun st (processEvents now events st).
Proof.
  unfold tracedRun, processEvents. rewrite bind_unfold, getAllEvents_cases.
  destruct (failures st) as [| [] rest] eqn:Hfl.
  2: { exists [(Scan, false)]. cbn. repeat split. left. exists [], Scan.
       repeat split. constructor. }
  all: destruct (decodable (firstPageOf st)) eqn:Hdec;
    [| exists [(Scan, true)]; cbn; repeat split; right; repeat split ].
  all: set (st1 := mkDynamo _ _ _ _);
    destruct (traced_differ now events (rowsOf (firstPageOf st)) st1)
      as (made & Htr & Hout & Hfl' & Htb & Hres);
    cbv zeta in *;
    match type of Htr with
    | trace (snd ?o) = _ => destruct o as [res st']
    end; cbn [fst snd] in *;
    exists ((Scan, true) :: made); subst st1; cbn [trace failures table tail] in *;
    rewrite Htr, Hfl', Htb, <- app_assoc; cbn [fmap list_fmap length outcomes snd negb
      app replay fold_left fst applyRequest drop];
    rewrite Hout; fold (replay made (table st));
    (repeat split; try reflexivity; try apply drop_nil);
    destruct res as [err |];
      [ left; destruct Hres as (before & rq & -> & Hb & ->);
        exists ((Scan, true) :: before), rq; repeat split; now constructor
      | split; [now constructor | reflexivity] ].
Qed.

(** C10: the checksum of every description has 64 characters, all of them
    hexadecimal digits, so that the slice of its first eight characters
    inside [generateEventKey] is in range: the key of every date and
    description exists, and no run of [processEvents] ends with the panic
    of a slice out of range. *)
Theorem checksum_is_hex64_key_never_panics (description : string) :
  String.length (generateChecksum description) = 64%nat /\
  Forall (fun c => isHexDigit c = true)
         (list_ascii_of_string (generateChecksum description)) /\
  (forall date : Time,
     is_Some (generateEventKey date (generateChecksum description))) /\
  (forall (now : Time) (events : list Event) (st : Dynamo),
     fst (processEvents now events st) <> inl PanicSliceBounds).
Proof.
  split; [apply generateChecksum_length |].
  split; [apply hexOfBytes_hex |].
  split.
  - intros date. rewrite generateEventKey_checksum. eexists; reflexivity.
  - intros now events st.
    destruct (traced_processEvents now events st) as (made & _ & _ & _ & _ & Hres).
    destruct (fst (processEvents now events st)) as [err |]; [| discriminate].
    destruct Hres as [(before & rq & _ & _ & ->) | (_ & _ & ->)];
      [destruct rq |]; discriminate.
Qed.


(** ** What a successful run computes *)

Lemma request_ok {A} rq (ans : gmap string Item -> A) st a st' :
  request rq ans st = (inr a, st') ->
  a = ans (table st) /\ table st' = applyRequest rq (table st).
Proof.
  unfold request. destruct (failures st) as [| [] rest]; intros H; inversion H; auto.
Qed.

Lemma firstPageOf_lookup (st : Dynamo) (k : string) (it : Item) :
  firstPageOf st !! k = Some it -> table st !! k = Some it.
Proof. unfold firstPageOf, firstPage. now intros [H _] % map_lookup_filter_Some. Qed.

Lemma firstPageOf_dom (st : Dynamo) : dom (firstPageOf st) ⊆ dom (table st).
Proof.
  intros k [it Hit] % elem_of_dom. apply elem_of_dom. exists it.
  now apply firstPageOf_lookup.
Qed.

Lemma bind_ok {A B} (m : Run A) (k : A -> Run B) st b st' :
  (x <- m ;; k x) st = (inr b, st') ->
  exists a st1, m st = (inr a, st1) /\ k a st1 = (inr b, st').
Proof.
  unfold bind. destruct (m st) as [[err | a] st1]; intros H; [discriminate | eauto].
Qed.

(** A successful [getAllEvents]: the rows of the first page, all decoded;
    the table is as it was. *)
Lemma getAllEvents_ok st rows st' :
  getAllEvents st = (inr rows, st') ->
  rows = rowsOf (firstPageOf st) /\ decodable (firstPageOf st) = true /\
  table st' = table st.
Proof.
  unfold getAllEvents. intros H. apply bind_ok in H as (items & st1 & Hscan & H).
  apply request_ok in Hscan as [-> Htb]. cbn [applyRequest] in Htb.
  fold (firstPageOf st) in H.
  destruct (decodable (firstPageOf st)); [| discriminate].
  inversion H; subst. auto.
Qed.

(** Membership in the sets of keys the differ builds, taken apart. *)
Ltac keysets :=
  apply set_eq; intros ?k;
  rewrite ?elem_of_union, ?elem_of_difference, ?elem_of_union,
    ?elem_of_list_to_set, ?list_elem_of_fmap, ?elem_of_singleton,
    ?elem_of_empty.

Lemma keys_cons (e : Event) (events : list Event) :
  list_to_set (C := gset string) (theKey <$> e :: events)
  = {[theKey e]} ∪ list_to_set (theKey <$> events).
Proof. reflexivity. Qed.

Lemma processCurrent_ok existingMap now cutoff events acc st cur st' :
  processCurrent existingMap now cutoff events acc st = (inr cur, st') ->
  currentMap cur = list_to_set (theKey <$> events) ∪ currentMap acc /\
  upcoming cur = upcoming acc ++ List.filter (inWindow now cutoff) events /\
  added cur = added acc ++ List.filter (isNew existingMap) events /\
  dom (table st') = dom (table st) ∪ (list_to_set (theKey <$> events) ∖ dom existingMap).
Proof.
  revert acc st. induction events as [| e events IH]; intros acc st; cbn [processCurrent].
  - intros H. inversion H; subst. cbn. rewrite !app_nil_r.
    repeat split; keysets; tauto.
  - rewrite generateEventKey_checksum. fold (theKey e).
    intros H. apply bind_ok in H as (added' & st1 & Hput & H).
    apply IH in H as (Hcur & Hup & Hadd & Hdom). cbn in Hcur, Hup, Hadd.
    fold (inWindow now cutoff e) in Hup.
    assert (Hstep : added' = added acc ++ List.filter (isNew existingMap) [e] /\
                    dom (table st1) = dom (table st) ∪ ({[theKey e]} ∖ dom existingMap)).
    { cbn. unfold isNew. destruct (existingMap !! theKey e) as [old |] eqn:Hlook.
      - inversion Hput; subst. rewrite bool_decide_eq_false_2 by congruence.
        rewrite app_nil_r. split; [reflexivity |].
        apply elem_of_dom_2 in Hlook. keysets. intuition congruence.
      - apply bind_ok in Hput as ([] & st2 & Hreq & Hret).
        inversion Hret; subst. apply request_ok in Hreq as [_ Htb]. cbn [applyRequest] in Htb.
        rewrite bool_decide_eq_true_2 by reflexivity. split; [reflexivity |].
        rewrite Htb. cbn. rewrite dom_insert_L.
        apply not_elem_of_dom in Hlook. keysets. intuition congruence. }
    destruct Hstep as [-> Hdom1].
    rewrite Hcur, Hup, Hadd, Hdom, Hdom1, keys_cons. cbn [List.filter].
    repeat split.
    + keysets. tauto.
    + destruct (inWindow now cutoff e); cbn; [rewrite <- app_assoc |]; reflexivity.
    + cbn. destruct (isNew existingMap e); cbn;
        [rewrite <- app_assoc | rewrite app_nil_r]; reflexivity.
    + keysets. tauto.
Qed.

Lemma processDeleted_ok seen existing deleted st del st' :
  processDeleted seen existing deleted st = (inr del, st') ->
  dom (table st') = dom (table st) ∖ (list_to_set (EventKey <$> existing) ∖ seen) /\
  del = deleted ++
        (eventOfRow <$> List.filter (fun r => negb (bool_decide (EventKey r ∈ seen))) existing).
Proof.
  revert deleted st. induction existing as [| r existing IH]; intros deleted st;
    cbn [processDeleted].
  - intros H. inversion H; subst. cbn. rewrite app_nil_r. split; [| reflexivity].
    keysets. tauto.
  - cbn [List.filter]. rewrite fmap_cons, list_to_set_cons.
    case_bool_decide as Hin; cbn [negb].
    + intros H. apply IH in H as [Hdom ->]. split; [| reflexivity].
      rewrite Hdom. keysets. intuition congruence.
    + intros H. apply bind_ok in H as ([] & st1 & Hreq & H).
      apply request_ok in Hreq as [_ Htb]. cbn [applyRequest] in Htb.
      apply IH in H as [Hdom ->]. split.
      * rewrite Hdom, Htb, dom_delete_L. keysets.
        destruct (decide (k = EventKey r)) as [-> |]; intuition (try congruence).
      * cbn. rewrite <- app_assoc. reflexivity.
Qed.

Lemma scanned_keys (t : gmap string Item) :
  list_to_set (C := gset string) (EventKey <$> rowsOf t) = dom t.
Proof.
  unfold rowsOf. rewrite <- list_fmap_compose.
  apply set_eq. intros k. rewrite elem_of_list_to_set, elem_of_dom, list_elem_of_fmap.
  split.
  - intros ([k' it] & -> & Hin). apply elem_of_map_to_list in Hin. cbn. eauto.
  - intros [it Hit]. exists (k, it). split; [reflexivity |].
    now apply elem_of_map_to_list.
Qed.

Lemma existingMap_dom (t : gmap string Item) :
  dom (fold_left (fun (m : gmap string DynamoDBEvent) e => <[EventKey e := e]> m)
                 (rowsOf t) ∅) = dom t.
Proof.
  assert (Hgen : forall (l : list DynamoDBEvent) (m : gmap string DynamoDBEvent),
    dom (fold_left (fun (m : gmap string DynamoDBEvent) e => <[EventKey e := e]> m) l m)
    = dom m ∪ list_to_set (EventKey <$> l)).
  { induction l as [| e l IH]; intros m; cbn [fold_left].
    - cbn. keysets. tauto.
    - rewrite IH, dom_insert_L, fmap_cons, list_to_set_cons. keysets. tauto. }
  rewrite Hgen, dom_empty_L, scanned_keys. keysets. tauto.
Qed.

(** A successful run: the report and the table it leaves behind, in terms
    of the first page of the scan, which is all the run knows of the
    table. *)
Lemma processEvents_ok now events st report st' :
  processEvents now events st = (inr report, st') ->
  dom (table st')
    = list_to_set (theKey <$> events) ∪ (dom (table st) ∖ dom (firstPageOf st)) /\
  UpcomingEvents report
    = sortByDate (List.filter (inWindow now (GoTime.AddDate 0 0 60 now)) events) /\
  AddedEvents report
    = List.filter (fun e => bool_decide (theKey e ∉ dom (firstPageOf st))) events /\
  DeletedEvents report
    = (eventOfRow <$>
       List.filter (fun r => negb (bool_decide
                      (EventKey r ∈ (list_to_set (theKey <$> events) : gset string))))
                   (rowsOf (firstPageOf st))) /\
  AddedCount report = length (AddedEvents report) /\
  DeletedCount report = length (DeletedEvents report).
Proof.
  unfold processEvents. intros H.
  apply bind_ok in H as (existing & st1 & Hscan & H).
  apply getAllEvents_ok in Hscan as (-> & _ & Htb1).
  apply bind_ok in H as (cur & st2 & Hcur & H).
  apply processCurrent_ok in Hcur as (Hseen & Hup & Hadd & Hdom2).
  apply bind_ok in H as (deleted & st3 & Hdel & H).
  apply processDeleted_ok in Hdel as [Hdom3 Hdeleted].
  inversion H; subst; clear H. cbn [UpcomingEvents AddedEvents DeletedEvents
    AddedCount DeletedCount app].
  assert (Hs : currentMap cur = list_to_set (theKey <$> events)).
  { rewrite Hseen. cbn [currentMap]. keysets.
    pose proof (not_elem_of_empty (C := gset string) k). tauto. }
  rewrite Hup, Hadd, Hs. cbn [added upcoming app].
  split; [| split; [reflexivity | split; [| split; [reflexivity | auto]]]].
  - rewrite Hdom3, Hdom2, Hs, existingMap_dom, scanned_keys, Htb1.
    pose proof (firstPageOf_dom st) as Hsub.
    apply set_eq. intros k. specialize (Hsub k).
    rewrite !elem_of_difference, !elem_of_union, !elem_of_difference.
    destruct (decide (k ∈ dom (firstPageOf st)));
      destruct (decide (k ∈ (list_to_set (theKey <$> events) : gset string))); tauto.
  - apply filter_ext. intros e. unfold isNew.
    apply bool_decide_ext. rewrite <- not_elem_of_dom, existingMap_dom. reflexivity.
Qed.

(** The same when the scan returned the whole table. *)
Lemma processEvents_full now events st report st' :
  fullScan st ->
  processEvents now events st = (inr report, st') ->
  dom (table st') = list_to_set (theKey <$> events) /\
  AddedEvents report
    = List.filter (fun e => bool_decide (theKey e ∉ dom (table st))) events /\
  DeletedEvents report
    = (eventOfRow <$>
       List.filter (fun r => negb (bool_decide
                      (EventKey r ∈ (list_to_set (theKey <$> events) : gset string))))
                   (rowsOf (table st))) /\
  AddedCount report = length (AddedEvents report) /\
  DeletedCount report = length (DeletedEvents report).
Proof.
  intros Hfull H. apply processEvents_ok in H as (Hdom & _ & Hadd & Hdel & Hac & Hdc).
  unfold fullScan in Hfull. rewrite Hfull in *.
  repeat split; try assumption. rewrite Hdom. apply set_eq. intros k.
  rewrite elem_of_union, elem_of_difference. tauto.
Qed.

Lemma sample_run_succeeds :
  exists report st', processEvents sampleNow sampleEvents (sampleStore []) = (inr report, st').
Proof. vm_compute. eauto. Qed.

(** C1: the keys of the table do not converge for every snapshot.
    [getAllEvents] makes one [Scan] request and reads its first page; a row
    of the snapshot that is not on that page is not known to the run, so if
    no current event has its key, the row is still there after a successful
    run, and the keys of the table are not those of the current events. *)
Theorem unseen_stale_row_survives (now : Time) (events : list Event) (st st' : Dynamo)
    (report : ChangeReport) (k : string) :
  processEvents now events st = (inr report, st') ->
  k ∈ dom (table st) ->
  k ∉ dom (firstPageOf st) ->
  (forall e, e ∈ events -> keyOf e <> Some k) ->
  k ∈ dom (table st') /\
  ~ (forall k' : string,
       k' ∈ dom (table st') <-> exists e, e ∈ events /\ keyOf e = Some k').
Proof.
  intros H Hk Hpage Hstale. apply processEvents_ok in H as (Hdom & _).
  assert (Hin : k ∈ dom (table st')).
  { rewrite Hdom, elem_of_union, elem_of_difference. tauto. }
  split; [assumption |]. intros Hconv. apply Hconv in Hin as (e & He & Hkey).
  exact (Hstale e He Hkey).
Qed.

Lemma unseen_stale_row_survives_witness :
  let out := processEvents sampleNow sampleEvents pagedStore in
  exists report, fst out = inr report /\
    DeletedEvents report = [staleEarly] /\
    theKey staleLate ∈ dom (table (snd out)) /\
    ~ (forall k' : string,
         k' ∈ dom (table (snd out))
         <-> exists e, e ∈ sampleEvents /\ keyOf e = Some k').
Proof.
  cbv zeta.
  destruct (processEvents sampleNow sampleEvents pagedStore) as [[err | report] st']
    eqn:Hrun.
  - exfalso. vm_compute in Hrun. discriminate Hrun.
  - exists report. split; [reflexivity |]. split.
    + vm_compute in Hrun. injection Hrun as <- _. reflexivity.
    + apply (unseen_stale_row_survives _ _ _ _ _ _ Hrun).
      * vm_compute. reflexivity.
      * vm_compute. discriminate.
      * intros e He. apply list_elem_of_In in He. cbn in He.
        destruct He as [<- | [<- | [<- | []]]]; vm_compute; discriminate.
Defined.

(** X18. When the scan returns the whole table (the table fits its first
    page), the keys of the table after a successful run of [processEvents]
    are exactly the keys derived from the current events: the key of every
    current event is present, and no other key is left. *)
Theorem store_keys_converge (now : Time) (events : list Event) (st st' : Dynamo)
    (report : ChangeReport) :
  fullScan st ->
  processEvents now events st = (inr report, st') ->
  forall k : string,
    k ∈ dom (table st') <-> exists e, e ∈ events /\ keyOf e = Some k.
Proof.
  intros Hfull H k. apply (processEvents_full _ _ _ _ _ Hfull) in H as (Hdom & _).
  rewrite Hdom, elem_of_list_to_set, list_elem_of_fmap. split.
  - intros (e & -> & He). exists e. split; [assumption | apply keyOf_theKey].
  - intros (e & He & Hk). exists e. rewrite keyOf_theKey in Hk. split; congruence.
Qed.

Lemma fullScan_sampleStore (failures : list bool) : fullScan (sampleStore failures).
Proof. vm_compute. reflexivity. Qed.

Lemma store_keys_converge_witness :
  let out := processEvents sampleNow sampleEvents (sampleStore []) in
  exists report, fst out = inr report /\
    forall k : string,
      k ∈ dom (table (snd out)) <-> exists e, e ∈ sampleEvents /\ keyOf e = Some k.
Proof.
  cbv zeta.
  destruct (processEvents sampleNow sampleEvents (sampleStore [])) as [[err | report] st']
    eqn:Hrun.
  - exfalso. vm_compute in Hrun. discriminate Hrun.
  - exists report. split; [reflexivity |].
    exact (store_keys_converge _ _ _ _ _ (fullScan_sampleStore []) Hrun).
Defined.

(** ** The window of upcoming events *)

Lemma elem_of_sortByDate (e : Event) (l : list Event) : e ∈ sortByDate l <-> e ∈ l.
Proof. unfold sortByDate. now rewrite merge_sort_Permutation. Qed.

Lemma upcoming_iff now events st report st' (e : Event) :
  processEvents now events st = (inr report, st') ->
  e ∈ UpcomingEvents report
  <-> e ∈ events /\ now < EventDate e < GoTime.AddDate 0 0 60 now.
Proof.
  intros H. apply processEvents_ok in H as (_ & -> & _).
  rewrite elem_of_sortByDate, !list_elem_of_In, filter_In.
  unfold inWindow, GoTime.After, GoTime.Before.
  rewrite andb_true_iff, !Z.ltb_lt. tauto.
Qed.

(** C4: the filter of the upcoming events is strict at both ends. With the
    run-start time [now] and [cutoff] 60 days after it: an event of the
    current extraction is among the upcoming events exactly if its date is
    after [now] and before [cutoff]; so an event dated [now] or [cutoff] is
    left out, and an event dated one second after [now] or one second before
    [cutoff] is included. *)
Theorem upcoming_window_is_strict (now : Time) (events : list Event) (st st' : Dynamo)
    (report : ChangeReport) :
  processEvents now events st = (inr report, st') ->
  let cutoff := GoTime.AddDate 0 0 60 now in
  cutoff = now + 60 * GoTime.nanosPerDay /\
  forall e : Event, e ∈ events ->
    (e ∈ UpcomingEvents report <-> now < EventDate e < cutoff) /\
    (EventDate e = now -> e ∉ UpcomingEvents report) /\
    (EventDate e = cutoff -> e ∉ UpcomingEvents report) /\
    (EventDate e = now + GoTime.nanosPerSecond -> e ∈ UpcomingEvents report) /\
    (EventDate e = cutoff - GoTime.nanosPerSecond -> e ∈ UpcomingEvents report).
Proof.
  intros H cutoff.
  assert (Hcut : cutoff = now + 60 * GoTime.nanosPerDay) by apply AddDate_days.
  split; [assumption |]. intros e He.
  pose proof (upcoming_iff now events st report st' e H) as Hup.
  fold cutoff in Hup.
  unfold GoTime.nanosPerDay, GoTime.nanosPerSecond in *.
  split; [| split; [| split; [| split]]].
  - rewrite Hup. tauto.
  - intros Hd Hin. apply Hup in Hin. lia.
  - intros Hd Hin. apply Hup in Hin. lia.
  - intros Hd. apply Hup. split; [assumption | lia].
  - intros Hd. apply Hup. split; [assumption | lia].
Qed.

Lemma upcoming_window_is_strict_witness :
  let out := processEvents sampleNow (boundaryEvents sampleNow) (sampleStore []) in
  exists report, fst out = inr report /\
    UpcomingEvents report
    = [ mkEvent (sampleNow + GoTime.nanosPerSecond) "one second after now";
        mkEvent (GoTime.AddDate 0 0 60 sampleNow - GoTime.nanosPerSecond)
                "one second before the cutoff" ] /\
    let cutoff := GoTime.AddDate 0 0 60 sampleNow in
    cutoff = sampleNow + 60 * GoTime.nanosPerDay /\
    forall e : Event, e ∈ boundaryEvents sampleNow ->
      (e ∈ UpcomingEvents report <-> sampleNow < EventDate e < cutoff) /\
      (EventDate e = sampleNow -> e ∉ UpcomingEvents report) /\
      (EventDate e = cutoff -> e ∉ UpcomingEvents report) /\
      (EventDate e = sampleNow + GoTime.nanosPerSecond -> e ∈ UpcomingEvents report) /\
      (EventDate e = cutoff - GoTime.nanosPerSecond -> e ∈ UpcomingEvents report).
Proof.
  cbv zeta.
  destruct (processEvents sampleNow (boundaryEvents sampleNow) (sampleStore []))
    as [[err | report] st'] eqn:Hrun.
  - exfalso. vm_compute in Hrun. discriminate Hrun.
  - exists report. split; [reflexivity |]. split.
    + vm_compute in Hrun. injection Hrun as <- _. vm_compute. reflexivity.
    + exact (upcoming_window_is_strict _ _ _ _ _ Hrun).
Defined.

(** ** Duplicates *)

Lemma one_row_per_key (t : gmap string Item) (k : string) :
  k ∈ dom t ->
  length (List.filter (fun row => bool_decide (EventKey row = k)) (rowsOf t)) = 1%nat.
Proof.
  unfold rowsOf. intros Hk.
  pose proof (NoDup_fst_map_to_list t) as Hnd.
  apply elem_of_dom in Hk as [it Hit]. apply elem_of_map_to_list in Hit.
  induction (map_to_list t) as [| [k' it'] l IH]; [inversion Hit |].
  cbn in Hnd. apply NoDup_cons in Hnd as [Hnotin Hnd].
  cbn [fmap list_fmap List.filter EventKey fst].
  apply elem_of_cons in Hit as [Heq | Hin].
  - inversion Heq; subst. rewrite bool_decide_eq_true_2 by reflexivity. cbn. f_equal.
    clear IH Hnd. induction l as [| [k2 it2] l IHl]; [reflexivity |].
    cbn [fmap list_fmap List.filter EventKey fst].
    cbn in Hnotin. apply not_elem_of_cons in Hnotin as [Hne Hnotin].
    rewrite bool_decide_eq_false_2 by congruence. auto.
  - rewrite bool_decide_eq_false_2; [auto |].
    intros ->. apply Hnotin. apply list_elem_of_fmap. exists (k, it). auto.
Qed.

(** C7: two events of the current extraction with the same date and the same
    description have the same key, and after a successful run the table
    holds exactly one row of that key. *)
Theorem duplicates_collapse_in_store (now : Time) (events : list Event)
    (st st' : Dynamo) (report : ChangeReport) (i j : nat) (e1 e2 : Event) :
  processEvents now events st = (inr report, st') ->
  events !! i = Some e1 -> events !! j = Some e2 -> i <> j ->
  EventDate e1 = EventDate e2 -> EventDescription e1 = EventDescription e2 ->
  keyOf e1 = keyOf e2 /\
  exists k : string,
    keyOf e1 = Some k /\
    length (List.filter (fun row => bool_decide (EventKey row = k)) (rowsOf (table st')))
    = 1%nat.
Proof.
  intros H H1 H2 _ Hd Hs. split.
  - unfold keyOf. now rewrite Hd, Hs.
  - exists (theKey e1). split; [apply keyOf_theKey |].
    apply one_row_per_key. apply processEvents_ok in H as (-> & _).
    apply elem_of_union. left.
    apply elem_of_list_to_set, list_elem_of_fmap. exists e1. split; [reflexivity |].
    eapply list_elem_of_lookup_2; eassumption.
Qed.

Lemma duplicates_collapse_in_store_witness :
  let out := processEvents sampleNow sampleEvents (sampleStore []) in
  exists report, fst out = inr report /\
    AddedCount report = 3%nat /\
    keyOf (mkEvent day20250405 "Schulfest") = keyOf (mkEvent day20250405 "Schulfest") /\
    exists k : string,
      keyOf (mkEvent day20250405 "Schulfest") = Some k /\
      length (List.filter (fun row => bool_decide (EventKey row = k))
                          (rowsOf (table (snd out)))) = 1%nat.
Proof.
  cbv zeta.
  destruct (processEvents sampleNow sampleEvents (sampleStore [])) as [[err | report] st']
    eqn:Hrun.
  - exfalso. vm_compute in Hrun. discriminate Hrun.
  - exists report. split; [reflexivity |]. split.
    + vm_compute in Hrun. injection Hrun as <- _. reflexivity.
    + apply (duplicates_collapse_in_store _ _ _ _ _ 1%nat 2%nat _ _ Hrun);
        first [reflexivity | discriminate].
Defined.

(** ** The report, and a second run *)

#[local] Instance notAfter_total : Total notAfter.
Proof. intros a b. unfold notAfter. lia. Qed.

(** X3. The report of a successful run, in terms of the rows the scan
    returned (the first page of the snapshot): the added events are the
    current events whose key is not among these rows, in the order of the
    extraction; the deleted events are those of these rows whose key no
    current event has, in the order of the scan; the counts are the lengths
    of the two lists; and the upcoming events are sorted by date. *)
Theorem report_of_successful_run (now : Time) (events : list Event) (st st' : Dynamo)
    (report : ChangeReport) :
  processEvents now events st = (inr report, st') ->
  AddedEvents report
    = List.filter (fun e => bool_decide (theKey e ∉ dom (firstPageOf st))) events /\
  DeletedEvents report
    = (eventOfRow <$>
       List.filter (fun r => negb (bool_decide
                      (EventKey r ∈ (list_to_set (theKey <$> events) : gset string))))
                   (rowsOf (firstPageOf st))) /\
  AddedCount report = length (AddedEvents report) /\
  DeletedCount report = length (DeletedEvents report) /\
  Sorted notAfter (UpcomingEvents report).
Proof.
  intros H. apply processEvents_ok in H as (_ & Hup & Hadd & Hdel & Hac & Hdc).
  repeat split; try assumption.
  rewrite Hup. apply Sorted_merge_sort. apply _.
Qed.

Lemma report_of_successful_run_witness :
  let out := processEvents sampleNow sampleEvents (sampleStore []) in
  exists report, fst out = inr report /\
    AddedEvents report = sampleEvents /\
    DeletedEvents report = [mkEvent day20250310 "Elternabend 18:00 Uhr"] /\
    AddedCount report = 3%nat /\ DeletedCount report = 1%nat /\
    Sorted notAfter (UpcomingEvents report).
Proof.
  cbv zeta.
  destruct (processEvents sampleNow sampleEvents (sampleStore [])) as [[err | report] st']
    eqn:Hrun.
  - exfalso. vm_compute in Hrun. discriminate Hrun.
  - exists report.
    destruct (report_of_successful_run _ _ _ _ _ Hrun) as (_ & _ & _ & _ & Hsorted).
    vm_compute in Hrun. injection Hrun as <- _.
    repeat split; try reflexivity. exact Hsorted.
Defined.

Lemma filter_none {A} (f : A -> bool) (l : list A) :
  (forall x, x ∈ l -> f x = false) -> List.filter f l = [].
Proof.
  induction l as [| x l IH]; intros H; [reflexivity |]. cbn.
  rewrite (H x) by left. apply IH. intros y Hy. apply H. now right.
Qed.

(** X2. A second run on the same extraction, from the table the first run
    left, adds nothing and deletes nothing, provided the scan of either run
    returns the whole table. *)
Theorem second_run_changes_nothing (now now' : Time) (events : list Event)
    (st st1 st1' st2 : Dynamo) (report report' : ChangeReport) :
  fullScan st -> fullScan st1' ->
  processEvents now events st = (inr report, st1) ->
  table st1' = table st1 ->
  processEvents now' events st1' = (inr report', st2) ->
  AddedCount report' = 0%nat /\ DeletedCount report' = 0%nat /\
  dom (table st2) = dom (table st1).
Proof.
  intros Hfull1 Hfull2 H1 Htb H2.
  apply (processEvents_full _ _ _ _ _ Hfull1) in H1 as (Hdom1 & _).
  apply (processEvents_full _ _ _ _ _ Hfull2) in H2 as (Hdom2 & Hadd & Hdel & -> & ->).
  rewrite Htb, Hdom1 in Hadd. rewrite Htb in Hdel. rewrite Hdom1, Hdom2.
  split; [| split; [| reflexivity]].
  - rewrite Hadd, filter_none; [reflexivity |].
    intros e He. apply bool_decide_eq_false_2. intros Hn. apply Hn.
    apply elem_of_list_to_set, list_elem_of_fmap. eauto.
  - rewrite Hdel, filter_none; [reflexivity |].
    intros r Hr. rewrite bool_decide_eq_true_2; [reflexivity |].
    rewrite <- Hdom1, <- scanned_keys.
    apply elem_of_list_to_set, list_elem_of_fmap. eauto.
Qed.

Lemma second_run_changes_nothing_witness :
  let first := processEvents sampleNow sampleEvents (sampleStore []) in
  let second := processEvents sampleFriday sampleEvents (snd first) in
  exists report', fst second = inr report' /\
    AddedCount report' = 0%nat /\ DeletedCount report' = 0%nat /\
    dom (table (snd second)) = dom (table (snd first)).
Proof.
  cbv zeta.
  destruct (processEvents sampleNow sampleEvents (sampleStore [])) as [[err | report] st1]
    eqn:Hrun1; [exfalso; vm_compute in Hrun1; discriminate Hrun1 |].
  cbn [snd].
  assert (Hfull : fullScan st1).
  { vm_compute in Hrun1. injection Hrun1 as _ <-. vm_compute. reflexivity. }
  destruct (processEvents sampleFriday sampleEvents st1) as [[err | report'] st2] eqn:Hrun2.
  - exfalso. vm_compute in Hrun1. injection Hrun1 as _ <-.
    vm_compute in Hrun2. discriminate Hrun2.
  - exists report'. split; [reflexivity |].
    exact (second_run_changes_nothing _ _ _ _ _ _ _ _ _
             (fullScan_sampleStore []) Hfull Hrun1 eq_refl Hrun2).
Defined.

(** ** Failures of the store *)

(** C9: whatever the store answers, the requests [processEvents] makes are
    appended to the trace, each failing exactly if the service fails it, and
    the table is the old one with the effect of every request that
    succeeded, none taken back; a report is returned only if no request
    failed and the items of the scan could be decoded; if a request failed,
    it is the last one made, and the run ends with the error of that request
    and no report; and if the items of the scan could not be decoded, the
    run ends after the scan with the error of [getAllEvents] and no report,
    the table being as it was. *)
Theorem store_failure_aborts_without_rollback (now : Time) (events : list Event)
    (st : Dynamo) :
  exists made : list (Request * bool),
    trace (snd (processEvents now events st)) = trace st ++ made /\
    snd <$> made = outcomes (length made) (failures st) /\
    table (snd (processEvents now events st)) = replay made (table st) /\
    match fst (processEvents now events st) with
    | inr report =>
        Forall (fun x => snd x = true) made /\ decodable (firstPageOf st) = true
    | inl err =>
        (exists before rq,
           made = before ++ [(rq, false)] /\
           Forall (fun x => snd x = true) before /\
           err = errorOf rq /\
           table (snd (processEvents now events st)) = replay before (table st)) \/
        (made = [(Scan, true)] /\
         decodable (firstPageOf st) = false /\
         err = ErrGettingExisting /\
         table (snd (processEvents now events st)) = table st)
    end.
Proof.
  destruct (traced_processEvents now events st) as (made & Htr & Hout & _ & Htb & Hres).
  exists made. split; [assumption |]. split; [assumption |]. split; [assumption |].
  destruct (fst (processEvents now events st)) as [err | report]; [| assumption].
  destruct Hres as [(before & rq & -> & Hb & ->) | (-> & Hdec & ->)].
  - left. exists before, rq. repeat split; try assumption.
    rewrite Htb, replay_app. reflexivity.
  - right. repeat split; assumption.
Qed.

(** The second put of a run fails: the run ends with an error, and the row
    written by the first put stays in the table, beside the row that the run
    would have deleted. *)
Example failed_put_leaves_first_put :
  let out := processEvents sampleNow sampleEvents (sampleStore [false; false; true]) in
  fst out = inl ErrStoringNew /\
  dom (table (snd out)) = {[ "20250310_c8b4db77"%string; "20250310_0644d0d5"%string ]} /\
  snd <$> trace (snd out) = [true; true; false].
Proof.
  cbv zeta. split; [vm_compute; reflexivity |]. split; [| vm_compute; reflexivity].
  apply set_eq. intros k. rewrite elem_of_dom.
  vm_compute table. 
  rewrite elem_of_union, !elem_of_singleton.
  split.
  - intros [it Hit]. apply elem_of_map_to_list in Hit. vm_compute in Hit.
    apply list_elem_of_In in Hit. cbn in Hit.
    destruct Hit as [Hit | [Hit | []]]; inversion Hit; auto.
  - intros [-> | ->]; vm_compute; eauto.
Qed.

(** The scan succeeds and one of its rows cannot be decoded: the run ends
    with the error of [getAllEvents], after the scan and without a write. *)
Example undecodable_row_aborts_after_scan :
  let out := processEvents sampleNow sampleEvents unreadableStore in
  fst out = inl ErrGettingExisting /\
  trace (snd out) = [(Scan, true)] /\
  table (snd out) = table unreadableStore.
Proof. cbv zeta. repeat split; vm_compute; reflexivity. Qed.

(** * Extraction *)

Example extract_samplePage :
  traverse samplePage
  = [ mkEvent day20250310 ""; mkEvent day20250405 "Schulfest 10:00 - 14:00 Uhr" ].
Proof. vm_compute. reflexivity. Qed.

(** ** Splitting at the dash *)

Lemma Split_nonempty (s : list ascii) (sep : ascii) : Strings.Split s sep <> [].
Proof.
  induction s as [| c s IH]; cbn; [discriminate |].
  case_bool_decide; [discriminate |].
  destruct (Strings.Split s sep); [contradiction | discriminate].
Qed.

Lemma Split_no_sep (s : list ascii) (sep : ascii) :
  sep ∉ s -> Strings.Split s sep = [s].
Proof.
  induction s as [| c s IH]; intros Hs; [reflexivity |].
  apply not_elem_of_cons in Hs as [Hne Hs]. cbn.
  rewrite bool_decide_eq_false_2 by congruence. now rewrite IH.
Qed.

Lemma Split_app (p q : list ascii) (sep : ascii) :
  Strings.Split (p ++ sep :: q) sep = Strings.Split p sep ++ Strings.Split q sep.
Proof.
  induction p as [| c p IH]; cbn.
  - now rewrite bool_decide_eq_true_2.
  - case_bool_decide; [now rewrite IH |].
    rewrite IH. pose proof (Split_nonempty p sep).
    destruct (Strings.Split p sep); [contradiction | reflexivity].
Qed.

(** The parts are more than one exactly if the text has a separator, and
    then the last part is what follows the last separator. *)
Lemma Split_last (s seg : list ascii) (sep : ascii) :
  ((1 < length (Strings.Split s sep))%nat /\ List.last (Strings.Split s sep) [] = seg)
  <-> exists prefix, s = prefix ++ sep :: seg /\ sep ∉ seg.
Proof.
  split.
  - revert seg. induction s as [| c s IH]; intros seg [Hlen Hlast]; cbn in *; [lia |].
    case_bool_decide as Hc.
    + subst c. destruct (decide (sep ∈ s)) as [Hin | Hnot].
      * destruct (IH seg) as (prefix & -> & Hseg).
        { pose proof (Split_nonempty s sep). split.
          - apply list_elem_of_split in Hin as (a & b & ->).
            rewrite Split_app, length_app.
            pose proof (Split_nonempty a sep). pose proof (Split_nonempty b sep).
            destruct (Strings.Split a sep), (Strings.Split b sep); cbn; try contradiction; lia.
          - destruct (Strings.Split s sep); [contradiction | assumption]. }
        exists (sep :: prefix). auto.
      * rewrite Split_no_sep in Hlast by assumption. cbn in Hlast. subst seg.
        exists []. auto.
    + pose proof (Split_nonempty s sep) as Hne.
      destruct (Strings.Split s sep) as [| p ps] eqn:Hsp; [contradiction |].
      destruct ps as [| p' ps]; [cbn in Hlen; lia |].
      destruct (IH seg) as (prefix & -> & Hseg); [split; [cbn; lia | assumption] |].
      exists (c :: prefix). auto.
  - intros (prefix & -> & Hseg). rewrite Split_app, (Split_no_sep seg) by assumption.
    pose proof (Split_nonempty prefix sep).
    rewrite length_app, last_last. split; [| reflexivity].
    destruct (Strings.Split prefix sep); [contradiction | cbn; lia].
Qed.

(** ** The loop over the attributes *)

Lemma lookupLast_snoc (key : string) (l : list Attribute) (a : Attribute) :
  lookupLast key (l ++ [a])
  = if bool_decide (Key a = key) then Some (Val a) else lookupLast key l.
Proof.
  induction l as [| b l IH]; cbn; [now case_bool_decide |].
  rewrite IH. case_bool_decide; [reflexivity |]. reflexivity.
Qed.

Lemma scanAttrs_spec (n : Node) (l : list Attribute) :
  let sc := fold_left (scanAttr n) l (mkAttrScan false "" "") in
  (hasEventsClass sc = true <->
     exists a, a ∈ l /\ Key a = "class"%string /\ Val a = "events"%string) /\
  (hasEventsClass sc = true -> description sc = cleanText (getTextContent n)) /\
  ariaLabel sc = default ""%string (lookupLast "aria-labelledby" l).
Proof.
  induction l as [| a l IH] using rev_ind; cbn zeta.
  - cbn. split; [| split; [discriminate | reflexivity]].
    split; [discriminate |]. intros (a & Ha & _). inversion Ha.
  - rewrite fold_left_app, lookupLast_snoc. cbn [fold_left].
    cbn zeta in IH. destruct IH as (Hhas & Hdesc & Haria).
    set (sc := fold_left (scanAttr n) l (mkAttrScan false "" "")) in *.
    unfold scanAttr.
    destruct (bool_decide (Key a = "class"%string) && bool_decide (Val a = "events"%string))
      eqn:Hcls.
    + apply andb_true_iff in Hcls as [Hk Hv].
      apply bool_decide_eq_true in Hk, Hv.
      case_bool_decide as Hak; cbn.
      * congruence.
      * repeat split; auto. exists a. rewrite elem_of_app, list_elem_of_singleton. auto.
    + assert (Hno : ~ (Key a = "class"%string /\ Val a = "events"%string)).
      { intros [Hk Hv]. rewrite !bool_decide_eq_true_2 in Hcls by assumption.
        discriminate. }
      assert (Hiff : hasEventsClass sc = true <->
                exists a0, a0 ∈ l ++ [a] /\ Key a0 = "class"%string /\ Val a0 = "events"%string).
      { rewrite Hhas. split.
        - intros (b & Hb & H). exists b. rewrite elem_of_app. auto.
        - intros (b & Hb & H). apply elem_of_app in Hb as [Hb | Hb]; [eauto |].
          apply list_elem_of_singleton in Hb. subst b. tauto. }
      destruct (bool_decide (Key a = "aria-labelledby"%string)); cbn; auto.
Qed.

(** ** One node *)

Lemma nodeEvent_spec (n : Node) (e : Event) :
  nodeEvent n = Some e <->
  nodeType n = ElementNode /\ hasEventsMarker n /\
  exists v seg,
    lookupLast "aria-labelledby" (nodeAttr n) = Some v /\
    lastSegment v seg /\ length seg = 8%nat /\
    GoTime.Parse (string_of_list_ascii seg) = Some (EventDate e) /\
    EventDescription e = cleanText (getTextContent n).
Proof.
  unfold nodeEvent, hasEventsMarker, scanAttrs.
  destruct (scanAttrs_spec n (nodeAttr n)) as (Hhas & Hdesc & Haria).
  cbn zeta in Hhas, Hdesc, Haria.
  set (sc := fold_left (scanAttr n) (nodeAttr n) (mkAttrScan false "" "")) in *.
  destruct (nodeType n); try (split; [discriminate | intros [? _]; discriminate]).
  split.
  - destruct (hasEventsClass sc) eqn:Hc; cbn [andb]; [| discriminate].
    case_bool_decide as Hv; cbn [negb]; [discriminate |].
    destruct (1 <? length _)%nat eqn:Hlen; [| discriminate].
    destruct (length _ =? 8)%nat eqn:H8; [| discriminate].
    destruct (GoTime.Parse _) as [date |] eqn:Hp; [| discriminate].
    intros [= <-]. cbn [EventDate EventDescription].
    split; [reflexivity |]. split; [now apply Hhas |].
    apply Nat.ltb_lt in Hlen. apply Nat.eqb_eq in H8.
    destruct (lookupLast "aria-labelledby" (nodeAttr n)) as [v |] eqn:Hl;
      cbn in Haria; [| congruence].
    exists v, (List.last (Strings.Split (list_ascii_of_string (ariaLabel sc)) "-") []).
    split; [reflexivity |]. split.
    + rewrite <- Haria. unfold lastSegment. apply Split_last. auto.
    + auto.
  - intros (_ & Hm & v & seg & Hl & Hseg & H8 & Hp & Hd).
    apply Hhas in Hm. rewrite Hm. cbn [andb].
    rewrite Hl in Haria. cbn in Haria.
    unfold lastSegment in Hseg. rewrite <- Haria in Hseg.
    apply Split_last in Hseg as [Hlen Hlast].
    case_bool_decide as Hv; cbn [negb].
    { rewrite Hv in Hlen. cbn in Hlen. lia. }
    apply Nat.ltb_lt in Hlen. rewrite Hlen, Hlast.
    apply Nat.eqb_eq in H8. rewrite H8, Hp, (Hdesc Hm).
    destruct e; cbn in *. congruence.
Qed.

(** ** The whole document *)

Lemma traverse_preorder (n : Node) : traverse n = omap nodeEvent (preorder n).
Proof.
  induction n as [ty data attrs cs IH] using Node_forall_ind.
  cbn [traverse preorder nodeChildren omap list_omap].
  set (one := nodeEvent (mkNode ty data attrs cs)).
  assert (Hcs :
    (fix siblings (cs : list Node) : list Event :=
       match cs with [] => [] | c :: cs' => traverse c ++ siblings cs' end) cs
    = omap nodeEvent
        ((fix siblings (cs : list Node) : list Node :=
            match cs with [] => [] | c :: cs' => preorder c ++ siblings cs' end) cs)).
  { induction IH as [| c cs' Hc _ IHcs]; [reflexivity |].
    rewrite omap_app, <- Hc, <- IHcs. reflexivity. }
  rewrite Hcs. destruct one; reflexivity.
Qed.

Lemma lookupLast_Some (key v : string) (l : list Attribute) :
  lookupLast key l = Some v -> exists a, a ∈ l /\ Key a = key /\ Val a = v.
Proof.
  induction l as [| b l IH]; cbn; [discriminate |].
  destruct (lookupLast key l) as [w |].
  - intros [= ->]. destruct (IH eq_refl) as (a & Ha & H). exists a. split; [now right | auto].
  - case_bool_decide; [| discriminate]. intros [= <-]. exists b. split; [now left | auto].
Qed.

Lemma lookupLast_is_Some (key : string) (l : list Attribute) (a : Attribute) :
  a ∈ l -> Key a = key -> is_Some (lookupLast key l).
Proof.
  induction l as [| b l IH]; intros Ha Hk; [inversion Ha |]. cbn.
  destruct (lookupLast key l) as [w |] eqn:Hl; [eauto |].
  apply elem_of_cons in Ha as [<- | Ha].
  - rewrite bool_decide_eq_true_2 by assumption. eauto.
  - destruct (IH Ha Hk) as [w Hw]. discriminate.
Qed.

Lemma nodeEvent_container (n : Node) : is_Some (nodeEvent n) <-> isEventContainer n.
Proof.
  unfold isEventContainer, endsInDate. split.
  - intros [e He]. apply nodeEvent_spec in He
      as (Hty & Hm & v & seg & Hl & Hseg & H8 & Hp & _).
    split; [assumption |]. split; [assumption |].
    exists v. split; [assumption |]. exists seg. rewrite Hp. eauto.
  - intros (Hty & Hm & v & Hl & seg & Hseg & H8 & date & Hp).
    exists (mkEvent date (cleanText (getTextContent n))).
    apply nodeEvent_spec. split; [assumption |]. split; [assumption |].
    exists v, seg. auto.
Qed.

(** C5: a node is treated as an event container by [extractEvents] exactly
    if it is an element with the marker attribute class="events" and an
    attribute aria-labelledby whose value has a dash and ends in a segment
    of eight characters that parses as a date YYYYMMDD (for a node that
    repeats the attribute, its last occurrence is its value). The events of
    a document are those of its containers in document order: every other
    node is passed over, and no node makes the extraction fail. *)
Theorem event_container_rule (n : Node) :
  (is_Some (nodeEvent n) <-> isEventContainer n) /\
  (labelledOnce n ->
     (is_Some (nodeEvent n) <->
      nodeType n = ElementNode /\ hasEventsMarker n /\ carriesDateLabel n)) /\
  traverse n = omap nodeEvent (preorder n) /\
  (forall (parse : string -> option Node) (body : string),
     parse body = Some n -> extractEvents parse body = inr (traverse n)).
Proof.
  split; [apply nodeEvent_container |]. split; [| split].
  - intros Honce. rewrite nodeEvent_container. unfold isEventContainer, carriesDateLabel.
    split.
    + intros (Hty & Hm & v & Hl & Hv). split; [assumption |]. split; [assumption |].
      apply lookupLast_Some in Hl as (a & Ha & Hk & <-). eauto.
    + intros (Hty & Hm & a & Ha & Hk & Hv). split; [assumption |]. split; [assumption |].
      destruct (lookupLast_is_Some _ _ _ Ha Hk) as [v Hl].
      exists v. split; [assumption |].
      apply lookupLast_Some in Hl as (b & Hb & Hkb & <-).
      rewrite (Honce b a Hb Ha Hkb Hk). assumption.
  - apply traverse_preorder.
  - intros parse body Hp. unfold extractEvents. now rewrite Hp.
Qed.

(** C6, as the specification states it, fails: the container of
    [samplePage] without text is extracted, with the empty description. *)
Lemma empty_description_is_extracted :
  isEventContainer emptyContainer /\
  cleanText (getTextContent emptyContainer) = ""%string /\
  emptyContainer ∈ preorder samplePage /\
  mkEvent day20250310 "" ∈ traverse samplePage /\
  ~ (forall e : Event, e ∈ traverse samplePage -> EventDescription e <> ""%string).
Proof.
  assert (Hin : mkEvent day20250310 "" ∈ traverse samplePage).
  { rewrite extract_samplePage. left. }
  split; [| split; [reflexivity | split; [| split; [exact Hin |]]]].
  - apply nodeEvent_container. vm_compute. eauto.
  - cbn. do 3 right. left.
  - intros H. apply (H _ Hin). reflexivity.
Qed.

(** C6, amended: the description of every event produced by extraction is
    the normalised text content of its node, empty or not; the events of a
    document are those of its nodes, and a qualifying node is never
    discarded: it yields an event even if its normalised text is empty. *)
Theorem extracted_description_is_normalised_text (doc : Node) :
  (forall e : Event,
     e ∈ traverse doc <-> exists n, n ∈ preorder doc /\ nodeEvent n = Some e) /\
  (forall (n : Node) (e : Event),
     nodeEvent n = Some e -> EventDescription e = cleanText (getTextContent n)) /\
  (forall n : Node,
     isEventContainer n ->
     exists date, nodeEvent n = Some (mkEvent date (cleanText (getTextContent n)))).
Proof.
  split; [| split].
  - intros e. rewrite traverse_preorder, list_elem_of_omap. reflexivity.
  - intros n e He. now apply nodeEvent_spec in He as (_ & _ & v & seg & _ & _ & _ & _ & Hd).
  - intros n Hn. apply nodeEvent_container in Hn as [e He].
    pose proof He as Hspec.
    apply nodeEvent_spec in Hspec as (_ & _ & v & seg & _ & _ & _ & _ & Hd).
    exists (EventDate e). rewrite He, <- Hd. now destruct e.
Qed.

(** * Notification *)

(** C8: [sendEmail] is called for a report only if events were added or the
    run is on a Friday; and a run that comes to the decision (the page was
    fetched and parsed, the differ returned a report, the report was
    marshalled) calls it exactly in that case. With no added event on
    another day of the week no mail is sent, whatever was deleted. *)
Theorem notification_iff_added_or_friday (env : Env) (st : Dynamo) :
  (forall (report : ChangeReport) (answer : MailAnswer),
     (report, answer) ∈ mails (HandleRequest env st) ->
     (0 < AddedCount report)%nat \/ GoTime.Weekday (clockOfHandler env) = GoTime.Friday) /\
  (forall (body : string) (events : list Event) (report : ChangeReport) (st' : Dynamo),
     configFails env = false ->
     httpAnswer env = Some (Some body) ->
     extractEvents (htmlParse env) body = inr events ->
     processEvents (clockOfDiff env) events st = (inr report, st') ->
     marshals report = true ->
     (mails (HandleRequest env st) = [(report, mailAnswer env)] <->
      (0 < AddedCount report)%nat \/ GoTime.Weekday (clockOfHandler env) = GoTime.Friday) /\
     (AddedCount report = 0%nat ->
      GoTime.Weekday (clockOfHandler env) <> GoTime.Friday ->
      mails (HandleRequest env st) = [])).
Proof.
  assert (Hcond : forall report : ChangeReport,
    (0 <? AddedCount report)%nat || (GoTime.Weekday (clockOfHandler env) =? GoTime.Friday) = true
    <-> (0 < AddedCount report)%nat \/ GoTime.Weekday (clockOfHandler env) = GoTime.Friday).
  { intros report. now rewrite orb_true_iff, Nat.ltb_lt, Z.eqb_eq. }
  split.
  - intros report answer. unfold HandleRequest, failWith.
    destruct (configFails env); [intros H; inversion H |].
    destruct (httpAnswer env) as [[body |] |];
      [| intros H; inversion H | intros H; inversion H].
    destruct (extractEvents _ body) as [err | events]; [intros H; inversion H |].
    destruct (processEvents _ events st) as [[err | r] st']; [intros H; inversion H |].
    destruct (marshals r); cbn [negb]; [| intros H; inversion H].
    destruct (_ || _) eqn:Hc; [| intros H; inversion H].
    apply Hcond in Hc.
    destruct (mailAnswer env); intros H; apply list_elem_of_singleton in H;
      injection H as Hr _; subst report; exact Hc.
  - intros body events report st' Hcfg Hhttp Hext Hrun Hm.
    unfold HandleRequest. rewrite Hcfg, Hhttp, Hext, Hrun, Hm. cbn [negb].
    destruct (_ || _) eqn:Hc.
    + apply Hcond in Hc. split.
      * split; [intros _; exact Hc |]. intros _.
        destruct (mailAnswer env); reflexivity.
      * intros H0 Hnf. destruct Hc as [Hc | Hc]; [lia | contradiction].
    + assert (Hn : ~ ((0 < AddedCount report)%nat \/
                      GoTime.Weekday (clockOfHandler env) = GoTime.Friday)).
      { rewrite <- Hcond, Hc. discriminate. }
      cbn. split; [| reflexivity].
      split; [discriminate | contradiction].
Qed.

(** A page without events and a table with one row: the row is deleted. On
    a Saturday no mail is sent; on a Friday the report is mailed. *)
Example deletions_alone_send_no_mail :
  let saturday := HandleRequest (quietEnv sampleNow) (sampleStore []) in
  let friday := HandleRequest (quietEnv sampleFriday) (sampleStore []) in
  GoTime.Weekday sampleNow = 6 /\ GoTime.Weekday sampleFriday = GoTime.Friday /\
  (exists report, response saturday = Some (mkResponse 200 (inr report)) /\
                  DeletedCount report = 1%nat /\ AddedCount report = 0%nat) /\
  mails saturday = [] /\
  (exists report, mails friday = [(report, MailAccepted)] /\
                  DeletedCount report = 1%nat /\ AddedCount report = 0%nat).
Proof.
  cbv zeta. split; [reflexivity |]. split; [reflexivity |].
  split; [vm_compute; eexists; split; [reflexivity | split; reflexivity] |].
  split; [vm_compute; reflexivity |].
  vm_compute. eexists. split; [reflexivity | split; reflexivity].
Qed.

(** * The text normaliser *)

Lemma first_range (b : Z) (sz : nat) (lo hi : Z) :
  Utf8.first b = Some (sz, (lo, hi)) ->
  (sz = 2 \/ sz = 3 \/ sz = 4)%nat /\ 128 <= lo /\ hi <= 191 /\ 194 <= b.
Proof.
  unfold Utf8.first.
  repeat (match goal with |- context [if ?c then _ else _] => destruct c eqn:? end);
    intros [= <- <- <-]; repeat split; try lia; auto.
Qed.

Lemma isCont_range (c : ascii) (lo hi : Z) :
  Utf8.isCont c = false -> 128 <= lo -> hi <= 191 ->
  (byteOf c <? lo) || (hi <? byteOf c) = true.
Proof.
  unfold Utf8.isCont. intros H Hlo Hhi.
  apply andb_false_iff in H. apply orb_true_iff.
  rewrite !Z.leb_gt in H. rewrite !Z.ltb_lt. lia.
Qed.

(** Case analysis on every test of a goal. *)
Local Ltac branches :=
  repeat match goal with
         | |- context [if ?c then _ else _] => destruct c eqn:?
         end; try reflexivity; try discriminate.

(** What [DecodeRune] reads of a text: its first byte and the continuation
    bytes after it. *)
Lemma DecodeRune_conts (c0 : ascii) (rest : list ascii) :
  Utf8.DecodeRune (c0 :: rest) = Utf8.DecodeRune (c0 :: conts rest).
Proof.
  unfold Utf8.DecodeRune.
  destruct (byteOf c0 <? 128); [reflexivity |].
  destruct (Utf8.first (byteOf c0)) as [[sz [lo hi]] |] eqn:Hf; [| reflexivity].
  apply first_range in Hf as (Hsz & Hlo & Hhi & _).
  destruct rest as [| c1 [| c2 [| c3 rest]]]; cbn [conts];
    repeat (match goal with
            | |- context [Utf8.isCont ?c] => destruct (Utf8.isCont c) eqn:?
            end; cbn [conts negb]);
    try rewrite (isCont_range c1 lo hi) by assumption;
    destruct Hsz as [-> | [-> | ->]]; cbn; branches.
Qed.

Lemma conts_app (a x y : list ascii) : conts x = conts y -> conts (a ++ x) = conts (a ++ y).
Proof.
  intros H. induction a as [| c a IH]; cbn; [assumption |].
  destruct (Utf8.isCont c); [now rewrite IH | reflexivity].
Qed.

(** A rune is decoded alike before two texts that start with the same
    continuation bytes. *)
Lemma DecodeRune_context (a x y : list ascii) :
  a <> [] -> conts x = conts y -> Utf8.DecodeRune (a ++ x) = Utf8.DecodeRune (a ++ y).
Proof.
  intros Ha H. destruct a as [| c a]; [contradiction |]. cbn [app].
  rewrite (DecodeRune_conts c (a ++ x)), (DecodeRune_conts c (a ++ y)).
  now rewrite (conts_app a x y H).
Qed.

Lemma DecodeRune_width (c : ascii) (rest : list ascii) :
  (1 <= snd (Utf8.DecodeRune (c :: rest)) <= length (c :: rest))%nat.
Proof.
  unfold Utf8.DecodeRune.
  destruct (byteOf c <? 128); [cbn; lia |].
  destruct (Utf8.first (byteOf c)) as [[sz [lo hi]] |] eqn:Hf; [| cbn; lia].
  apply first_range in Hf as (Hsz & _).
  destruct (length (c :: rest) <? sz)%nat eqn:Hlen; [cbn; lia |].
  apply Nat.ltb_ge in Hlen.
  destruct rest as [| c1 [| c2 [| c3 rest]]];
    destruct Hsz as [-> | [-> | ->]]; cbn in Hlen |- *; branches; cbn; lia.
Qed.

(** A rune that starts with a continuation byte is an error of one byte. *)
Lemma DecodeRune_cont (c : ascii) (rest : list ascii) :
  Utf8.isCont c = true -> Utf8.DecodeRune (c :: rest) = (Utf8.RuneError, 1%nat).
Proof.
  unfold Utf8.isCont, Utf8.DecodeRune. intros H.
  apply andb_true_iff in H as [H1 H2]. apply Z.leb_le in H1, H2.
  destruct (Z.ltb_spec (byteOf c) 128); [lia |].
  unfold Utf8.first. destruct (Z.ltb_spec (byteOf c) 194); [reflexivity | lia].
Qed.

Lemma runes_fuel (fuel1 fuel2 : nat) (s : list ascii) :
  (length s <= fuel1)%nat -> (length s <= fuel2)%nat ->
  Utf8.runes fuel1 s = Utf8.runes fuel2 s.
Proof.
  revert fuel2 s. induction fuel1 as [| fuel1 IH]; intros fuel2 s H1 H2.
  - destruct s; [| cbn in H1; lia]. destruct fuel2; reflexivity.
  - destruct s as [| c rest]; [destruct fuel2; reflexivity |].
    destruct fuel2 as [| fuel2]; [cbn in H2; lia |].
    cbn [Utf8.runes].
    pose proof (DecodeRune_width c rest) as Hw.
    destruct (Utf8.DecodeRune (c :: rest)) as [r w]. cbn [snd] in Hw.
    f_equal. apply IH; rewrite length_drop; cbn in *; lia.
Qed.

Lemma runesOf_cons (c : ascii) (rest : list ascii) :
  Utf8.runesOf (c :: rest)
  = (fst (Utf8.DecodeRune (c :: rest)),
     take (snd (Utf8.DecodeRune (c :: rest))) (c :: rest))
    :: Utf8.runesOf (drop (snd (Utf8.DecodeRune (c :: rest))) (c :: rest)).
Proof.
  unfold Utf8.runesOf at 1. cbn [length Utf8.runes].
  pose proof (DecodeRune_width c rest) as Hw.
  destruct (Utf8.DecodeRune (c :: rest)) as [r w]. cbn [fst snd] in *.
  f_equal. apply runes_fuel; rewrite length_drop; cbn; lia.
Qed.

(** Induction on a text, rune by rune. *)
Lemma rune_ind (P : list ascii -> Prop) :
  P [] ->
  (forall c rest,
     P (drop (snd (Utf8.DecodeRune (c :: rest))) (c :: rest)) -> P (c :: rest)) ->
  forall s, P s.
Proof.
  intros Hnil Hcons s.
  induction s as [s IH] using (induction_ltof1 _ (@length ascii)).
  destruct s as [| c rest]; [assumption |].
  apply Hcons, IH. unfold ltof.
  pose proof (DecodeRune_width c rest). rewrite length_drop. cbn in *. lia.
Qed.

Lemma flat_runesOf (s : list ascii) : flat (Utf8.runesOf s) = s.
Proof.
  induction s as [| c rest IH] using rune_ind; [reflexivity |].
  rewrite runesOf_cons. unfold flat in *. cbn [fmap list_fmap concat snd].
  rewrite IH. apply take_drop.
Qed.

Lemma okToks_runesOf (s : list ascii) : okToks (Utf8.runesOf s).
Proof.
  induction s as [| c rest IH] using rune_ind; [exact I |].
  rewrite runesOf_cons. cbn [okToks fst snd].
  pose proof (DecodeRune_width c rest) as Hw.
  rewrite flat_runesOf, take_drop, length_take.
  destruct (Utf8.DecodeRune (c :: rest)) as [r w]. cbn [fst snd] in *.
  split; [| split; [f_equal; cbn in *; lia | assumption]].
  destruct w; [lia | discriminate].
Qed.

Lemma runesOf_flat (L : list token) : okToks L -> Utf8.runesOf (flat L) = L.
Proof.
  induction L as [| [r raw] L IH]; [reflexivity |].
  cbn [okToks fst snd]. intros (Hne & Hdec & Hok).
  change (flat ((r, raw) :: L)) with (raw ++ flat L).
  destruct raw as [| c raw]; [contradiction |].
  cbn [app] in *. rewrite runesOf_cons, Hdec. cbn [fst snd].
  change (c :: raw ++ flat L) with ((c :: raw) ++ flat L).
  rewrite take_app_length, drop_app_length, IH by assumption. reflexivity.
Qed.

(** A rune of one of the two classes of white space is no error, so its
    first byte is no continuation byte. *)
Lemma space_not_error (r : Z) :
  Utf8.reSpace r = true \/ Utf8.IsSpace r = true -> r <> Utf8.RuneError.
Proof. intros [H | H] ->; vm_compute in H; discriminate. Qed.

Lemma okToks_head (t : token) (L : list token) :
  okToks (t :: L) -> fst t <> Utf8.RuneError -> conts (flat (t :: L)) = [].
Proof.
  intros (Hne & Hdec & _) Hr. change (flat (t :: L)) with (snd t ++ flat L).
  destruct (snd t) as [| c raw]; [contradiction |]. cbn [app conts] in *.
  destruct (Utf8.isCont c) eqn:Hc; [| reflexivity].
  rewrite (DecodeRune_cont c _ Hc) in Hdec. injection Hdec as Hdec _. congruence.
Qed.

Lemma okToks_tail (t : token) (L : list token) : okToks (t :: L) -> okToks L.
Proof. now intros (_ & _ & H). Qed.

(** A rune stays what it is when the runes after it are exchanged for
    others that start with the same continuation bytes. *)
Lemma okToks_exchange (t : token) (L L' : list token) :
  okToks (t :: L) -> okToks L' -> conts (flat L') = conts (flat L) -> okToks (t :: L').
Proof.
  intros (Hne & Hdec & _) Hok Hc. cbn [okToks].
  split; [assumption |]. split; [| assumption].
  now rewrite (DecodeRune_context (snd t) (flat L') (flat L) Hne Hc).
Qed.

Lemma collapse_flat (b : bool) (L : list token) :
  Strings.collapse b L = flat (collapseT b L).
Proof.
  revert b. induction L as [| [r raw] L IH]; intros b; [reflexivity |].
  cbn [Strings.collapse collapseT fst]. destruct (Utf8.reSpace r).
  - rewrite IH. destruct b; reflexivity.
  - rewrite IH. reflexivity.
Qed.

Lemma okToks_SP (L : list token) : okToks L -> okToks (SP :: L).
Proof. intros H. cbn. repeat split; [discriminate | assumption]. Qed.

Lemma okToks_collapseT (b : bool) (L : list token) :
  okToks L ->
  okToks (collapseT b L) /\
  (b = false -> conts (flat (collapseT b L)) = conts (flat L)).
Proof.
  revert b. induction L as [| t L IH]; intros b Hok; [split; [exact I | reflexivity] |].
  cbn [collapseT]. destruct (Utf8.reSpace (fst t)) eqn:Hws.
  - destruct (IH true (okToks_tail _ _ Hok)) as [Hok' _].
    destruct b; cbn [app].
    + split; [assumption | discriminate].
    + split; [now apply okToks_SP |]. intros _.
      rewrite (okToks_head t L Hok) by (apply space_not_error; auto). reflexivity.
  - destruct (IH false (okToks_tail _ _ Hok)) as [Hok' Hc]. specialize (Hc eq_refl).
    split; [now apply (okToks_exchange t L) |]. intros _.
    change (flat (t :: ?X)) with (snd t ++ flat X).
    now apply conts_app.
Qed.

Lemma collapsed_collapseT (b : bool) (L : list token) : collapsed b (collapseT b L).
Proof.
  revert b. induction L as [| t L IH]; intros b; [exact I |].
  cbn [collapseT]. destruct (Utf8.reSpace (fst t)) eqn:Hws.
  - destruct b; cbn [app]; [apply IH |]. cbn. auto.
  - cbn [collapsed]. rewrite Hws. apply IH.
Qed.

Lemma collapseT_collapsed (b : bool) (L : list token) :
  collapsed b L -> collapseT b L = L.
Proof.
  revert b. induction L as [| t L IH]; intros b; [reflexivity |].
  cbn [collapsed collapseT]. destruct (Utf8.reSpace (fst t)).
  - intros (-> & -> & H). cbn [app]. now rewrite IH.
  - intros H. now rewrite IH.
Qed.

Lemma collapsed_weaken (b : bool) (L : list token) : collapsed b L -> collapsed false L.
Proof.
  destruct L as [| t L]; [auto |]. cbn. destruct (Utf8.reSpace (fst t)); [| auto].
  intros (_ & H). auto.
Qed.

Lemma collapsed_app (b : bool) (L1 L2 : list token) :
  collapsed b (L1 ++ L2) -> collapsed b L1.
Proof.
  revert b. induction L1 as [| t L1 IH]; intros b; [intros; exact I |].
  cbn [app collapsed]. destruct (Utf8.reSpace (fst t)).
  - intros (H1 & H2 & H3). eauto.
  - apply IH.
Qed.

Lemma collapsed_dropSpace (L : list token) :
  collapsed false L -> collapsed false (Strings.dropSpace L).
Proof.
  induction L as [| t L IH]; [auto |]. intros H. cbn [Strings.dropSpace].
  destruct (Utf8.IsSpace (fst t)); [| assumption].
  apply IH. cbn [collapsed] in H. destruct (Utf8.reSpace (fst t)).
  - destruct H as (_ & _ & H). now apply collapsed_weaken in H.
  - assumption.
Qed.

(** What [dropSpace] removes: white space at the front. *)
Lemma dropSpace_split (L : list token) :
  exists front, L = front ++ Strings.dropSpace L /\
                Forall (fun t => Utf8.IsSpace (fst t) = true) front.
Proof.
  induction L as [| t L (front & IH & Hf)]; [exists []; split; [reflexivity | constructor] |].
  cbn [Strings.dropSpace]. destruct (Utf8.IsSpace (fst t)) eqn:Hs.
  - exists (t :: front). split; [cbn [app]; f_equal; exact IH | now constructor].
  - exists []. split; [reflexivity | constructor].
Qed.

Lemma dropSpace_idem (L : list token) :
  Strings.dropSpace (Strings.dropSpace L) = Strings.dropSpace L.
Proof.
  induction L as [| t L IH]; [reflexivity |]. cbn [Strings.dropSpace].
  destruct (Utf8.IsSpace (fst t)) eqn:Hs; [assumption |]. cbn. now rewrite Hs.
Qed.

Lemma okToks_suffix (L1 L2 : list token) : okToks (L1 ++ L2) -> okToks L2.
Proof. induction L1 as [| t L1 IH]; [auto |]. intros H. apply IH, (okToks_tail t), H. Qed.

(** Runes in front of white space stay what they are without it. *)
Lemma okToks_prefix (L1 L2 : list token) :
  okToks (L1 ++ L2) -> Forall (fun t => Utf8.IsSpace (fst t) = true) L2 ->
  okToks L1 /\ conts (flat L1) = conts (flat (L1 ++ L2)).
Proof.
  intros Hok Hsp. induction L1 as [| t L1 IH].
  - split; [exact I |]. cbn [app]. destruct L2 as [| s L2]; [reflexivity |].
    rewrite (okToks_head s L2 Hok); [reflexivity |].
    apply space_not_error. right. now inversion Hsp.
  - cbn [app] in Hok. destruct (IH (okToks_tail _ _ Hok)) as [Hok1 Hc].
    split; [now apply (okToks_exchange t (L1 ++ L2)) |].
    cbn [app]. change (flat (t :: ?X)) with (snd t ++ flat X). now apply conts_app.
Qed.

Lemma okToks_trimT (L : list token) : okToks L -> okToks (trimT L).
Proof.
  intros Hok. unfold trimT.
  destruct (dropSpace_split L) as (front & HL & _).
  assert (Hmid : okToks (Strings.dropSpace L))
    by (apply (okToks_suffix front); rewrite <- HL; exact Hok).
  destruct (dropSpace_split (rev (Strings.dropSpace L))) as (back & Hrev & Hback).
  apply (f_equal (@rev token)) in Hrev. rewrite rev_involutive, rev_app_distr in Hrev.
  rewrite Hrev in Hmid. apply okToks_prefix in Hmid as [H _]; [assumption |].
  now apply Forall_rev.
Qed.

Lemma collapsed_trimT (L : list token) : collapsed false L -> collapsed false (trimT L).
Proof.
  intros H. unfold trimT. apply collapsed_dropSpace in H.
  destruct (dropSpace_split (rev (Strings.dropSpace L))) as (back & Hrev & _).
  apply (f_equal (@rev token)) in Hrev. rewrite rev_involutive, rev_app_distr in Hrev.
  rewrite Hrev in H. now apply collapsed_app in H.
Qed.

Lemma trimT_trimmed (L : list token) : trimmed L -> trimT L = L.
Proof. intros [H1 H2]. unfold trimT. now rewrite H1, H2, rev_involutive. Qed.

Lemma dropSpace_fixed (L : list token) :
  Strings.dropSpace L = L <-> match L with [] => True | t :: _ => Utf8.IsSpace (fst t) = false end.
Proof.
  destruct L as [| t L]; [tauto |]. cbn [Strings.dropSpace].
  destruct (Utf8.IsSpace (fst t)) eqn:Hs; [| tauto]. split; [| discriminate].
  intros H. destruct (dropSpace_split L) as (front & HL & _).
  apply (f_equal (@length token)) in HL. rewrite length_app, H in HL. cbn in HL. lia.
Qed.

Lemma trimmed_trimT (L : list token) : trimmed (trimT L).
Proof.
  unfold trimmed, trimT. rewrite rev_involutive, dropSpace_idem. split; [| reflexivity].
  set (M := Strings.dropSpace L).
  assert (HM : Strings.dropSpace M = M) by apply dropSpace_idem.
  destruct (dropSpace_split (rev M)) as (back & Hrev & _).
  apply (f_equal (@rev token)) in Hrev. rewrite rev_involutive, rev_app_distr in Hrev.
  apply dropSpace_fixed. apply dropSpace_fixed in HM.
  destruct (rev (Strings.dropSpace (rev M))) as [| t P]; [exact I |].
  rewrite Hrev in HM. exact HM.
Qed.

Lemma hasPrefix_spec (p s : list ascii) :
  Strings.hasPrefix p s = true <-> exists b, s = p ++ b.
Proof.
  revert s. induction p as [| c p IH]; intros s; cbn.
  - split; [eauto | reflexivity].
  - destruct s as [| d s]; [split; [discriminate | intros [b H]; discriminate] |].
    rewrite andb_true_iff, bool_decide_eq_true, IH. split.
    + intros [-> [b ->]]. eauto.
    + intros [b [= -> ->]]. eauto.
Qed.

Lemma RA_found (s : list ascii) : RA (spacedEnDash ++ s) = spacedHyphen ++ RA s.
Proof. reflexivity. Qed.

Lemma RA_next (c : ascii) (s : list ascii) :
  Strings.hasPrefix spacedEnDash (c :: s) = false -> RA (c :: s) = c :: RA s.
Proof. unfold RA, Strings.ReplaceAll. cbn [Strings.replaceFrom]. now intros ->. Qed.

Lemma RA_conts (a s : list ascii) :
  Forall (fun c => Utf8.isCont c = true) a -> RA (a ++ s) = a ++ RA s.
Proof.
  induction 1 as [| c a Hc _ IH]; [reflexivity |]. cbn [app].
  rewrite RA_next, IH; [reflexivity |].
  cbn. case_bool_decide as Heq; [| reflexivity]. subst c. discriminate Hc.
Qed.

Lemma conts_RA (s : list ascii) : conts (RA s) = conts s.
Proof.
  destruct s as [| c s]; [reflexivity |].
  destruct (Strings.hasPrefix spacedEnDash (c :: s)) eqn:Hp.
  - apply hasPrefix_spec in Hp as [b ->]. reflexivity.
  - rewrite RA_next by assumption. cbn [conts].
    destruct (Utf8.isCont c) eqn:Hc; [| reflexivity].
    f_equal. revert Hc Hp. clear. revert c.
    induction s as [| d s IH]; intros c Hc Hp; [reflexivity |].
    destruct (Strings.hasPrefix spacedEnDash (d :: s)) eqn:Hd.
    + apply hasPrefix_spec in Hd as [b ->]. reflexivity.
    + rewrite RA_next by assumption. cbn [conts].
      destruct (Utf8.isCont d) eqn:Hcd; [| reflexivity]. f_equal. now apply (IH d).
Qed.

(** The bytes of a rune after the first are continuation bytes. *)
Lemma DecodeRune_tail (c : ascii) (rest : list ascii) :
  Forall (fun c => Utf8.isCont c = true)
         (take (snd (Utf8.DecodeRune (c :: rest)) - 1) rest).
Proof.
  unfold Utf8.DecodeRune.
  destruct (byteOf c <? 128); [constructor |].
  destruct (Utf8.first (byteOf c)) as [[sz [lo hi]] |] eqn:Hf; [| constructor].
  apply first_range in Hf as (Hsz & Hlo & Hhi & _).
  assert (Hc1 : forall c1, (byteOf c1 <? lo) || (hi <? byteOf c1) = false ->
                           Utf8.isCont c1 = true).
  { intros c1 H. destruct (Utf8.isCont c1) eqn:Hc; [reflexivity |].
    rewrite (isCont_range c1 lo hi Hc Hlo Hhi) in H. discriminate. }
  destruct rest as [| c1 [| c2 [| c3 rest]]];
    destruct Hsz as [-> | [-> | ->]]; cbn;
    repeat match goal with
           | |- context [if ?b then _ else _] => destruct b eqn:?
           end; cbn;
    repeat constructor;
    repeat match goal with
           | H : negb _ = false |- _ => apply negb_false_iff in H
           end; auto.
Qed.

(** The first rune of a list of runes is the first rune of its bytes. *)
Lemma okToks_first (t : token) (L : list token) (c : ascii) (s : list ascii) :
  okToks (t :: L) -> flat (t :: L) = c :: s ->
  t = (fst (Utf8.DecodeRune (c :: s)), take (snd (Utf8.DecodeRune (c :: s))) (c :: s)) /\
  flat L = drop (snd (Utf8.DecodeRune (c :: s))) (c :: s).
Proof.
  intros (Hne & Hdec & _) Hs. change (flat (t :: L)) with (snd t ++ flat L) in Hs.
  rewrite Hs in Hdec. rewrite Hdec. cbn [fst snd]. rewrite <- Hs.
  rewrite take_app_length, drop_app_length. now destruct t.
Qed.

Lemma RA_rune (t : token) (L : list token) :
  okToks (t :: L) ->
  Strings.hasPrefix spacedEnDash (flat (t :: L)) = false ->
  RA (flat (t :: L)) = snd t ++ RA (flat L).
Proof.
  intros Hok Hp. destruct (flat (t :: L)) as [| c s] eqn:Hs.
  { destruct Hok as (Hne & _). change (flat (t :: L)) with (snd t ++ flat L) in Hs.
    destruct (snd t); [contradiction | discriminate]. }
  destruct (okToks_first t L c s Hok Hs) as [-> HL].
  rewrite RA_next by assumption. cbn [snd].
  pose proof (DecodeRune_width c s) as Hw. pose proof (DecodeRune_tail c s) as Ht.
  destruct (snd (Utf8.DecodeRune (c :: s))) as [| w]; [lia |].
  replace (S w - 1)%nat with w in Ht by lia. cbn [take drop]. rewrite HL.
  rewrite <- (take_drop w s) at 1. now rewrite RA_conts.
Qed.

Lemma okToks_found (L : list token) (b : list ascii) :
  okToks L -> flat L = spacedEnDash ++ b ->
  exists L2, L = SP :: ENDASH :: SP :: L2 /\ flat L2 = b.
Proof.
  intros Hok Hs.
  destruct L as [| t1 L]; [discriminate |].
  destruct (okToks_first t1 L _ _ Hok Hs) as [-> H1]. cbn in H1.
  apply okToks_tail in Hok.
  destruct L as [| t2 L]; [discriminate |].
  destruct (okToks_first t2 L _ _ Hok H1) as [-> H2]. cbn in H2.
  apply okToks_tail in Hok.
  destruct L as [| t3 L]; [discriminate |].
  destruct (okToks_first t3 L _ _ Hok H2) as [-> H3]. cbn in H3.
  exists L. split; [reflexivity | assumption].
Qed.

(** The replacement, rune by rune. *)
Lemma RA_runes (L : list token) :
  okToks L ->
  exists L', RA (flat L) = flat L' /\ okToks L' /\ Forall2 dashed L L' /\
             conts (flat L') = conts (flat L).
Proof.
  induction L as [L IH] using (induction_ltof1 _ (@length token)). unfold ltof in IH.
  intros Hok. destruct L as [| t L]; [exists []; repeat split; constructor |].
  destruct (Strings.hasPrefix spacedEnDash (flat (t :: L))) eqn:Hp.
  - apply hasPrefix_spec in Hp as [b Hb].
    destruct (okToks_found _ _ Hok Hb) as (L2 & HL & Hflat).
    rewrite HL in Hok |- *.
    assert (Hok2 : okToks L2) by (do 3 apply okToks_tail in Hok; exact Hok).
    destruct (IH L2) as (L2' & Hra & Hok' & Hd & _); [rewrite HL; cbn; lia | assumption |].
    exists (SP :: HYPHEN :: SP :: L2'). split; [| split; [| split]].
    + change (flat (SP :: ENDASH :: SP :: L2)) with (spacedEnDash ++ flat L2).
      rewrite RA_found, Hra. reflexivity.
    + cbn. repeat split; try discriminate. assumption.
    + constructor; [now left |]. constructor; [right; split; reflexivity |].
      constructor; [now left | assumption].
    + reflexivity.
  - destruct (IH L) as (L' & Hra & Hok' & Hd & Hc); [cbn; lia | now apply okToks_tail in Hok |].
    exists (t :: L'). split; [| split; [| split]].
    + rewrite RA_rune, Hra by assumption. reflexivity.
    + now apply (okToks_exchange t L).
    + constructor; [now left | assumption].
    + change (flat (t :: ?X)) with (snd t ++ flat X). now apply conts_app.
Qed.

Lemma dashed_class (t t' : token) :
  dashed t t' ->
  Utf8.reSpace (fst t') = Utf8.reSpace (fst t) /\
  Utf8.IsSpace (fst t') = Utf8.IsSpace (fst t) /\
  (Utf8.reSpace (fst t) = true -> t' = t).
Proof. intros [-> | [-> ->]]; repeat split; auto. discriminate. Qed.

Lemma collapsed_dashed (b : bool) (L L' : list token) :
  Forall2 dashed L L' -> collapsed b L -> collapsed b L'.
Proof.
  intros H. revert b. induction H as [| t t' L L' Ht _ IH]; intros b; [auto |].
  destruct (dashed_class t t' Ht) as (Hre & _ & Hsame).
  cbn [collapsed]. rewrite Hre. destruct (Utf8.reSpace (fst t)).
  - intros (Hb & Hsp & Hc). rewrite (Hsame eq_refl). auto.
  - apply IH.
Qed.

Lemma Forall2_rev' {A} (P : A -> A -> Prop) (l l' : list A) :
  Forall2 P l l' -> Forall2 P (rev l) (rev l').
Proof.
  induction 1 as [| x y l l' Hxy _ IH]; [constructor |].
  cbn. apply Forall2_app; [assumption | repeat constructor; assumption].
Qed.

Lemma dropSpace_dashed (L L' : list token) :
  Forall2 dashed L L' -> Strings.dropSpace L = L -> Strings.dropSpace L' = L'.
Proof.
  intros H. rewrite !dropSpace_fixed. destruct H as [| t t' L L' Ht _]; [auto |].
  destruct (dashed_class t t' Ht) as (_ & -> & _). auto.
Qed.

Lemma trimmed_dashed (L L' : list token) : Forall2 dashed L L' -> trimmed L -> trimmed L'.
Proof.
  intros H [H1 H2]. split; [now apply (dropSpace_dashed L) |].
  apply (dropSpace_dashed (rev L)); [now apply Forall2_rev' | assumption].
Qed.

(** ** The normal form *)

Lemma ReplaceAllSpace_runes (L : list token) :
  okToks L -> Strings.ReplaceAllSpace (flat L) = flat (collapseT false L).
Proof. intros H. unfold Strings.ReplaceAllSpace. now rewrite runesOf_flat, collapse_flat. Qed.

Lemma TrimSpace_runes (L : list token) :
  okToks L -> Strings.TrimSpace (flat L) = flat (trimT L).
Proof. intros H. unfold Strings.TrimSpace. now rewrite runesOf_flat. Qed.

(** The result of [cleanBytes] is the bytes of a list of runes that has no
    white space but single spaces inside it. *)
Lemma cleanBytes_normal (s : list ascii) :
  exists L, cleanBytes s = flat L /\ okToks L /\ collapsed false L /\ trimmed L.
Proof.
  unfold cleanBytes.
  pose proof (okToks_runesOf s) as H0.
  destruct (okToks_collapseT false _ H0) as [H1 _].
  pose proof (collapsed_collapseT false (Utf8.runesOf s)) as C1.
  unfold Strings.ReplaceAllSpace at 1. rewrite collapse_flat.
  set (L1 := collapseT false (Utf8.runesOf s)) in *.
  rewrite TrimSpace_runes by assumption.
  pose proof (okToks_trimT L1 H1) as H2.
  pose proof (collapsed_trimT L1 C1) as C2.
  pose proof (trimmed_trimT L1) as T2.
  destruct (RA_runes (trimT L1) H2) as (L3 & Hra & H3 & Hd & _).
  exists L3. fold (RA (flat (trimT L1))). rewrite Hra.
  split; [reflexivity |]. split; [assumption |].
  split; [now apply (collapsed_dashed false (trimT L1)) | now apply (trimmed_dashed (trimT L1))].
Qed.

(** On a text in normal form only the replacement of the dash is left. *)
Lemma cleanBytes_twice (s : list ascii) : cleanBytes (cleanBytes s) = RA (cleanBytes s).
Proof.
  destruct (cleanBytes_normal s) as (L & -> & Hok & Hc & Ht).
  unfold cleanBytes at 1.
  rewrite ReplaceAllSpace_runes, (collapseT_collapsed false L Hc) by assumption.
  rewrite TrimSpace_runes, (trimT_trimmed L Ht) by assumption. reflexivity.
Qed.

Lemma RA_fixed (s : list ascii) : RA s = s <-> ~ occurs spacedEnDash s.
Proof.
  induction s as [| c s IH].
  - split; [| reflexivity]. intros _ (a & b & H).
    destruct a; discriminate.
  - destruct (Strings.hasPrefix spacedEnDash (c :: s)) eqn:Hp.
    + pose proof Hp as Hq. apply hasPrefix_spec in Hq as [b Hb]. rewrite Hb. split.
      * rewrite RA_found. discriminate.
      * intros H. exfalso. apply H. exists [], b. reflexivity.
    + rewrite RA_next by assumption. split.
      * intros [= H] (a & b & Hocc). apply IH in H. destruct a as [| d a].
        -- assert (Strings.hasPrefix spacedEnDash (c :: s) = true)
             by (apply hasPrefix_spec; eauto). congruence.
        -- injection Hocc as -> ->. apply H. exists a, b. reflexivity.
      * intros H. f_equal. apply IH. intros (a & b & ->).
        apply H. exists (c :: a), b. reflexivity.
Qed.

Theorem cleanText_idempotent_iff (s : string) :
  cleanText (cleanText s) = cleanText s
  <-> ~ occurs spacedEnDash (list_ascii_of_string (cleanText s)).
Proof.
  unfold cleanText. rewrite list_ascii_of_string_of_list_ascii, cleanBytes_twice.
  rewrite <- RA_fixed. split.
  - intros H. apply (f_equal list_ascii_of_string) in H.
    now rewrite !list_ascii_of_string_of_list_ascii in H.
  - now intros ->.
Qed.


Example cleanText_unicode_space :
  let s := String (ascii_of_nat 194) (String (ascii_of_nat 160)
             ("Ferien" +:+ String (ascii_of_nat 226) (String (ascii_of_nat 128)
                (String (ascii_of_nat 131) "   – bis 12.04. ")))) in
  cleanText s = "Ferien - bis 12.04."%string /\ cleanText (cleanText s) = cleanText s.
Proof. vm_compute. split; reflexivity. Qed.

(** C3: [cleanText] is not idempotent. Of two spaced en dashes that share
    their space, [strings.ReplaceAll] replaces the first only; the second is
    replaced when the text is cleaned again. *)
Theorem cleanText_twice_differs :
  cleanText "a – – b" = "a - – b"%string /\
  cleanText (cleanText "a – – b") = "a - - b"%string /\
  cleanText (cleanText "a – – b") <> cleanText "a – – b".
Proof. vm_compute. repeat split. discriminate. Qed.

(** * The requests of a run *)

Lemma follows_ret {A} (st : Dynamo) (a : A) : follows st [] (ret a).
Proof. exists []. cbn. now rewrite app_nil_r. Qed.

Lemma follows_request {A} (st : Dynamo) (rq : Request) (answer : gmap string Item -> A) :
  follows st [rq] (request rq answer).
Proof.
  unfold follows, request. destruct (failures st) as [| [] rest]; cbn.
  - exists [(rq, true)]. auto.
  - exists [(rq, false)]. split; [reflexivity |]. exists []. reflexivity.
  - exists [(rq, true)]. auto.
Qed.

Lemma follows_bind {A B} (st : Dynamo) (p1 p2 : list Request) (m : Run A) (k : A -> Run B) :
  follows st p1 m ->
  (forall a st1, m st = (inr a, st1) -> follows st1 p2 (k a)) ->
  follows st (p1 ++ p2) (x <- m ;; k x).
Proof.
  intros (made & Htr & Hres) Hk. unfold follows, bind.
  destruct (m st) as [[err | a] st1] eqn:Hm; cbn in *.
  - exists made. split; [assumption |]. destruct Hres as [rest ->].
    exists (rest ++ p2). now rewrite app_assoc.
  - destruct (Hk a st1 eq_refl) as (made' & Htr' & Hres').
    exists (made ++ made'). rewrite Htr', Htr, app_assoc, fmap_app, Hres.
    split; [reflexivity |].
    destruct (fst (k a st1)).
    + destruct Hres' as [rest ->]. exists rest. now rewrite app_assoc.
    + now rewrite Hres'.
Qed.

Lemma follows_processCurrent existingMap now cutoff events acc st :
  follows st ((fun e => PutItem (rowOfEvent e)) <$> List.filter (isNew existingMap) events)
          (processCurrent existingMap now cutoff events acc).
Proof.
  revert acc st. induction events as [| e events IH]; intros acc st; cbn [processCurrent].
  - apply follows_ret.
  - rewrite generateEventKey_checksum. fold (theKey e).
    cbn [List.filter]. unfold isNew at 1.
    destruct (existingMap !! theKey e) as [old |] eqn:Hlook.
    + rewrite bool_decide_eq_false_2 by congruence.
      apply (follows_bind st [] _); [apply follows_ret | intros; apply IH].
    + rewrite bool_decide_eq_true_2 by reflexivity. cbn [fmap list_fmap].
      apply (follows_bind st [PutItem (rowOfEvent e)] _); [| intros; apply IH].
      replace [PutItem (rowOfEvent e)] with ([PutItem (rowOfEvent e)] ++ []) by reflexivity.
      apply follows_bind; [apply follows_request | intros; apply follows_ret].
Qed.

Lemma follows_processDeleted seen existing deleted st :
  follows st ((fun r => DeleteItem (EventKey r)) <$>
              List.filter (fun r => negb (bool_decide (EventKey r ∈ seen))) existing)
          (processDeleted seen existing deleted).
Proof.
  revert deleted st. induction existing as [| r existing IH]; intros deleted st;
    cbn [processDeleted List.filter].
  - apply follows_ret.
  - case_bool_decide; cbn [negb]; [apply IH |]. cbn [fmap list_fmap].
    apply (follows_bind st [DeleteItem (EventKey r)] _);
      [apply follows_request | intros; apply IH].
Qed.

Lemma follows_getAllEvents (st : Dynamo) : follows st [Scan] getAllEvents.
Proof.
  unfold follows. rewrite getAllEvents_cases.
  destruct (failures st) as [| [] rest]; cbn [fst snd trace].
  2: { exists [(Scan, false)]. split; [reflexivity |]. exists []. reflexivity. }
  all: exists [(Scan, true)]; split; [reflexivity |];
    destruct (decodable (firstPageOf st)); [reflexivity | exists []; reflexivity].
Qed.

Lemma follows_processEvents now events st :
  follows st (plannedRequests (firstPageOf st) events) (processEvents now events).
Proof.
  unfold processEvents, plannedRequests.
  apply (follows_bind st [Scan] _); [apply follows_getAllEvents |].
  intros existing st1 Hscan. apply getAllEvents_ok in Hscan as (-> & _ & Htb1).
  apply follows_bind.
  - unfold newEvents.
    replace (List.filter (fun e => bool_decide (theKey e ∉ dom (firstPageOf st))) events)
      with (List.filter (isNew (fold_left
              (fun (m : gmap string DynamoDBEvent) e => <[EventKey e := e]> m)
              (rowsOf (firstPageOf st)) ∅)) events); [apply follows_processCurrent |].
    apply filter_ext. intros e. unfold isNew.
    apply bool_decide_ext. rewrite <- not_elem_of_dom, existingMap_dom. reflexivity.
  - intros cur st2 Hcur. apply processCurrent_ok in Hcur as (Hseen & _).
    assert (Hs : currentMap cur = list_to_set (theKey <$> events)).
    { rewrite Hseen. cbn [currentMap]. apply set_eq. intros k.
      rewrite elem_of_union. pose proof (not_elem_of_empty (C := gset string) k). tauto. }
    replace (staleRows (firstPageOf st) events ) with
      (List.filter (fun r => negb (bool_decide (EventKey r ∈ currentMap cur)))
                   (rowsOf (firstPageOf st))) by (now rewrite Hs).
    replace ((fun r => DeleteItem (EventKey r)) <$> _)
      with (((fun r => DeleteItem (EventKey r)) <$>
             List.filter (fun r => negb (bool_decide (EventKey r ∈ currentMap cur)))
                         (rowsOf (firstPageOf st))) ++ []) by apply app_nil_r.
    apply follows_bind; [apply follows_processDeleted | intros; apply follows_ret].
Qed.

Lemma replay_all_ok (made : list (Request * bool)) (t : gmap string Item) :
  Forall (fun x => snd x = true) made ->
  replay made t = fold_left (fun t rq => applyRequest rq t) (fst <$> made) t.
Proof.
  intros Hok. revert t. induction Hok as [| [rq b] made Hb _ IH]; intros t; [reflexivity |].
  cbn in Hb. subst b. cbn. apply IH.
Qed.

Lemma table_of_plan now events st report st' :
  processEvents now events st = (inr report, st') ->
  table st' = fold_left (fun t rq => applyRequest rq t)
                        (plannedRequests (firstPageOf st) events) (table st).
Proof.
  intros Hrun.
  destruct (traced_processEvents now events st) as (made & Htr & _ & _ & Htb & Hok).
  destruct (follows_processEvents now events st) as (made' & Htr' & Hplan).
  rewrite Hrun in *. cbn [fst snd] in *.
  rewrite Htr in Htr'. apply app_inv_head in Htr'. subst made'.
  rewrite Htb, <- Hplan. apply replay_all_ok, Hok.
Qed.

Lemma lookup_after_puts (news : list Event) (t : gmap string Item) (k : string) :
  fold_left (fun t rq => applyRequest rq t)
            ((fun e => PutItem (rowOfEvent e)) <$> news) t !! k
  = match last (eventsOfKey k news) with
    | Some e => Some (itemOf e)
    | None => t !! k
    end.
Proof.
  revert t. induction news as [| e news IH]; intros t; [reflexivity |].
  cbn [fmap list_fmap fold_left eventsOfKey List.filter]. rewrite IH.
  fold (eventsOfKey k news). cbn [applyRequest rowOfEvent EventKey dbEventDate EventDesc
                                    EventChecksum].
  case_bool_decide as Hk.
  - rewrite last_cons. destruct (last (eventsOfKey k news)); [reflexivity |].
    subst k. now rewrite lookup_insert_eq.
  - destruct (last (eventsOfKey k news)); [reflexivity |].
    now rewrite lookup_insert_ne.
Qed.

Lemma lookup_after_deletes (rows : list DynamoDBEvent) (t : gmap string Item) (k : string) :
  fold_left (fun t rq => applyRequest rq t)
            ((fun r => DeleteItem (EventKey r)) <$> rows) t !! k
  = if bool_decide (k ∈ EventKey <$> rows) then None else t !! k.
Proof.
  revert t. induction rows as [| r rows IH]; intros t.
  - cbn. rewrite bool_decide_eq_false_2; [reflexivity | apply not_elem_of_nil].
  - cbn [fmap list_fmap fold_left applyRequest]. rewrite IH.
    fold (EventKey <$> rows).
    destruct (decide (k = EventKey r)) as [-> | Hne].
    + rewrite lookup_delete_eq, (bool_decide_eq_true_2 (_ ∈ _ :: _)) by (apply elem_of_cons; now left).
      now destruct (bool_decide _).
    + rewrite lookup_delete_ne by congruence.
      apply (f_equal (fun b : bool => if b then None else t !! k)).
      apply bool_decide_ext. rewrite elem_of_cons. tauto.
Qed.

Lemma eventsOfKey_nil (k : string) (events : list Event) :
  eventsOfKey k events = [] <-> k ∉ theKey <$> events.
Proof.
  unfold eventsOfKey. rewrite list_elem_of_fmap. split.
  - intros Hnil (e & -> & He % list_elem_of_In).
    assert (Hin : In e (List.filter (fun e0 => bool_decide (theKey e0 = theKey e)) events)).
    { apply filter_In. split; [assumption | now apply bool_decide_eq_true_2]. }
    now rewrite Hnil in Hin.
  - intros Hno. apply filter_none. intros e He.
    apply bool_decide_eq_false_2. intros <-. apply Hno. exists e.
    split; [reflexivity | assumption].
Qed.

Lemma last_is_None {A} (l : list A) : last l = None <-> l = [].
Proof.
  split; [| now intros ->]. destruct l as [| a l]; [reflexivity |].
  rewrite last_cons. now destruct (last l).
Qed.

Lemma eventsOfKey_new (t : gmap string Item) (k : string) (events : list Event) :
  eventsOfKey k (newEvents t events)
  = if bool_decide (k ∈ dom t) then [] else eventsOfKey k events.
Proof.
  unfold eventsOfKey, newEvents. induction events as [| e events IH].
  - now destruct (bool_decide _).
  - cbn [List.filter]. destruct (bool_decide (k ∈ dom t)) eqn:Hk.
    + apply bool_decide_eq_true_1 in Hk.
      destruct (bool_decide (theKey e ∉ dom t)) eqn:He; [| assumption].
      apply bool_decide_eq_true_1 in He. cbn [List.filter].
      rewrite bool_decide_eq_false_2 by congruence. assumption.
    + apply bool_decide_eq_false_1 in Hk.
      destruct (bool_decide (theKey e = k)) eqn:Hek.
      * apply bool_decide_eq_true_1 in Hek.
        rewrite bool_decide_eq_true_2 by congruence. cbn [List.filter].
        rewrite bool_decide_eq_true_2 by assumption. now rewrite IH.
      * destruct (bool_decide (theKey e ∉ dom t)); [| assumption].
        cbn [List.filter]. rewrite Hek. assumption.
Qed.

Lemma staleRows_keys (t : gmap string Item) (k : string) (events : list Event) :
  k ∈ EventKey <$> staleRows t events <-> k ∈ dom t /\ k ∉ theKey <$> events.
Proof.
  unfold staleRows. rewrite <- (scanned_keys t), elem_of_list_to_set.
  rewrite (list_elem_of_fmap EventKey), (list_elem_of_fmap EventKey). split.
  - intros (r & -> & Hr % list_elem_of_In). apply filter_In in Hr as [Hr Hstale].
    apply negb_true_iff, bool_decide_eq_false_1 in Hstale.
    rewrite elem_of_list_to_set in Hstale. split; [| assumption].
    exists r. split; [reflexivity | now apply list_elem_of_In].
  - intros [(r & -> & Hr % list_elem_of_In) Hno]. exists r. split; [reflexivity |].
    apply list_elem_of_In, filter_In. split; [assumption |].
    apply negb_true_iff, bool_decide_eq_false_2. now rewrite elem_of_list_to_set.
Qed.

(** X4. The requests of a run are foreseen by the first page of the scan
    and the extraction: the scan, then a PutItem for each current event
    whose key is not on that page (in extraction order, with the row the
    code builds), then a DeleteItem for each row of that page whose key no
    current event has (in scan order). A run that returns a report has made
    exactly these, 1 + addedCount + deletedCount requests; a run that
    returns an error has made the first of them, up to one that failed, or
    the scan alone, whose items could not be decoded. *)
Theorem requests_follow_plan (now : Time) (events : list Event) (st : Dynamo) :
  exists made : list (Request * bool),
    trace (snd (processEvents now events st)) = trace st ++ made /\
    match fst (processEvents now events st) with
    | inr report =>
        fst <$> made = plannedRequests (firstPageOf st) events /\
        length made = (1 + AddedCount report + DeletedCount report)%nat
    | inl _ =>
        (exists rest, plannedRequests (firstPageOf st) events = (fst <$> made) ++ rest) /\
        ((exists before rq, made = before ++ [(rq, false)] /\
                            Forall (fun x => snd x = true) before) \/
         (made = [(Scan, true)] /\ decodable (firstPageOf st) = false))
    end.
Proof.
  destruct (follows_processEvents now events st) as (made & Htr & Hplan).
  exists made. split; [assumption |].
  destruct (processEvents now events st) as [[err | report] st'] eqn:Hrun; cbn [fst snd] in *.
  - split; [assumption |].
    destruct (traced_processEvents now events st) as (made' & Htr' & _ & _ & _ & Hlast).
    rewrite Hrun in *. cbn [fst snd] in *. rewrite Htr in Htr'. apply app_inv_head in Htr'.
    subst made'. destruct Hlast as [(before & rq & -> & Hb & _) | (-> & Hdec & _)].
    + left. now exists before, rq.
    + right. now split.
  - split; [assumption |].
    apply processEvents_ok in Hrun as (_ & _ & Hadd & Hdel & -> & ->).
    rewrite <- (length_fmap fst), Hplan, Hadd, Hdel. unfold plannedRequests.
    cbn [length]. rewrite length_app, !length_fmap. reflexivity.
Qed.

(** X5. The table after a successful run, item by item, in terms of the
    first page of the scan. A key on that page that a current event has
    keeps its item, whatever the event says: items the run knows are never
    updated in place. A key on that page that no current event has is
    absent. A key of a current event that is not on that page holds the
    date, the description and the full checksum of the last current event
    with that key, also where the table held an item beyond the page. Every
    other key is as it was: a row beyond the page that no current event has
    stays. *)
Theorem table_after_successful_run (now : Time) (events : list Event)
    (st st' : Dynamo) (report : ChangeReport) (k : string) :
  processEvents now events st = (inr report, st') ->
  table st' !! k
  = match last (eventsOfKey k events), firstPageOf st !! k with
    | Some e, Some old => Some old
    | Some e, None => Some (itemOf e)
    | None, Some old => None
    | None, None => table st !! k
    end.
Proof.
  intros Hrun. rewrite (table_of_plan _ _ _ _ _ Hrun). unfold plannedRequests.
  cbn [fold_left applyRequest]. rewrite fold_left_app, lookup_after_deletes.
  rewrite lookup_after_puts, eventsOfKey_new.
  destruct (last (eventsOfKey k events)) as [e |] eqn:Hlast.
  - assert (Hin : k ∈ theKey <$> events).
    { destruct (decide (k ∈ theKey <$> events)) as [Hin | Hno]; [assumption |].
      apply eventsOfKey_nil in Hno. now rewrite Hno in Hlast. }
    rewrite bool_decide_eq_false_2 by (rewrite staleRows_keys; tauto).
    destruct (firstPageOf st !! k) as [old |] eqn:Hold.
    + rewrite bool_decide_eq_true_2 by (apply elem_of_dom; eauto).
      now apply firstPageOf_lookup.
    + rewrite bool_decide_eq_false_2 by (now apply not_elem_of_dom). now rewrite Hlast.
  - apply last_is_None in Hlast. pose proof Hlast as Hno. apply eventsOfKey_nil in Hno.
    destruct (firstPageOf st !! k) as [old |] eqn:Hold.
    + rewrite bool_decide_eq_true_2; [reflexivity |].
      rewrite staleRows_keys. split; [apply elem_of_dom; eauto | assumption].
    + apply not_elem_of_dom in Hold.
      rewrite bool_decide_eq_false_2 by (rewrite staleRows_keys; tauto).
      rewrite bool_decide_eq_false_2 by assumption. now rewrite Hlast.
Qed.

Lemma table_after_successful_run_witness :
  exists report st',
    processEvents sampleNow sampleEvents pagedStore = (inr report, st') /\
    table st' !! theKey staleEarly = None /\
    table st' !! theKey staleLate = Some (itemOf staleLate) /\
    table st' !! theKey (mkEvent day20250405 "Schulfest")
    = Some (itemOf (mkEvent day20250405 "Schulfest")).
Proof.
  destruct (processEvents sampleNow sampleEvents pagedStore) as [[err | report] st']
    eqn:Hrun.
  - exfalso. vm_compute in Hrun. discriminate Hrun.
  - exists report, st'. split; [reflexivity |].
    pose proof (table_after_successful_run _ _ _ _ _ (theKey staleEarly) Hrun) as Hgone.
    pose proof (table_after_successful_run _ _ _ _ _ (theKey staleLate) Hrun) as Hstays.
    pose proof (table_after_successful_run _ _ _ _ _
                  (theKey (mkEvent day20250405 "Schulfest")) Hrun) as Hnew.
    split; [| split].
    + rewrite Hgone. vm_compute. reflexivity.
    + rewrite Hstays. vm_compute. reflexivity.
    + rewrite Hnew. vm_compute. reflexivity.
Defined.

Lemma replay_elsewhere (made : list (Request * bool)) (t : gmap string Item) (k : string) :
  Forall (fun x => requestKey (fst x) <> Some k) made ->
  replay made t !! k = t !! k.
Proof.
  intros Hno. revert t. induction Hno as [| [rq b] made Hrq _ IH]; intros t; [reflexivity |].
  cbn [replay fold_left] in *. rewrite IH. cbn [fst snd] in *.
  destruct b; [| reflexivity]. destruct rq as [| row | key]; cbn in *.
  - reflexivity.
  - apply lookup_insert_ne. congruence.
  - apply lookup_delete_ne. congruence.
Qed.

Lemma plan_spares_kept_keys (t : gmap string Item) (events : list Event) (k : string) :
  k ∈ dom t -> k ∈ theKey <$> events ->
  Forall (fun rq => requestKey rq <> Some k) (plannedRequests t events).
Proof.
  intros Hdom Hcur. unfold plannedRequests. constructor; [discriminate |].
  apply Forall_app. split; apply Forall_fmap, List.Forall_forall; intros x Hx; cbn.
  - unfold newEvents in Hx. apply filter_In in Hx as [_ Hx].
    apply bool_decide_eq_true_1 in Hx. congruence.
  - intros [= Hk]. assert (Hin : k ∈ EventKey <$> staleRows t events).
    { rewrite <- Hk. apply list_elem_of_fmap. exists x.
      split; [reflexivity | now apply list_elem_of_In]. }
    apply staleRows_keys in Hin. tauto.
Qed.

(** X6. A key that the scan returned (it is on the first page of the
    snapshot) and that a current event has is left alone by the run, failed
    or not: no request names it and its item stays as it was; the event is
    not reported as added. Since the key has only the first eight
    hexadecimal digits of the checksum, this is also what happens to an
    event whose description differs from the stored one but collides with
    it in these digits: the change goes unnoticed. *)
Theorem stored_key_is_left_alone (now : Time) (events : list Event) (st : Dynamo)
    (e : Event) (old : Item) :
  e ∈ events ->
  firstPageOf st !! theKey e = Some old ->
  let out := processEvents now events st in
  (exists made, trace (snd out) = trace st ++ made /\
     Forall (fun x => requestKey (fst x) <> Some (theKey e)) made) /\
  table (snd out) !! theKey e = Some old /\
  (forall report, fst out = inr report -> e ∉ AddedEvents report).
Proof.
  intros He Hold out. subst out.
  assert (Hdom : theKey e ∈ dom (firstPageOf st)) by (apply elem_of_dom; eauto).
  assert (Hcur : theKey e ∈ theKey <$> events).
  { apply list_elem_of_fmap. now exists e. }
  destruct (traced_processEvents now events st) as (made & Htr & _ & _ & Htb & _).
  destruct (follows_processEvents now events st) as (made' & Htr' & Hplan).
  rewrite Htr in Htr'. apply app_inv_head in Htr'. subst made'.
  assert (Hspare : Forall (fun x => requestKey (fst x) <> Some (theKey e)) made).
  { pose proof (plan_spares_kept_keys _ _ _ Hdom Hcur) as Hall.
    assert (Hpre : exists rest,
               plannedRequests (firstPageOf st) events = (fst <$> made) ++ rest).
    { destruct (fst (processEvents now events st)); [assumption |].
      exists []. now rewrite app_nil_r. }
    destruct Hpre as [rest Hpre]. rewrite Hpre in Hall.
    apply Forall_app in Hall as [Hall _]. rewrite Forall_forall in Hall.
    apply Forall_forall. intros x Hx. apply Hall, list_elem_of_fmap. now exists x. }
  split; [exists made; now split |]. split.
  - rewrite Htb, replay_elsewhere by assumption. now apply firstPageOf_lookup.
  - intros report Hres.
    destruct (processEvents now events st) as [res st'] eqn:Hrun. cbn in Hres. subst res.
    apply processEvents_ok in Hrun as (_ & _ & -> & _).
    intros Hin % list_elem_of_In. apply filter_In in Hin as [_ Hin].
    now apply bool_decide_eq_true_1 in Hin.
Qed.

Lemma stored_key_is_left_alone_witness :
  let out := processEvents sampleNow [room113390] collidingStore in
  theKey room113390 = "20250310_732d8569"%string /\
  firstPageOf collidingStore !! theKey room113390 = Some (itemOf room3597) /\
  table (snd out) !! theKey room113390 = Some (itemOf room3597) /\
  trace (snd out) = [(Scan, true)] /\
  exists report, fst out = inr report /\
    AddedCount report = 0%nat /\ DeletedCount report = 0%nat.
Proof.
  cbv zeta.
  assert (Hin : room113390 ∈ [room113390]) by (apply elem_of_cons; now left).
  assert (Hold : firstPageOf collidingStore !! theKey room113390 = Some (itemOf room3597))
    by (vm_compute; reflexivity).
  destruct (stored_key_is_left_alone sampleNow _ _ _ _ Hin Hold) as (_ & Hkept & _).
  split; [vm_compute; reflexivity |]. split; [exact Hold |]. split; [exact Hkept |].
  split; [vm_compute; reflexivity |].
  eexists. split; [vm_compute; reflexivity |]. split; reflexivity.
Defined.

(** * The earlier version of the differ *)

Lemma mapResult_bind {A B A' B'} (f : A -> A') (g : B -> B')
    (m : Run A) (m' : Run A') (k : A -> Run B) (k' : A' -> Run B') (st : Dynamo) :
  m' st = mapResult f (m st) ->
  (forall a st1, k' (f a) st1 = mapResult g (k a st1)) ->
  (x <- m' ;; k' x) st = mapResult g ((x <- m ;; k x) st).
Proof.
  intros Hm Hk. unfold bind. rewrite Hm. unfold mapResult at 1.
  destruct (m st) as [[err | a] st1]; cbn [fst snd]; [reflexivity | apply Hk].
Qed.

Lemma mapResult_id {A} (out : (error + A) * Dynamo) : out = mapResult (fun a => a) out.
Proof. now destruct out as [[err | a] st]. Qed.

Lemma earlier_processCurrent existingMap now cutoff events acc st :
  Earlier.processCurrent existingMap events (currentMap acc) (added acc) st
  = mapResult (fun cur => (currentMap cur, added cur))
              (processCurrent existingMap now cutoff events acc st).
Proof.
  revert acc st. induction events as [| e events IH]; intros acc st;
    cbn [Earlier.processCurrent processCurrent]; [reflexivity |].
  destruct (generateEventKey _ _) as [eventKey |]; [| reflexivity].
  apply (mapResult_bind (fun a => a)); [apply mapResult_id |].
  intros added' st1. apply (IH (mkCurrent _ _ _)).
Qed.

(** X7. The upcoming window that the later version added to
    [processEvents] changed nothing else: for every snapshot, extraction,
    failure schedule and clock, the earlier version (without the window)
    makes the same requests, leaves the same store and returns the same
    error or the same deleted and added lists and counts. *)
Theorem earlier_differ_agrees (now : Time) (events : list Event) (st : Dynamo) :
  Earlier.processEvents events st
  = mapResult withoutUpcoming (processEvents now events st).
Proof.
  unfold Earlier.processEvents, processEvents.
  apply (mapResult_bind (fun a => a)); [apply mapResult_id |].
  intros existing st1.
  apply (mapResult_bind (fun cur => (currentMap cur, added cur)));
    [apply (earlier_processCurrent _ _ _ _ (mkCurrent _ _ _)) |].
  intros cur st2. cbn [fst snd].
  apply (mapResult_bind (fun a => a)); [apply mapResult_id |].
  intros deleted st3. reflexivity.
Qed.

(** * The normal form of [cleanText] *)

Lemma runes_of_cleanText (s : string) :
  exists L, Utf8.runesOf (list_ascii_of_string (cleanText s)) = L /\
            list_ascii_of_string (cleanText s) = flat L /\
            okToks L /\ collapsed false L /\ trimmed L.
Proof.
  destruct (cleanBytes_normal (list_ascii_of_string s)) as (L & HL & Hok & Hc & Ht).
  exists L. unfold cleanText. rewrite list_ascii_of_string_of_list_ascii, HL.
  rewrite runesOf_flat by assumption. auto.
Qed.

Lemma collapsed_lookup (b : bool) (L : list token) (i : nat) (t : token) :
  collapsed b L -> L !! i = Some t -> Utf8.reSpace (fst t) = true ->
  t = SP /\ forall t', L !! S i = Some t' -> Utf8.reSpace (fst t') = false.
Proof.
  revert b i. induction L as [| u L IH]; intros b i Hc Hi Hsp; [discriminate |].
  destruct i as [| i]; cbn in Hi.
  - injection Hi as ->. cbn [collapsed] in Hc. rewrite Hsp in Hc.
    destruct Hc as (_ & -> & Hc). split; [reflexivity |].
    intros t' Ht'. destruct L as [| v L]; [discriminate |]. cbn in Ht'.
    injection Ht' as ->. cbn [collapsed] in Hc.
    destruct (Utf8.reSpace (fst t')); [| reflexivity]. now destruct Hc.
  - cbn [collapsed] in Hc. destruct (Utf8.reSpace (fst u)).
    + destruct Hc as (_ & _ & Hc). exact (IH _ _ Hc Hi Hsp).
    + exact (IH _ _ Hc Hi Hsp).
Qed.

Lemma head_rev_last {A} (l : list A) : head (rev l) = last l.
Proof.
  induction l as [| x l _] using rev_ind; [reflexivity |].
  now rewrite rev_app_distr, last_snoc.
Qed.

(** X8. The result of [cleanText], read rune by rune: it neither begins
    nor ends with white space (as [unicode.IsSpace] defines it), and every
    rune of the class [\s\p{Zs}] in it is a single ASCII space that is
    followed by no other rune of that class. This holds for every byte
    string, invalid UTF-8 included. *)
Theorem cleanText_normal_form (s : string) :
  let rs := Utf8.runesOf (list_ascii_of_string (cleanText s)) in
  (forall t, head rs = Some t -> Utf8.IsSpace (fst t) = false) /\
  (forall t, last rs = Some t -> Utf8.IsSpace (fst t) = false) /\
  (forall i t, rs !! i = Some t -> Utf8.reSpace (fst t) = true ->
     t = SP /\ forall t', rs !! S i = Some t' -> Utf8.reSpace (fst t') = false).
Proof.
  cbv zeta. destruct (runes_of_cleanText s) as (L & -> & _ & _ & Hc & Hfront & Hback).
  split; [| split].
  - intros t Ht. apply dropSpace_fixed in Hfront. destruct L; [discriminate |].
    cbn in Ht. now injection Ht as ->.
  - intros t Ht. apply dropSpace_fixed in Hback. rewrite <- head_rev_last in Ht.
    destruct (rev L); [discriminate |]. cbn in Ht. now injection Ht as ->.
  - intros i t. now apply (collapsed_lookup false).
Qed.

Lemma reSpace_IsSpace (r : Z) : Utf8.reSpace r = true -> Utf8.IsSpace r = true.
Proof.
  unfold Utf8.reSpace, Utf8.isZs, Utf8.IsSpace.
  rewrite ?orb_true_iff, ?andb_true_iff, ?Z.eqb_eq, ?Z.leb_le. lia.
Qed.

Lemma dropSpace_nil (L : list token) :
  Strings.dropSpace L = [] <-> Forall (fun t => Utf8.IsSpace (fst t) = true) L.
Proof.
  induction L as [| t L IH]; [split; [constructor | reflexivity] |].
  cbn [Strings.dropSpace]. destruct (Utf8.IsSpace (fst t)) eqn:Ht.
  - rewrite IH. split; [now constructor | now inversion 1].
  - split; [discriminate |]. inversion 1; congruence.
Qed.

Lemma trimT_nil (L : list token) :
  trimT L = [] <-> Forall (fun t => Utf8.IsSpace (fst t) = true) L.
Proof.
  unfold trimT. rewrite <- dropSpace_nil. split.
  - intros H. apply (f_equal (@rev token)) in H. rewrite rev_involutive in H. cbn in H.
    apply dropSpace_nil in H. apply Forall_rev in H. rewrite rev_involutive in H.
    apply dropSpace_nil in H. now rewrite dropSpace_idem in H.
  - now intros ->.
Qed.

Lemma collapseT_space (b : bool) (L : list token) :
  Forall (fun t => Utf8.IsSpace (fst t) = true) (collapseT b L)
  <-> Forall (fun t => Utf8.IsSpace (fst t) = true) L.
Proof.
  revert b. induction L as [| t L IH]; intros b; [reflexivity |].
  cbn [collapseT]. destruct (Utf8.reSpace (fst t)) eqn:Ht.
  - apply reSpace_IsSpace in Ht. rewrite Forall_app, IH, (Forall_cons _ t L).
    assert (Hsp : Forall (fun t => Utf8.IsSpace (fst t) = true) (if b then [] else [SP])).
    { destruct b; repeat constructor. }
    tauto.
  - rewrite !Forall_cons, IH. reflexivity.
Qed.

Lemma flat_nil (L : list token) : okToks L -> flat L = [] -> L = [].
Proof.
  destruct L as [| [r raw] L]; [reflexivity |]. cbn [okToks snd]. intros (Hne & _) H.
  change (flat ((r, raw) :: L)) with (raw ++ flat L) in H.
  destruct raw; [contradiction | discriminate].
Qed.

Lemma replaceFrom_nil (old new s : list ascii) :
  new <> [] -> Strings.replaceFrom old new 0 s = [] -> s = [].
Proof.
  intros Hnew. destruct s as [| c s]; [reflexivity |]. cbn [Strings.replaceFrom].
  destruct (Strings.hasPrefix old (c :: s)); [| discriminate].
  destruct new; [contradiction | discriminate].
Qed.

(** X9. [cleanText] gives the empty string exactly for the texts that
    consist of white space only (every rune satisfies [unicode.IsSpace]),
    the empty text among them. *)
Theorem cleanText_empty_iff (s : string) :
  cleanText s = ""%string
  <-> Forall (fun t => Utf8.IsSpace (fst t) = true)
             (Utf8.runesOf (list_ascii_of_string s)).
Proof.
  set (bytes := list_ascii_of_string s).
  assert (Hclean : cleanBytes bytes
                   = RA (flat (trimT (collapseT false (Utf8.runesOf bytes))))).
  { unfold cleanBytes, Strings.ReplaceAllSpace. rewrite collapse_flat.
    rewrite TrimSpace_runes by apply okToks_collapseT, okToks_runesOf. reflexivity. }
  pose proof (okToks_runesOf bytes) as H0.
  destruct (okToks_collapseT false _ H0) as [H1 _].
  pose proof (okToks_trimT _ H1) as H2.
  rewrite <- (collapseT_space false), <- trimT_nil.
  unfold cleanText. fold bytes. rewrite Hclean. split.
  - intros H. apply (f_equal list_ascii_of_string) in H.
    rewrite list_ascii_of_string_of_list_ascii in H. cbn in H.
    apply replaceFrom_nil in H; [| discriminate]. now apply flat_nil.
  - now intros ->.
Qed.

Lemma length_flat_cons (t : token) (L : list token) :
  length (flat (t :: L)) = (length (snd t) + length (flat L))%nat.
Proof. unfold flat. cbn. apply length_app. Qed.

Lemma length_collapseT (b : bool) (L : list token) :
  okToks L -> (length (flat (collapseT b L)) <= length (flat L))%nat.
Proof.
  revert b. induction L as [| t L IH]; intros b Hok; [constructor |].
  pose proof (okToks_tail _ _ Hok) as Hok'. destruct Hok as (Hne & _).
  cbn [collapseT]. rewrite length_flat_cons. destruct (Utf8.reSpace (fst t)).
  - specialize (IH true Hok'). destruct (snd t); [contradiction |].
    destruct b; cbn [app]; [| rewrite length_flat_cons]; cbn [length SP snd]; lia.
  - specialize (IH false Hok'). rewrite length_flat_cons. lia.
Qed.

Lemma length_flat_app (L1 L2 : list token) :
  length (flat (L1 ++ L2)) = (length (flat L1) + length (flat L2))%nat.
Proof.
  induction L1 as [| t L1 IH]; [reflexivity |].
  cbn [app]. rewrite !length_flat_cons, IH. lia.
Qed.

Lemma length_flat_rev (L : list token) : length (flat (rev L)) = length (flat L).
Proof.
  induction L as [| t L IH]; [reflexivity |].
  cbn [rev]. rewrite length_flat_app, !length_flat_cons, IH. cbn. lia.
Qed.

Lemma length_dropSpace (L : list token) :
  (length (flat (Strings.dropSpace L)) <= length (flat L))%nat.
Proof.
  destruct (dropSpace_split L) as (front & Hsplit & _).
  rewrite Hsplit at 2. rewrite length_flat_app. lia.
Qed.

Lemma length_trimT (L : list token) : (length (flat (trimT L)) <= length (flat L))%nat.
Proof.
  unfold trimT. rewrite length_flat_rev.
  etransitivity; [apply length_dropSpace |]. rewrite length_flat_rev.
  apply length_dropSpace.
Qed.

Lemma length_replaceFrom (k : nat) (s : list ascii) :
  (length (Strings.replaceFrom spacedEnDash spacedHyphen k s) + Nat.min k (length s)
   <= length s)%nat.
Proof.
  revert k. induction s as [| c s IH]; intros k; [cbn; lia |].
  cbn [Strings.replaceFrom]. destruct k as [| k].
  - destruct (Strings.hasPrefix spacedEnDash (c :: s)) eqn:Hp.
    + apply hasPrefix_spec in Hp as [b Hb]. specialize (IH 4%nat).
      apply (f_equal (@length ascii)) in Hb. rewrite length_app in Hb.
      cbn [length spacedEnDash] in Hb. rewrite length_app.
      cbn [length spacedEnDash spacedHyphen Nat.sub]. cbn [length] in IH. lia.
    + specialize (IH 0%nat). cbn [length]. lia.
  - specialize (IH k). cbn [length]. lia.
Qed.

Lemma length_of_string (l : list ascii) :
  String.length (string_of_list_ascii l) = length l.
Proof. induction l as [| c l IH]; [reflexivity |]. cbn. now rewrite IH. Qed.

Lemma length_of_bytes (s : string) :
  length (list_ascii_of_string s) = String.length s.
Proof. induction s as [| c s IH]; [reflexivity |]. cbn. now rewrite IH. Qed.

(** X10. [cleanText] never makes a text longer: the result has at most as
    many bytes as the argument. *)
Theorem cleanText_not_longer (s : string) :
  (String.length (cleanText s) <= String.length s)%nat.
Proof.
  unfold cleanText. rewrite length_of_string, <- length_of_bytes.
  set (bytes := list_ascii_of_string s).
  pose proof (okToks_runesOf bytes) as H0.
  destruct (okToks_collapseT false _ H0) as [H1 _].
  unfold cleanBytes, Strings.ReplaceAllSpace. rewrite collapse_flat.
  rewrite TrimSpace_runes by assumption. unfold Strings.ReplaceAll.
  pose proof (length_replaceFrom 0 (flat (trimT (collapseT false (Utf8.runesOf bytes))))).
  pose proof (length_trimT (collapseT false (Utf8.runesOf bytes))).
  pose proof (length_collapseT false _ H0).
  rewrite flat_runesOf in *. lia.
Qed.

(** * The body of the mail *)

Lemma replaceFrom_skip (old new : list ascii) (k : nat) (s : list ascii) :
  Strings.replaceFrom old new k s = Strings.replaceFrom old new 0 (drop k s).
Proof.
  revert k. induction s as [| c s IH]; intros k; [now destruct k |].
  destruct k as [| k]; [reflexivity |]. cbn [Strings.replaceFrom drop]. apply IH.
Qed.

Lemma ReplaceAll_first (old new s : list ascii) :
  old <> [] ->
  Strings.ReplaceAll s old new
  = match indexOf old s with
    | Some n => take n s ++ new ++ Strings.ReplaceAll (drop (n + length old) s) old new
    | None => s
    end.
Proof.
  intros Hold. unfold Strings.ReplaceAll. induction s as [| c s IH].
  - cbn. destruct old; [contradiction | reflexivity].
  - cbn [Strings.replaceFrom indexOf].
    destruct (Strings.hasPrefix old (c :: s)) eqn:Hp.
    + rewrite replaceFrom_skip. cbn [take app Nat.add].
      destruct old as [| o old]; [contradiction |]. cbn [length Nat.sub drop].
      now rewrite Nat.sub_0_r.
    + rewrite IH. destruct (indexOf old s) as [n |]; reflexivity.
Qed.

Lemma bytes_app (a b : string) :
  list_ascii_of_string (a +:+ b) = list_ascii_of_string a ++ list_ascii_of_string b.
Proof.
  induction a as [| c a IH]; [reflexivity |].
  change (String c a +:+ b) with (String c (a +:+ b)). cbn. now rewrite IH.
Qed.

Lemma append_empty (a : string) : a +:+ "" = a.
Proof.
  induction a as [| c a IH]; [reflexivity |].
  change (String c a +:+ "") with (String c (a +:+ "")). now rewrite IH.
Qed.

Lemma append_assoc3 (a b c : string) : (a +:+ b) +:+ c = a +:+ (b +:+ c).
Proof.
  induction a as [| x a IH]; [reflexivity |].
  change (String x a +:+ b) with (String x (a +:+ b)).
  change (String x (a +:+ b) +:+ c) with (String x ((a +:+ b) +:+ c)). now rewrite IH.
Qed.

Lemma string_app (a b : list ascii) :
  string_of_list_ascii (a ++ b) = string_of_list_ascii a +:+ string_of_list_ascii b.
Proof.
  induction a as [| c a IH]; [reflexivity |]. cbn [app string_of_list_ascii].
  rewrite IH. reflexivity.
Qed.

Lemma ReplaceAllS_once (ph tpl new : string) :
  ph <> ""%string -> occursOnce ph tpl = true ->
  ReplaceAllS tpl ph new = fst (cut ph tpl) +:+ new +:+ snd (cut ph tpl).
Proof.
  intros Hph Honce. unfold occursOnce, cut, ReplaceAllS in *.
  assert (Hne : list_ascii_of_string ph <> []) by (destruct ph; [contradiction | discriminate]).
  rewrite ReplaceAll_first by assumption.
  destruct (indexOf _ _) as [n |]; [| discriminate]. apply bool_decide_eq_true_1 in Honce.
  rewrite length_of_bytes. rewrite (ReplaceAll_first _ _ (drop _ _)) by assumption.
  rewrite Honce. cbn [fst snd].
  now rewrite !string_app, string_of_list_ascii_of_string.
Qed.

Lemma listItem_nonempty (e : Event) : listItem e <> ""%string.
Proof. discriminate. Qed.

Lemma append_items (events : list Event) (acc : string) :
  fold_left (fun acc event => acc +:+ listItem event) events acc
  = acc +:+ itemsOf events.
Proof.
  unfold itemsOf. revert acc. induction events as [| e events IH]; intros acc.
  - cbn. now rewrite append_empty.
  - cbn [fold_left fmap list_fmap]. rewrite IH. fold (listItem <$> events).
    assert (Hcons : forall x l, String.concat "" (x :: l) = x +:+ String.concat "" l).
    { intros x [| y l]; cbn [String.concat]; [now rewrite append_empty | reflexivity]. }
    rewrite Hcons. apply append_assoc3.
Qed.

Lemma section_of_template (title items : string) :
  title = changedTitle \/ title = upcomingTitle ->
  ReplaceAllS (ReplaceAllS listTemplate "{title_list}" title) "{list_items}" items
  = section title items.
Proof.
  intros [-> | ->].
  - rewrite (ReplaceAllS_once "{list_items}") by (discriminate || (vm_compute; reflexivity)).
    unfold section.
    replace (fst (cut "{list_items}" (ReplaceAllS listTemplate "{title_list}" changedTitle)))
      with (fst (cut "{title_list}" listTemplate) +:+ changedTitle +:+
            fst (cut "{list_items}" (snd (cut "{title_list}" listTemplate))))
      by (vm_compute; reflexivity).
    replace (snd (cut "{list_items}" (ReplaceAllS listTemplate "{title_list}" changedTitle)))
      with (snd (cut "{list_items}" (snd (cut "{title_list}" listTemplate))))
      by (vm_compute; reflexivity).
    destruct (cut "{title_list}" listTemplate) as [head rest]. cbn [fst snd].
    destruct (cut "{list_items}" rest) as [middle tail]. cbn [fst snd].
    now rewrite !append_assoc3.
  - rewrite (ReplaceAllS_once "{list_items}") by (discriminate || (vm_compute; reflexivity)).
    unfold section.
    replace (fst (cut "{list_items}" (ReplaceAllS listTemplate "{title_list}" upcomingTitle)))
      with (fst (cut "{title_list}" listTemplate) +:+ upcomingTitle +:+
            fst (cut "{list_items}" (snd (cut "{title_list}" listTemplate))))
      by (vm_compute; reflexivity).
    replace (snd (cut "{list_items}" (ReplaceAllS listTemplate "{title_list}" upcomingTitle)))
      with (snd (cut "{list_items}" (snd (cut "{title_list}" listTemplate))))
      by (vm_compute; reflexivity).
    destruct (cut "{title_list}" listTemplate) as [head rest]. cbn [fst snd].
    destruct (cut "{list_items}" rest) as [middle tail]. cbn [fst snd].
    now rewrite !append_assoc3.
Qed.

Lemma itemsOf_empty (events : list Event) : itemsOf events = ""%string <-> events = [].
Proof.
  split; [| now intros ->]. destruct events as [| e events]; [reflexivity |].
  intros H. apply (f_equal list_ascii_of_string) in H. unfold itemsOf in H.
  cbn [fmap list_fmap] in H. fold (listItem <$> events) in H.
  destruct (listItem <$> events) as [| y l]; cbn [String.concat] in H.
  - unfold listItem in H. rewrite bytes_app in H. discriminate H.
  - unfold listItem in H. rewrite !bytes_app in H. discriminate H.
Qed.

(** X11. The body of the mail is the mail template with, in place of its
    placeholder, the list of the changed entries followed by the list of the
    upcoming entries. The changed list is there only if addedCount > 0 and
    addedEvents is not empty; the upcoming list is always there, also with
    no item. An item is the date as DD.MM.YYYY and the description, which
    is copied as it is: it is not escaped for HTML, and a placeholder
    inside a description is not expanded. The parts are those of the two
    templates: each template is its parts around its placeholders. *)
Theorem createBody_structure (report : ChangeReport) :
  createBody report
  = bodyHead +:+
    (match AddedEvents report with
     | [] => ""
     | _ :: _ =>
         if (0 <? AddedCount report)%nat
         then section changedTitle (itemsOf (AddedEvents report))
         else ""
     end) +:+
    section upcomingTitle (itemsOf (UpcomingEvents report)) +:+
    bodyTail /\
  emailTemplate = bodyHead +:+ "{list_placeholder}" +:+ bodyTail /\
  listTemplate = section "{title_list}" "{list_items}".
Proof.
  split; [| split; vm_compute; reflexivity].
  unfold createBody. rewrite !append_items.
  change (""%string +:+ itemsOf (AddedEvents report)) with (itemsOf (AddedEvents report)).
  change (""%string +:+ itemsOf (UpcomingEvents report))
    with (itemsOf (UpcomingEvents report)).
  rewrite (ReplaceAllS_once "{list_placeholder}")
    by (discriminate || (vm_compute; reflexivity)).
  fold bodyHead bodyTail. fold changedTitle upcomingTitle.
  rewrite !section_of_template by tauto.
  destruct (AddedEvents report) as [| e added] eqn:Hadded.
  - rewrite bool_decide_eq_false_2; [reflexivity |]. intros H. now apply H.
  - rewrite bool_decide_eq_true_2 by (rewrite itemsOf_empty; discriminate).
    destruct (0 <? AddedCount report)%nat; [| reflexivity].
    now rewrite append_assoc3.
Qed.


(** * The calendar: dates, their fields and their digits *)

Lemma allFrom_spec (P : Z -> bool) (z : Z) (n : nat) :
  allFrom P z n = true -> forall x, z <= x < z + Z.of_nat n -> P x = true.
Proof.
  revert z. induction n as [| n IH]; intros z H x Hx; [lia |].
  cbn [allFrom] in H. apply andb_true_iff in H as [Hz Hrest].
  destruct (decide (x = z)) as [-> | Hne]; [assumption |].
  apply (IH (z + 1)); [assumption | lia].
Qed.

Lemma era_checked :
  allFrom (fun y => allFrom (fun m => allFrom (dateFoundAgain y m) 1 31) 1 12) 0 400 = true.
Proof. vm_compute. reflexivity. Qed.

Lemma daysFromCivil_era (y m d k : Z) :
  GoTime.daysFromCivil (y + 400 * k) m d = GoTime.daysFromCivil y m d + 146097 * k.
Proof.
  unfold GoTime.daysFromCivil.
  replace (if m <=? 2 then y + 400 * k - 1 else y + 400 * k)
    with ((if m <=? 2 then y - 1 else y) + k * 400) by (destruct (m <=? 2); lia).
  generalize (if m <=? 2 then y - 1 else y). intros y'. cbv zeta.
  rewrite Z.div_add by lia.
  replace (y' + k * 400 - (y' / 400 + k) * 400) with (y' - y' / 400 * 400) by lia.
  lia.
Qed.

Lemma civilFromDays_era (z k : Z) :
  GoTime.civilFromDays (z + 146097 * k)
  = (fst (fst (GoTime.civilFromDays z)) + 400 * k,
     snd (fst (GoTime.civilFromDays z)), snd (GoTime.civilFromDays z)).
Proof.
  unfold GoTime.civilFromDays.
  replace (z + 146097 * k + 719468) with (z + 719468 + k * 146097) by lia.
  rewrite Z.div_add by lia.
  replace (z + 719468 + k * 146097 - ((z + 719468) / 146097 + k) * 146097)
    with (z + 719468 - (z + 719468) / 146097 * 146097) by lia.
  cbv zeta. cbn [fst snd].
  destruct (_ <=? 2); f_equal; f_equal; lia.
Qed.

Lemma daysIn_era (m y k : Z) : GoTime.daysIn m (y + 400 * k) = GoTime.daysIn m y.
Proof.
  unfold GoTime.daysIn, GoTime.isLeap.
  replace (y + 400 * k) with (y + (100 * k) * 4) at 1 by lia.
  replace (y + 400 * k) with (y + (4 * k) * 100) at 1 by lia.
  replace (y + 400 * k) with (y + k * 400) by lia.
  now rewrite !Z.mod_add by lia.
Qed.

Lemma civilFromDays_daysFromCivil (y m d : Z) :
  1 <= m <= 12 -> 1 <= d <= GoTime.daysIn m y ->
  GoTime.civilFromDays (GoTime.daysFromCivil y m d) = (y, m, d).
Proof.
  intros Hm Hd.
  assert (Hy : exists y0 k, y = y0 + 400 * k /\ 0 <= y0 < 400).
  { exists (y mod 400), (y / 400). pose proof (Z.div_mod y 400).
    pose proof (Z.mod_pos_bound y 400). lia. }
  destruct Hy as (y0 & k & -> & Hy0). rewrite daysIn_era in Hd.
  rewrite daysFromCivil_era, civilFromDays_era.
  assert (Hd31 : d <= 31).
  { unfold GoTime.daysIn in Hd.
    destruct (m =? 2), (GoTime.isLeap y0), ((m =? 4) || (m =? 6) || (m =? 9) || (m =? 11));
      lia. }
  pose proof (allFrom_spec _ _ _ era_checked y0 ltac:(lia)) as Hc. cbv beta in Hc.
  pose proof (allFrom_spec _ _ _ Hc m ltac:(lia)) as Hc'. cbv beta in Hc'.
  pose proof (allFrom_spec _ _ _ Hc' d ltac:(lia)) as Hc''.
  unfold dateFoundAgain in Hc''.
  apply orb_true_iff in Hc'' as [Hc'' | Hc'']; [apply Z.ltb_lt in Hc''; lia |].
  destruct (GoTime.civilFromDays (GoTime.daysFromCivil y0 m d)) as [[y' m'] d'].
  cbn [fst snd]. apply andb_true_iff in Hc'' as [Hc'' H3].
  apply andb_true_iff in Hc'' as [H1 H2].
  apply Z.eqb_eq in H1, H2, H3. now subst.
Qed.

Lemma Parse_inv (s : string) (t : Time) :
  GoTime.Parse s = Some t ->
  exists a b c d e f g h,
    list_ascii_of_string s = [a; b; c; d; e; f; g; h] /\
    Forall (fun x => isDigitChar x = true) [a; b; c; d; e; f; g; h] /\
    1 <= twoDigits e f <= 12 /\
    1 <= twoDigits g h <= GoTime.daysIn (twoDigits e f) (yearOf a b c d) /\
    t = GoTime.Date (yearOf a b c d) (twoDigits e f) (twoDigits g h) 0.
Proof.
  unfold GoTime.Parse. generalize (list_ascii_of_string s). intros v.
  destruct v as [| a [| b [| c [| d v]]]]; try discriminate.
  cbn [length Nat.ltb Nat.leb orb take GoTime.atoi drop].
  unfold GoTime.isDigit at 1. cbn [lookup list_lookup].
  fold (isDigitChar a). fold (isDigitChar b). fold (isDigitChar c). fold (isDigitChar d).
  destruct (isDigitChar a) eqn:Ha; [| discriminate]. cbn [negb].
  destruct (isDigitChar b) eqn:Hb; [| discriminate].
  destruct (isDigitChar c) eqn:Hc; [| discriminate].
  destruct (isDigitChar d) eqn:Hd; [| discriminate].
  rewrite take_0, drop_0. cbn [GoTime.atoi].
  unfold GoTime.getnum at 1, GoTime.isDigit.
  destruct v as [| e [| f v]]; cbn [lookup list_lookup andb]; try discriminate.
  { destruct (_ && _); discriminate. }
  fold (isDigitChar e). fold (isDigitChar f).
  destruct (isDigitChar e) eqn:He; cbn [andb]; [| discriminate].
  destruct (isDigitChar f) eqn:Hf; [| discriminate].
  fold (twoDigits e f).
  destruct ((twoDigits e f <=? 0) || (12 <? twoDigits e f)) eqn:Hm; [discriminate |].
  unfold GoTime.getnum, GoTime.isDigit.
  destruct v as [| g [| h v]]; cbn [lookup list_lookup andb]; try discriminate.
  { destruct (_ && _); discriminate. }
  fold (isDigitChar g). fold (isDigitChar h).
  destruct (isDigitChar g) eqn:Hg; cbn [andb]; [| discriminate].
  destruct (isDigitChar h) eqn:Hh; [| discriminate].
  destruct v; [| discriminate]. fold (twoDigits g h).
  replace (((0 * 10 + GoTime.digitVal a) * 10 + GoTime.digitVal b) * 10
           + GoTime.digitVal c) with
    ((GoTime.digitVal a * 10 + GoTime.digitVal b) * 10 + GoTime.digitVal c) by lia.
  fold (yearOf a b c d).
  destruct ((twoDigits g h <? 1) || _) eqn:Hday; [discriminate |].
  intros [= <-]. exists a, b, c, d, e, f, g, h.
  apply orb_false_iff in Hm as [Hm1 Hm2], Hday as [Hd1 Hd2].
  apply Z.leb_gt in Hm1. apply Z.ltb_ge in Hm2, Hd1, Hd2.
  repeat split; try lia. repeat constructor; assumption.
Qed.

Lemma appendInt_four_checked :
  allFrom (fun n => sameText (GoTime.appendInt n 4) (fourDigitsOf n)) 0 (Z.to_nat 10000) = true.
Proof. vm_compute. reflexivity. Qed.

Lemma appendInt_two_checked :
  allFrom (fun n => sameText (GoTime.appendInt n 2) (twoDigitsOf n)) 0 (Z.to_nat 100) = true.
Proof. vm_compute. reflexivity. Qed.

Lemma appendInt_four (n : Z) :
  0 <= n < 10000 -> GoTime.appendInt n 4 = fourDigitsOf n.
Proof.
  intros Hn. pose proof (allFrom_spec _ _ _ appendInt_four_checked n ltac:(lia)) as H.
  now apply bool_decide_eq_true_1 in H.
Qed.

Lemma appendInt_two (n : Z) : 0 <= n < 100 -> GoTime.appendInt n 2 = twoDigitsOf n.
Proof.
  intros Hn. pose proof (allFrom_spec _ _ _ appendInt_two_checked n ltac:(lia)) as H.
  now apply bool_decide_eq_true_1 in H.
Qed.

Lemma digit_char (c : ascii) :
  isDigitChar c = true ->
  0 <= GoTime.digitVal c <= 9 /\ charOf (48 + GoTime.digitVal c) = c.
Proof.
  unfold isDigitChar, GoTime.digitVal, charOf, byteOf. intros H.
  apply andb_true_iff in H as [H1 H2]. apply Z.leb_le in H1, H2.
  split; [lia |]. replace (48 + (Z.of_N (N_of_ascii c) - 48)) with (Z.of_N (N_of_ascii c)) by lia.
  now rewrite N2Z.id, ascii_N_embedding.
Qed.

Lemma fourDigitsOf_yearOf (a b c d : ascii) :
  Forall (fun x => isDigitChar x = true) [a; b; c; d] ->
  0 <= yearOf a b c d < 10000 /\ fourDigitsOf (yearOf a b c d) = [a; b; c; d].
Proof.
  intros H. inversion_clear H as [| ? ? Ha H1]. inversion_clear H1 as [| ? ? Hb H2].
  inversion_clear H2 as [| ? ? Hc H3]. inversion_clear H3 as [| ? ? Hd _].
  apply digit_char in Ha as [Ha Ha'], Hb as [Hb Hb'], Hc as [Hc Hc'], Hd as [Hd Hd'].
  unfold yearOf, fourDigitsOf.
  generalize dependent (GoTime.digitVal a). intros x Hx <-.
  generalize dependent (GoTime.digitVal b). intros y Hy <-.
  generalize dependent (GoTime.digitVal c). intros z Hz <-.
  generalize dependent (GoTime.digitVal d). intros w Hw <-.
  split; [lia |].
  repeat f_equal; Z.div_mod_to_equations; lia.
Qed.

Lemma twoDigitsOf_twoDigits (a b : ascii) :
  isDigitChar a = true -> isDigitChar b = true ->
  0 <= twoDigits a b < 100 /\ twoDigitsOf (twoDigits a b) = [a; b].
Proof.
  intros [Ha Ha'] % digit_char [Hb Hb'] % digit_char. unfold twoDigits, twoDigitsOf.
  generalize dependent (GoTime.digitVal a). intros x Hx <-.
  generalize dependent (GoTime.digitVal b). intros y Hy <-.
  split; [lia |]. repeat f_equal; Z.div_mod_to_equations; lia.
Qed.

(** [time.Date] and the accessors agree: for a date that exists and a
    time of day within the day, [Year], [Month] and [Day] of
    [Date(y, m, d, ...)] are [y], [m] and [d], in every year of the
    proleptic Gregorian calendar. *)
Lemma Date_parts (y m d clock : Z) :
  1 <= m <= 12 -> 1 <= d <= GoTime.daysIn m y -> 0 <= clock < GoTime.nanosPerDay ->
  GoTime.Year (GoTime.Date y m d clock) = y /\
  GoTime.Month (GoTime.Date y m d clock) = m /\
  GoTime.Day (GoTime.Date y m d clock) = d /\
  GoTime.clockOf (GoTime.Date y m d clock) = clock.
Proof.
  intros Hm Hd Hc. unfold GoTime.Year, GoTime.Month, GoTime.Day, GoTime.clockOf, GoTime.daysOf,
    GoTime.Date.
  assert (Hpos : 0 < GoTime.nanosPerDay) by reflexivity.
  replace ((GoTime.daysFromCivil y m d * GoTime.nanosPerDay + clock) / GoTime.nanosPerDay)
    with (GoTime.daysFromCivil y m d)
    by (rewrite Z.div_add_l, Z.div_small by lia; lia).
  rewrite civilFromDays_daysFromCivil by assumption. cbn [fst snd].
  rewrite Z.add_comm, Z.mod_add, Z.mod_small by lia. auto.
Qed.

Lemma Format_Date (a b c d e f g h : ascii) :
  Forall (fun x => isDigitChar x = true) [a; b; c; d; e; f; g; h] ->
  1 <= twoDigits e f <= 12 ->
  1 <= twoDigits g h <= GoTime.daysIn (twoDigits e f) (yearOf a b c d) ->
  GoTime.Format (GoTime.Date (yearOf a b c d) (twoDigits e f) (twoDigits g h) 0)
  = string_of_list_ascii [a; b; c; d; e; f; g; h] /\
  0 <= GoTime.Year (GoTime.Date (yearOf a b c d) (twoDigits e f) (twoDigits g h) 0) < 10000.
Proof.
  intros Hdig Hm Hd. unfold GoTime.Format.
  assert (Hc : 0 <= 0 < GoTime.nanosPerDay) by (split; [lia | reflexivity]).
  destruct (Date_parts _ _ _ 0 Hm Hd Hc) as (-> & -> & -> & _).
  assert (H4 : Forall (fun x => isDigitChar x = true) [a; b; c; d]).
  { rewrite !Forall_cons in Hdig. rewrite !Forall_cons. tauto. }
  destruct (fourDigitsOf_yearOf _ _ _ _ H4) as [Hy Hy'].
  rewrite !Forall_cons in Hdig. destruct Hdig as (_ & _ & _ & _ & He & Hf & Hg & Hh & _).
  destruct (twoDigitsOf_twoDigits _ _ He Hf) as [Hmm Hmm'].
  destruct (twoDigitsOf_twoDigits _ _ Hg Hh) as [Hdd Hdd'].
  rewrite appendInt_four, appendInt_two, appendInt_two, Hy', Hmm', Hdd' by assumption.
  split; [reflexivity | assumption].
Qed.

(** Formatting undoes parsing: a text that
    [time.Parse("20060102", ...)] accepts is eight digits, and
    [Format("20060102")] of the result gives the same text back; the year
    of the result is within 0..9999. *)
Lemma Format_after_Parse (s : string) (t : Time) :
  GoTime.Parse s = Some t ->
  GoTime.Format t = s /\ String.length s = 8%nat /\ 0 <= GoTime.Year t < 10000.
Proof.
  intros (a & b & c & d & e & f & g & h & Hs & Hdig & Hm & Hd & ->) % Parse_inv.
  destruct (Format_Date _ _ _ _ _ _ _ _ Hdig Hm Hd) as [-> Hy].
  rewrite <- Hs, string_of_list_ascii_of_string.
  split; [reflexivity |]. split; [| assumption].
  apply (f_equal (@length ascii)) in Hs. rewrite <- Hs at 1.
  clear. induction s as [| x s IH]; [reflexivity |]. cbn. now rewrite IH.
Qed.


(** * Extracted events: their keys, and marshalling *)

Lemma marshalsEvent_year (e : Event) :
  marshalsEvent e = true <-> 0 <= GoTime.Year (EventDate e) < 10000.
Proof. unfold marshalsEvent. rewrite andb_true_iff, Z.leb_le, Z.ltb_lt. reflexivity. Qed.

Lemma nodeEvent_marshals (n : Node) (e : Event) :
  nodeEvent n = Some e -> marshalsEvent e = true.
Proof.
  intros (_ & _ & v & seg & _ & _ & _ & Hparse & _) % nodeEvent_spec.
  apply Format_after_Parse in Hparse as (_ & _ & Hyear). now apply marshalsEvent_year.
Qed.

(** X12. The key of an extracted event is read off its node: the eight
    digits that end the aria-labelledby value, an underscore, and the first
    eight hexadecimal digits of the checksum of the normalised text. The
    year of its date is within 0..9999, so that [json.Marshal] accepts
    it. *)
Theorem extracted_event_key (n : Node) (e : Event) :
  nodeEvent n = Some e ->
  (exists v seg,
     lookupLast "aria-labelledby" (nodeAttr n) = Some v /\
     lastSegment v seg /\ length seg = 8%nat /\
     theKey e = string_of_list_ascii seg +:+ "_" +:+
                substring 0 8 (generateChecksum (cleanText (getTextContent n)))) /\
  marshalsEvent e = true.
Proof.
  intros He. split; [| exact (nodeEvent_marshals _ _ He)].
  apply nodeEvent_spec in He as (_ & _ & v & seg & Hv & Hseg & Hlen & Hparse & Hdesc).
  apply Format_after_Parse in Hparse as (Hformat & _).
  exists v, seg. unfold theKey. now rewrite Hformat, Hdesc.
Qed.

Lemma extracted_event_key_witness :
  exists e, nodeEvent emptyContainer = Some e /\
    theKey e = "20250310_e3b0c442"%string /\ marshalsEvent e = true.
Proof.
  destruct (nodeEvent emptyContainer) as [e |] eqn:He; [| vm_compute in He; discriminate He].
  exists e. split; [reflexivity |].
  destruct (extracted_event_key _ _ He) as [_ Hm]. split; [| exact Hm].
  vm_compute in He. injection He as <-. vm_compute. reflexivity.
Defined.

Lemma traverse_marshals (doc : Node) (e : Event) :
  e ∈ traverse doc -> marshalsEvent e = true.
Proof.
  rewrite traverse_preorder, list_elem_of_omap. intros (n & _ & Hn).
  now apply nodeEvent_marshals in Hn.
Qed.

Lemma rowsMarshal_replay (made : list (Request * bool)) (t : gmap string Item) :
  rowsMarshal t ->
  Forall (fun x => forall row, fst x = PutItem row ->
                     marshalsEvent (mkEvent (dbEventDate row) (EventDesc row)) = true) made ->
  rowsMarshal (replay made t).
Proof.
  intros Ht Hmade. revert t Ht. induction Hmade as [| [rq b] made Hrq _ IH]; intros t Ht;
    [assumption |].
  cbn [replay fold_left fst snd] in *. apply IH. destruct b; [| assumption].
  destruct rq as [| row | key]; cbn [applyRequest]; [assumption | |].
  - intros k it. destruct (decide (k = EventKey row)) as [-> | Hne].
    + rewrite lookup_insert_eq. intros [= <-]. cbn. now apply Hrq.
    + rewrite lookup_insert_ne by congruence. apply Ht.
  - intros k it. destruct (decide (k = key)) as [-> | Hne].
    + now rewrite lookup_delete_eq.
    + rewrite lookup_delete_ne by congruence. apply Ht.
Qed.

Lemma plannedRequests_marshal (t : gmap string Item) (events : list Event) :
  Forall (fun e => marshalsEvent e = true) events ->
  Forall (fun rq => forall row, rq = PutItem row ->
                      marshalsEvent (mkEvent (dbEventDate row) (EventDesc row)) = true)
         (plannedRequests t events).
Proof.
  intros Hev. unfold plannedRequests. constructor; [discriminate |].
  apply Forall_app. split; apply Forall_forall; intros rq Hrq;
    apply list_elem_of_fmap in Hrq as (x & -> & Hx); [| discriminate].
  intros row [= <-]. cbn. rewrite Forall_forall in Hev.
  unfold newEvents in Hx. apply list_elem_of_In, filter_In in Hx as [Hx _].
  destruct x as [date desc]. apply Hev. now apply list_elem_of_In.
Qed.

Lemma differ_keeps_marshalling (now : Time) (events : list Event) (st : Dynamo) :
  Forall (fun e => marshalsEvent e = true) events ->
  rowsMarshal (table st) ->
  let out := processEvents now events st in
  rowsMarshal (table (snd out)) /\
  (forall report, fst out = inr report -> marshals report = true).
Proof.
  intros Hev Ht out. subst out.
  split.
  - destruct (traced_processEvents now events st) as (made & Htr & _ & _ & -> & _).
    destruct (follows_processEvents now events st) as (made' & Htr' & Hplan).
    rewrite Htr in Htr'. apply app_inv_head in Htr'. subst made'.
    apply rowsMarshal_replay; [assumption |].
    assert (Hpre : exists rest, plannedRequests (firstPageOf st) events
                                = (fst <$> made) ++ rest).
    { destruct (fst (processEvents now events st)); [assumption |].
      exists []. now rewrite app_nil_r. }
    destruct Hpre as [rest Hpre].
    pose proof (plannedRequests_marshal (firstPageOf st) _ Hev) as Hall.
    rewrite Hpre in Hall. apply Forall_app in Hall as [Hall _].
    rewrite Forall_forall in Hall. apply Forall_forall. intros x Hx.
    apply Hall, list_elem_of_fmap. now exists x.
  - intros report Hres.
    destruct (processEvents now events st) as [res st'] eqn:Hrun.
    cbn in Hres. subst res.
    pose proof (processEvents_ok _ _ _ _ _ Hrun) as (_ & Hup & Hadd & Hdel & _).
    rewrite Forall_forall in Hev.
    unfold marshals. apply forallb_forall. intros e He.
    apply in_app_or in He as [He | He]; [| apply in_app_or in He as [He | He]].
    + rewrite Hdel in He. apply list_elem_of_In, list_elem_of_fmap in He as (r & -> & Hr).
      apply list_elem_of_In, filter_In in Hr as [Hr _]. unfold rowsOf in Hr.
      apply list_elem_of_In, list_elem_of_fmap in Hr as ([k it] & -> & Hk).
      apply elem_of_map_to_list, firstPageOf_lookup in Hk. exact (Ht _ _ Hk).
    + rewrite Hadd in He. apply filter_In in He as [He _].
      now apply Hev, list_elem_of_In.
    + rewrite Hup in He. apply list_elem_of_In in He. rewrite elem_of_sortByDate in He.
      apply list_elem_of_In, filter_In in He as [He _]. now apply Hev, list_elem_of_In.
Qed.

(** X13. A store that holds only dates of the years 0..9999 keeps doing so
    under every run of [processEvents] on extracted events, failed or not,
    and the report of a successful run can be marshalled: with a store that
    only this program writes, marshalling the report cannot fail. *)
Theorem report_always_marshals (now : Time) (doc : Node) (st : Dynamo) :
  rowsMarshal (table st) ->
  let out := processEvents now (traverse doc) st in
  rowsMarshal (table (snd out)) /\
  (forall report, fst out = inr report -> marshals report = true).
Proof.
  intros Ht. apply differ_keeps_marshalling; [| assumption].
  apply Forall_forall. intros e. apply traverse_marshals.
Qed.

Lemma report_always_marshals_witness :
  let out := processEvents sampleNow (traverse samplePage) (sampleStore []) in
  rowsMarshal (table (snd out)) /\
  (forall report, fst out = inr report -> marshals report = true).
Proof.
  apply report_always_marshals. intros k it. unfold sampleStore, sampleTable, table.
  intros [<- <-] % lookup_singleton_Some. vm_compute. reflexivity.
Defined.

(** * The handler over several runs *)

(** X14. An addition is announced by the run that stores it, or never as
    an addition: if a run got as far as calling [sendEmail] (whether the
    mail was accepted, refused, or the credentials were missing), then the
    next run on the same page, from the store that run left, on a day other
    than Friday, sends no mail, provided the scan of that next run returns
    the whole table. *)
Theorem mail_is_not_repeated (env1 env2 : Env) (st : Dynamo)
    (report : ChangeReport) (answer : MailAnswer) :
  mails (HandleRequest env1 st) = [(report, answer)] ->
  fullScan (dynamo (HandleRequest env1 st)) ->
  httpAnswer env2 = httpAnswer env1 ->
  htmlParse env2 = htmlParse env1 ->
  GoTime.Weekday (clockOfHandler env2) <> GoTime.Friday ->
  mails (HandleRequest env2 (dynamo (HandleRequest env1 st))) = [].
Proof.
  intros Hmail Hfull Hhttp Hparse Hday. unfold HandleRequest in Hmail, Hfull |- * at 2.
  destruct (configFails env1); [discriminate |].
  destruct (httpAnswer env1) as [[body |] |] eqn:Hbody; try discriminate.
  destruct (extractEvents (htmlParse env1) body) as [err | events] eqn:Hev;
    [discriminate |].
  destruct (processEvents (clockOfDiff env1) events st) as [[err | r1] st1] eqn:Hrun1;
    [discriminate |].
  assert (Hst : dynamo (if negb (marshals r1) then failWith ErrMarshalingReport st1
                        else if (0 <? AddedCount r1)%nat
                                || (GoTime.Weekday (clockOfHandler env1) =? GoTime.Friday)
                        then match mailAnswer env1 with
                             | MailAccepted =>
                                 mkOutcome (Some (mkResponse 200 (inr r1))) st1
                                           [(r1, MailAccepted)]
                             | MailRefused =>
                                 mkOutcome (Some (createErrorResponse ErrSendingEmail)) st1
                                           [(r1, MailRefused)]
                             | MailNoCredentials =>
                                 mkOutcome None st1 [(r1, MailNoCredentials)]
                             end
                        else mkOutcome (Some (mkResponse 200 (inr r1))) st1 []) = st1).
  { destruct (negb _); [reflexivity |]. destruct (_ || _); [| reflexivity].
    now destruct (mailAnswer env1). }
  rewrite Hst in Hfull |- *. clear Hst Hmail.
  unfold HandleRequest. destruct (configFails env2); [reflexivity |].
  rewrite Hhttp, Hparse, Hev.
  destruct (processEvents (clockOfDiff env2) events st1) as [[err | r2] st2] eqn:Hrun2;
    [reflexivity |].
  destruct (negb (marshals r2)); [reflexivity |].
  apply processEvents_ok in Hrun1 as (Hdom & _).
  apply processEvents_ok in Hrun2 as (_ & _ & Hadd & _ & Hcount & _).
  assert (Hnone : AddedEvents r2 = []).
  { rewrite Hadd. apply filter_none. intros e He. apply bool_decide_eq_false_2.
    intros Hno. apply Hno. unfold fullScan in Hfull.
    rewrite Hfull, Hdom, elem_of_union, elem_of_list_to_set. left.
    apply list_elem_of_fmap. now exists e. }
  rewrite Hcount, Hnone. cbn [length Nat.ltb Nat.leb orb].
  destruct (Z.eqb_spec (GoTime.Weekday (clockOfHandler env2)) GoTime.Friday);
    [contradiction | reflexivity].
Qed.

Lemma mail_is_not_repeated_witness :
  exists report,
    mails (HandleRequest (refusingEnv sampleNow) (sampleStore []))
    = [(report, MailRefused)] /\
    AddedCount report = 2%nat /\
    mails (HandleRequest (refusingEnv sampleNow)
             (dynamo (HandleRequest (refusingEnv sampleNow) (sampleStore [])))) = [].
Proof.
  destruct (mails (HandleRequest (refusingEnv sampleNow) (sampleStore [])))
    as [| [report answer] rest] eqn:Hmail; [vm_compute in Hmail; discriminate Hmail |].
  assert (Hrest : rest = [] /\ answer = MailRefused /\ AddedCount report = 2%nat).
  { vm_compute in Hmail. injection Hmail as <- <- <-. repeat split. }
  destruct Hrest as (-> & -> & Hcount).
  exists report. split; [reflexivity |]. split; [exact Hcount |].
  apply (mail_is_not_repeated _ _ _ _ _ Hmail);
    [vm_compute; reflexivity | reflexivity | reflexivity |].
  vm_compute. discriminate.
Defined.

(** X15. The handler keeps the store marshallable and then never fails at
    marshalling: from a store whose dates are of the years 0..9999 no run
    answers with the marshalling error, and the store the run leaves has
    such dates again, whatever the page, the clock and the failures of the
    store are. *)
Theorem handler_never_fails_marshalling (env : Env) (st : Dynamo) :
  rowsMarshal (table st) ->
  response (HandleRequest env st) <> Some (createErrorResponse ErrMarshalingReport) /\
  rowsMarshal (table (dynamo (HandleRequest env st))).
Proof.
  intros Ht. unfold HandleRequest.
  destruct (configFails env); [split; [discriminate | assumption] |].
  destruct (httpAnswer env) as [[body |] |]; try (split; [discriminate | assumption]).
  unfold extractEvents. destruct (htmlParse env body) as [doc |];
    [| split; [discriminate | assumption]].
  assert (Hev : Forall (fun e => marshalsEvent e = true) (traverse doc)).
  { apply Forall_forall. intros e. apply traverse_marshals. }
  destruct (differ_keeps_marshalling (clockOfDiff env) _ st Hev Ht) as [Hrows Hmarshal].
  destruct (traced_processEvents (clockOfDiff env) (traverse doc) st)
    as (made & _ & _ & _ & _ & Hres).
  destruct (processEvents (clockOfDiff env) (traverse doc) st) as [[err | report] st'].
  - cbn [fst snd] in *. split; [| assumption].
    destruct Hres as [(before & rq & _ & _ & ->) | (_ & _ & ->)]; [now destruct rq |].
    discriminate.
  - cbn [fst snd] in *. rewrite (Hmarshal report eq_refl). cbn [negb].
    destruct (_ || _); [| split; [discriminate | assumption]].
    destruct (mailAnswer env); split; (discriminate || assumption).
Qed.

Lemma handler_never_fails_marshalling_witness :
  response (HandleRequest (refusingEnv sampleNow) (sampleStore []))
    <> Some (createErrorResponse ErrMarshalingReport) /\
  rowsMarshal (table (dynamo (HandleRequest (refusingEnv sampleNow) (sampleStore [])))).
Proof.
  apply handler_never_fails_marshalling. intros k it. unfold sampleStore, sampleTable, table.
  intros [<- <-] % lookup_singleton_Some. vm_compute. reflexivity.
Defined.

(** * The text of a node *)

Lemma concat_empty_cons (x : string) (l : list string) :
  String.concat "" (x :: l) = x +:+ String.concat "" l.
Proof. destruct l; cbn [String.concat]; [now rewrite append_empty | reflexivity]. Qed.

Lemma concat_empty_app (l1 l2 : list string) :
  String.concat "" (l1 ++ l2) = String.concat "" l1 +:+ String.concat "" l2.
Proof.
  induction l1 as [| x l1 IH]; [reflexivity |].
  cbn [app]. now rewrite !concat_empty_cons, IH, append_assoc3.
Qed.

(** X16. The text of a node is the data of the text nodes below it (or of
    the node itself), in document order and with nothing between them:
    the text of nested elements, nested event containers among them, is
    part of it, comments and attributes are not. *)
Theorem getTextContent_preorder (n : Node) :
  textLeaves n ->
  getTextContent n = String.concat "" (nodeData <$> List.filter isText (preorder n)).
Proof.
  induction n as [ty data attrs cs IH] using Node_forall_ind. intros Hleaves.
  assert (Hty : ty = TextNode \/ ty <> TextNode) by (destruct ty; auto; right; discriminate).
  destruct Hty as [-> | Hty].
  - assert (Hcs : cs = []).
    { apply (Hleaves (mkNode TextNode data attrs cs)); [| reflexivity].
      cbn [preorder]. apply elem_of_cons. now left. }
    subst cs. reflexivity.
  - assert (Hkids :
      (fix siblings (cs : list Node) : string :=
         match cs with [] => ""%string | c :: cs' => getTextContent c +:+ siblings cs' end) cs
      = String.concat "" (nodeData <$> List.filter isText
          ((fix siblings (cs : list Node) : list Node :=
              match cs with [] => [] | c :: cs' => preorder c ++ siblings cs' end) cs))).
    { assert (Hsub : forall c, c ∈ cs -> textLeaves c).
      { intros c Hc d Hd. apply Hleaves. cbn [preorder nodeChildren].
        apply elem_of_cons. right. clear -Hc Hd.
        induction cs as [| c' cs IHcs]; [now apply elem_of_nil in Hc |].
        apply elem_of_app. apply elem_of_cons in Hc as [<- | Hc]; [now left | right; auto]. }
      clear Hleaves. induction IH as [| c cs' Hc _ IHcs]; [reflexivity |].
      rewrite List.filter_app, fmap_app, concat_empty_app.
      rewrite <- Hc by (apply Hsub, elem_of_cons; now left).
      rewrite <- IHcs; [reflexivity |]. intros d Hd. apply Hsub, elem_of_cons. now right. }
    cbn [preorder nodeChildren List.filter]. unfold isText at 1. cbn [nodeType].
    destruct ty; try contradiction; rewrite <- Hkids; reflexivity.
Qed.

Lemma getTextContent_preorder_witness :
  textLeaves samplePage /\
  getTextContent samplePage = "  Schulfest 
    10:00 – 14:00  UhrImpressum"%string.
Proof.
  assert (H : textLeaves samplePage).
  { intros c Hc Hty. apply list_elem_of_In in Hc. cbn in Hc.
    repeat (destruct Hc as [<- | Hc]; [try reflexivity; discriminate Hty |]).
    destruct Hc. }
  split; [exact H |]. rewrite (getTextContent_preorder _ H). reflexivity.
Defined.

(** * The list item of an extracted event *)

(** X17. The list item of an extracted event in the mail: the date of the
    label, its eight digits YYYYMMDD shown as DD.MM.YYYY, in bold, then the
    normalised text of the node as it is. *)
Theorem list_item_of_extracted_event (n : Node) (e : Event) :
  nodeEvent n = Some e ->
  exists v y1 y2 y3 y4 m1 m2 d1 d2,
    lookupLast "aria-labelledby" (nodeAttr n) = Some v /\
    lastSegment v [y1; y2; y3; y4; m1; m2; d1; d2] /\
    listItem e
    = "<li><b>" +:+
      string_of_list_ascii [d1; d2; "."%char; m1; m2; "."%char; y1; y2; y3; y4] +:+
      "</b><br />" +:+ cleanText (getTextContent n) +:+ "<br /><br /></li>".
Proof.
  intros (_ & _ & v & seg & Hv & Hseg & _ & Hparse & Hdesc) % nodeEvent_spec.
  apply Parse_inv in Hparse
    as (a & b & c & d & e' & f & g & h & Hs & Hdig & Hm & Hd & Hdate).
  rewrite list_ascii_of_string_of_list_ascii in Hs. subst seg.
  exists v, a, b, c, d, e', f, g, h. split; [assumption |]. split; [assumption |].
  unfold listItem, FormatDotted. rewrite Hdesc, Hdate.
  assert (Hc : 0 <= 0 < GoTime.nanosPerDay) by (split; [lia | reflexivity]).
  destruct (Date_parts _ _ _ 0 Hm Hd Hc) as (-> & -> & -> & _).
  assert (H4 : Forall (fun x => isDigitChar x = true) [a; b; c; d]).
  { rewrite !Forall_cons in Hdig. rewrite !Forall_cons. tauto. }
  destruct (fourDigitsOf_yearOf _ _ _ _ H4) as [Hy Hy'].
  rewrite !Forall_cons in Hdig. destruct Hdig as (_ & _ & _ & _ & He & Hf & Hg & Hh & _).
  destruct (twoDigitsOf_twoDigits _ _ He Hf) as [Hmm Hmm'].
  destruct (twoDigitsOf_twoDigits _ _ Hg Hh) as [Hdd Hdd'].
  rewrite appendInt_four, appendInt_two, appendInt_two, Hy', Hmm', Hdd' by assumption.
  reflexivity.
Qed.

Lemma list_item_of_extracted_event_witness :
  exists e, nodeEvent emptyContainer = Some e /\
    listItem e = "<li><b>10.03.2025</b><br /><br /><br /></li>"%string.
Proof.
  destruct (nodeEvent emptyContainer) as [e |] eqn:He; [| vm_compute in He; discriminate He].
  exists e. split; [reflexivity |].
  destruct (list_item_of_extracted_event _ _ He)
    as (v & y1 & y2 & y3 & y4 & m1 & m2 & d1 & d2 & Hv & (prefix & Hseg & _) & ->).
  vm_compute in Hv. injection Hv as <-.
  assert (Hrev : rev (prefix ++ "-"%char :: [y1; y2; y3; y4; m1; m2; d1; d2])
                 = rev (list_ascii_of_string "day-20250310")) by now rewrite Hseg.
  rewrite rev_app_distr in Hrev. cbn in Hrev.
  injection Hrev as <- <- <- <- <- <- <- <- _. reflexivity.
Defined.
